(** * Parabolic humming-top: mesh generation and differential geometry

    A shallow embedding of the three variants of the program:
    - [Wireframe]: [src/P1/main.js] (U/V polylines),
    - [Flat]:      [src/P2/main.js], first document (flat Phong, indexed mesh),
    - [Textured]:  [src/P2/main.js], second document (tangents, texture
      coordinates, inline normal pass).

    JavaScript numbers are abstracted by the interface [Number]; every
    definition of the program is written once, over any implementation of
    that interface.  Arrays that the source mutates in place are lists that
    are passed through the loops explicitly.  A function that talks to the
    WebGL context returns the list of the calls it makes, in order. *)

From Stdlib Require Import List Arith Lia Bool QArith Reals Lra Qreals.
Import ListNotations.

Close Scope Q_scope.
Close Scope R_scope.
Set Implicit Arguments.

(** ** JavaScript numbers *)

(** The operations of the JavaScript [Number] type and of [Math] that the
    program uses.  [literal q] is the number a decimal literal of the source
    denotes, [of_count n] the number held by an integer loop counter or
    resolution, [NaN] the value of an arithmetic operand that is [undefined]
    (a read outside an array). *)
Class Number (num : Type) : Type := {
  NaN : num;
  literal : Q -> num;
  of_count : nat -> num;
  num_add : num -> num -> num;
  num_sub : num -> num -> num;
  num_mul : num -> num -> num;
  num_div : num -> num -> num;
  num_neg : num -> num;
  num_gt : num -> num -> bool;
  Math_PI : num;
  Math_abs : num -> num;
  Math_cos : num -> num;
  Math_sin : num -> num;
  Math_hypot : num -> num -> num -> num
}.

Declare Scope num_scope.
Delimit Scope num_scope with num.
Infix "+" := num_add : num_scope.
Infix "-" := num_sub : num_scope.
Infix "*" := num_mul : num_scope.
Infix "/" := num_div : num_scope.
Notation "- x" := (num_neg x) : num_scope.
Infix ">?" := num_gt (at level 70, no associativity) : num_scope.

(** ** Loops and arrays *)

(** [for (let j = lo; j < hi; j++) s = body(j, s)]. *)
Definition for_loop {St : Type} (lo hi : nat) (body : nat -> St -> St) (s : St)
  : St :=
  fold_left (fun s j => body j s) (seq lo (hi - lo)) s.

(** [for (let t = 0; t < n; t += 3) s = body(t, s)] with a bound [n] that
    the body leaves unchanged: the counter takes the values [0, 3, 6, ...]
    below [n], that is [ceil(n/3)] of them. *)
Definition for_step3 {St : Type} (n : nat) (body : nat -> St -> St) (s : St)
  : St :=
  for_loop 0 ((n + 2) / 3) (fun k => body (3 * k)) s.

(** [for (let k = k0; k < bound(s); k += 3) s = body(k, s)] with a bound
    that is read from the state again at every test.  [fuel] bounds the
    number of tests. *)
Fixpoint for_step3_while {St : Type} (fuel : nat) (bound : St -> nat)
    (body : nat -> St -> St) (k : nat) (s : St) : St :=
  match fuel with
  | 0 => s
  | S fuel' =>
      if k <? bound s then for_step3_while fuel' bound body (k + 3) (body k s)
      else s
  end.

Section Arrays.
Context {num : Type} `{Number num}.

(** [a[k]] used as an arithmetic operand: outside the array the read gives
    [undefined], which arithmetic and [Math.hypot] coerce to [NaN]. *)
Definition get (a : list num) (k : nat) : num := nth k a NaN.

(** [a[k] = v]: inside the array the element is replaced; outside, the
    array is extended up to index [k] and the skipped elements are holes,
    which read as [undefined] like any element outside. *)
Definition set (a : list num) (k : nat) (v : num) : list num :=
  if k <? length a then firstn k a ++ v :: skipn (S k) a
  else a ++ repeat NaN (k - length a) ++ [v].

(** Component [c] of vertex [i] in a flat array of triples, for an index
    [i] read from the index array: [positions[3 * i + c]].  With
    [i = undefined] the subscript is [NaN] and the read gives [undefined]. *)
Definition coord (a : list num) (i : option nat) (c : nat) : num :=
  match i with
  | Some i => get a (3 * i + c)
  | None => NaN
  end.

(** [normals[3 * i + c] += v].  With [i = undefined] the assignment sets
    the property ["NaN"] of the array object and changes no element. *)
Definition add_at (a : list num) (i : option nat) (c : nat) (v : num) : list num :=
  match i with
  | Some i => set a (3 * i + c) (get a (3 * i + c) + v)%num
  | None => a
  end.
End Arrays.

(** ** The external matrix library and camera *)

(** [m4] (matrix utilities) and the trackball rotator are not part of the
    program's sources; the program uses them through this interface. *)
Class M4 (num mat : Type) : Type := {
  axisRotation : num * num * num -> num -> mat;
  translation : num -> num -> num -> mat;
  perspective : num -> num -> num -> num -> mat;
  multiply : mat -> mat -> mat
}.

Record TrackballRotator (mat : Type) : Type := {
  getViewMatrix : mat
}.

(** ** The WebGL context *)

(** The constants of the context that the program passes to its calls. *)
Inductive GLenum : Type :=
| ARRAY_BUFFER
| ELEMENT_ARRAY_BUFFER
| STATIC_DRAW
| FLOAT
| UNSIGNED_SHORT
| UNSIGNED_BYTE
| LINE_STRIP
| TRIANGLES
| TEXTURE_2D
| RGBA
| UNPACK_FLIP_Y_WEBGL
| TEXTURE_MIN_FILTER
| TEXTURE_MAG_FILTER
| TEXTURE_WRAP_S
| TEXTURE_WRAP_T
| LINEAR
| LINEAR_MIPMAP_LINEAR
| REPEAT
| CLAMP_TO_EDGE.

(** [new Float32Array(a)] and [new Uint16Array(a)], with the array that the
    constructor is given.  The conversion of the elements happens in the
    constructor: to 32-bit floats, which is not represented, and to
    unsigned 16-bit integers, which is [uint16_elements]. *)
Inductive TypedArray (num : Type) : Type :=
| Float32Array (elements : list num)
| Uint16Array (elements : list nat).

Arguments Float32Array {num} elements.
Arguments Uint16Array {num} elements.

(** The elements that [new Uint16Array(indices)] holds: every index modulo
    2^16. *)
Definition uint16_elements (indices : list nat) : list nat :=
  map (fun i => i mod 2 ^ 16) indices.

(** The image of a texture, once loaded: its sides in pixels. *)
Record Image : Type := {
  width : Z;
  height : Z
}.

(** A call of a method of the context [gl].  Buffers, uniform locations and
    textures are handles that the context gives out; an attribute location
    is an integer. *)
Inductive gl_call (num buffer uniform texture : Type) : Type :=
| bindBuffer (target : GLenum) (b : buffer)
| bufferData (target : GLenum) (data : TypedArray num) (usage : GLenum)
| vertexAttribPointer (index : Z) (size : nat) (type : GLenum)
    (normalized : bool) (stride offset : nat)
| enableVertexAttribArray (index : Z)
| uniform3fv (location : uniform) (v : TypedArray num)
| uniform4fv (location : uniform) (v : list num)
| drawArrays (mode : GLenum) (first count : num)
| drawElements (mode : GLenum) (count : nat) (type : GLenum) (offset : nat)
| bindTexture (target : GLenum) (t : texture)
| pixelStorei (pname : GLenum) (param : bool)
| texImage2D (target : GLenum) (level : nat) (internalformat format type : GLenum)
    (source : Image)
| generateMipmap (target : GLenum)
| texParameteri (target pname param : GLenum).

Arguments bindBuffer {num buffer uniform texture} target b.
Arguments bufferData {num buffer uniform texture} target data usage.
Arguments vertexAttribPointer {num buffer uniform texture}
  index size type normalized stride offset.
Arguments enableVertexAttribArray {num buffer uniform texture} index.
Arguments uniform3fv {num buffer uniform texture} location v.
Arguments uniform4fv {num buffer uniform texture} location v.
Arguments drawArrays {num buffer uniform texture} mode first count.
Arguments drawElements {num buffer uniform texture} mode count type offset.
Arguments bindTexture {num buffer uniform texture} target t.
Arguments pixelStorei {num buffer uniform texture} pname param.
Arguments texImage2D {num buffer uniform texture}
  target level internalformat format type source.
Arguments generateMipmap {num buffer uniform texture} target.
Arguments texParameteri {num buffer uniform texture} target pname param.

(** ** Wireframe variant: src/P1/main.js *)

Module Wireframe.
Section Program.
Context {num : Type} `{Number num}.
Context {mat : Type} `{M4 num mat}.
Local Open Scope num_scope.

Definition computeTransforms (modelView : mat) : mat :=
  let rotateToPointZero :=
    axisRotation (literal 0.707, literal 0.707, literal 0) (literal 0.7) in
  let translateToPointZero :=
    translation (literal 0) (literal 0) (literal (-10)) in
  let matAccum0 := multiply rotateToPointZero modelView in
  multiply translateToPointZero matAccum0.

Definition computeMVP (modelView : mat) : mat :=
  let projection :=
    perspective (Math_PI / literal 8) (literal 1) (literal 8) (literal 12) in
  let mv := computeTransforms modelView in
  multiply projection mv.

Definition parabolicHummingTopVertex (y beta h p : num) : num * num * num :=
  let rBase := Math_abs y - h in
  let r := (rBase * rBase) / (literal 2 * p) in
  let x := r * Math_cos beta in
  let z := r * Math_sin beta in
  (x, y, z).

Definition generateULines (h p : num) (vSegments uSegments : nat)
  : list (list num) :=
  for_loop 0 (vSegments + 1) (fun j uLines =>
    let y := - h + (literal 2 * h * of_count j) / of_count vSegments in
    let line :=
      for_loop 0 (uSegments + 1) (fun i line =>
        let beta := (literal 2 * Math_PI * of_count i) / of_count uSegments in
        let '(x, yy, z) := parabolicHummingTopVertex y beta h p in
        line ++ [x; yy; z]) [] in
    uLines ++ [line]) [].

Definition generateVLines (h p : num) (vSegments uSegments : nat)
  : list (list num) :=
  for_loop 0 (uSegments + 1) (fun i vLines =>
    let beta := (literal 2 * Math_PI * of_count i) / of_count uSegments in
    let line :=
      for_loop 0 (vSegments + 1) (fun j line =>
        let y := - h + (literal 2 * h * of_count j) / of_count vSegments in
        let '(x, yy, z) := parabolicHummingTopVertex y beta h p in
        line ++ [x; yy; z]) [] in
    vLines ++ [line]) [].

Record SurfaceData : Type := {
  uLines : list (list num);
  vLines : list (list num)
}.

Definition CreateSurfaceData : SurfaceData :=
  let h := literal 1.0 in
  let p := literal 0.5 in
  let vSegments := 40%nat in
  let uSegments := 64%nat in
  let uLines := generateULines h p vSegments uSegments in
  let vLines := generateVLines h p vSegments uSegments in
  {| uLines := uLines; vLines := vLines |}.

Definition deg2rad (angle : num) : num := (angle * Math_PI) / literal 180.

(** *** The model object *)

Context {buffer uniform texture : Type}.

(** [{ offset, count }], in vertices. *)
Record LineInfo : Type := {
  offset : num;
  count : num
}.

(** The fields of a [Model] that its methods read and write. *)
Record Model : Type := {
  iVertexBuffer : buffer;
  uLineInfo : list LineInfo;
  vLineInfo : list LineInfo
}.

(** The fields of the global [shProgram] that [Draw] reads. *)
Record ShaderProgram : Type := {
  iAttribVertex : Z;
  iColor : uniform
}.

(** [this.BufferData(uLines, vLines)]: the object as the method leaves it,
    and the calls it makes. *)
Definition BufferData (this : Model) (uLines vLines : list (list num))
  : Model * list (gl_call num buffer uniform texture) :=
  let uLineInfo := [] in
  let vLineInfo := [] in
  let vertices := [] in
  let currentOffset := literal 0 in
  let '(uLineInfo, vertices, currentOffset) :=
    for_loop 0 (length uLines) (fun i '(uLineInfo, vertices, currentOffset) =>
      let line := nth i uLines [] in
      let vertCount := of_count (length line) / literal 3 in
      let uLineInfo :=
        uLineInfo ++ [{| offset := currentOffset; count := vertCount |}] in
      let vertices := vertices ++ line in
      let currentOffset := currentOffset + vertCount in
      (uLineInfo, vertices, currentOffset))
      (uLineInfo, vertices, currentOffset) in
  let '(vLineInfo, vertices, currentOffset) :=
    for_loop 0 (length vLines) (fun i '(vLineInfo, vertices, currentOffset) =>
      let line := nth i vLines [] in
      let vertCount := of_count (length line) / literal 3 in
      let vLineInfo :=
        vLineInfo ++ [{| offset := currentOffset; count := vertCount |}] in
      let vertices := vertices ++ line in
      let currentOffset := currentOffset + vertCount in
      (vLineInfo, vertices, currentOffset))
      (vLineInfo, vertices, currentOffset) in
  ({| iVertexBuffer := iVertexBuffer this;
      uLineInfo := uLineInfo;
      vLineInfo := vLineInfo |},
   [bindBuffer ARRAY_BUFFER (iVertexBuffer this);
    bufferData ARRAY_BUFFER (Float32Array vertices) STATIC_DRAW]).

(** An element of an info array read outside of it; the loops of [Draw]
    stay inside. *)
Definition no_info : LineInfo := {| offset := NaN; count := NaN |}.

(** [this.Draw()]: the calls it makes. *)
Definition Draw (this : Model) (shProgram : ShaderProgram)
  : list (gl_call num buffer uniform texture) :=
  let calls :=
    [bindBuffer ARRAY_BUFFER (iVertexBuffer this);
     vertexAttribPointer (iAttribVertex shProgram) 3 FLOAT false 0 0;
     enableVertexAttribArray (iAttribVertex shProgram);
     uniform4fv (iColor shProgram)
       [literal 1.0; literal 0.6; literal 0.0; literal 1.0]] in
  let calls :=
    for_loop 0 (length (uLineInfo this)) (fun i calls =>
      let info := nth i (uLineInfo this) no_info in
      calls ++ [drawArrays LINE_STRIP (offset info) (count info)])
      calls in
  let calls :=
    calls ++ [uniform4fv (iColor shProgram)
                [literal 0.2; literal 0.7; literal 1.0; literal 1.0]] in
  for_loop 0 (length (vLineInfo this)) (fun i calls =>
    let info := nth i (vLineInfo this) no_info in
    calls ++ [drawArrays LINE_STRIP (offset info) (count info)])
    calls.
End Program.
End Wireframe.

(** ** Flat-shaded variant: src/P2/main.js, first document *)

Module Flat.
Section Program.
Context {num : Type} `{Number num}.
Context {mat : Type} `{M4 num mat}.
Local Open Scope num_scope.

Definition parabolicHummingTopVertex (y beta h p : num) : num * num * num :=
  let rBase := Math_abs y - h in
  let r := (rBase * rBase) / (literal 2 * p) in
  let x := r * Math_cos beta in
  let z := r * Math_sin beta in
  (x, y, z).

(** Returns [{ positions, normals }]. *)
Definition buildGrid (uSeg vSeg : nat) (h p : num) : list num * list num :=
  for_loop 0 (vSeg + 1) (fun j '(positions, normals) =>
    let v := of_count j / of_count vSeg in
    let y := - h + literal 2.0 * h * v in
    for_loop 0 (uSeg + 1) (fun i '(positions, normals) =>
      let u := of_count i / of_count uSeg in
      let beta := literal 2.0 * Math_PI * u in
      let '(x, yy, z) := parabolicHummingTopVertex y beta h p in
      (positions ++ [x; yy; z],
       normals ++ [literal 0.0; literal 0.0; literal 0.0]))
      (positions, normals))
    ([], []).

Definition buildIndices (uSeg vSeg : nat) : list nat :=
  let vertsPerRow := (uSeg + 1)%nat in
  for_loop 0 vSeg (fun j indices =>
    for_loop 0 uSeg (fun i indices =>
      let i0 := (j * vertsPerRow + i)%nat in
      let i1 := (i0 + 1)%nat in
      let i2 := (i0 + vertsPerRow)%nat in
      let i3 := (i2 + 1)%nat in
      let indices := indices ++ [i0; i2; i1] in
      indices ++ [i1; i2; i3])
      indices)
    [].

(** The body of the loop of [accumulateNormalsFromIndices] for the triple
    starting at [t]. *)
Definition accumulateFace (positions : list num) (indices : list nat)
    (t : nat) (normals : list num) : list num :=
  let i0 := nth_error indices t in
  let i1 := nth_error indices (t + 1) in
  let i2 := nth_error indices (t + 2) in
  let ax := coord positions i0 0 in
  let ay := coord positions i0 1 in
  let az := coord positions i0 2 in
  let bx := coord positions i1 0 in
  let by' := coord positions i1 1 in
  let bz := coord positions i1 2 in
  let cx := coord positions i2 0 in
  let cy := coord positions i2 1 in
  let cz := coord positions i2 2 in
  let ux := bx - ax in
  let uy := by' - ay in
  let uz := bz - az in
  let vx := cx - ax in
  let vy := cy - ay in
  let vz := cz - az in
  let nx := uy * vz - uz * vy in
  let ny := uz * vx - ux * vz in
  let nz := ux * vy - uy * vx in
  let len := Math_hypot nx ny nz in
  let '(nx, ny, nz) :=
    if len >? literal 1e-6 then (nx / len, ny / len, nz / len)
    else (nx, ny, nz) in
  let normals := add_at normals i0 0 nx in
  let normals := add_at normals i0 1 ny in
  let normals := add_at normals i0 2 nz in
  let normals := add_at normals i1 0 nx in
  let normals := add_at normals i1 1 ny in
  let normals := add_at normals i1 2 nz in
  let normals := add_at normals i2 0 nx in
  let normals := add_at normals i2 1 ny in
  add_at normals i2 2 nz.

(** Returns the array [normals] as the source leaves it. *)
Definition accumulateNormalsFromIndices
    (positions normals : list num) (indices : list nat) : list num :=
  for_step3 (length indices) (accumulateFace positions indices) normals.

(** The body of the loop of [normalizeNormals] at offset [k]. *)
Definition normalizeAt (k : nat) (normals : list num) : list num :=
  let nx := get normals k in
  let ny := get normals (k + 1) in
  let nz := get normals (k + 2) in
  let len := Math_hypot nx ny nz in
  if len >? literal 1e-6 then
    let normals := set normals k (nx / len) in
    let normals := set normals (k + 1) (ny / len) in
    set normals (k + 2) (nz / len)
  else
    let normals := set normals k (literal 0.0) in
    let normals := set normals (k + 1) (literal 1.0) in
    set normals (k + 2) (literal 0.0).

(** Returns the array [normals] as the source leaves it.  The bound
    [normals.length] is read again at every test; the initial length is
    fuel enough, since the counter grows by 3 and a write of this loop
    extends the array only within the triple it is normalizing. *)
Definition normalizeNormals (normals : list num) : list num :=
  for_step3_while (length normals) (@length num) normalizeAt 0 normals.

Record SurfaceData : Type := {
  positions : list num;
  normals : list num;
  indices : list nat
}.

(** [(uSeg = 40, vSeg = 40) => ...]: a default parameter replaces an
    argument that is omitted ([None]), and no other. *)
Definition default_parameter (arg : option nat) (d : nat) : nat :=
  match arg with
  | Some n => n
  | None => d
  end.

Definition CreateSurfaceData (uSeg vSeg : option nat) : SurfaceData :=
  let uSeg := default_parameter uSeg 40 in
  let vSeg := default_parameter vSeg 40 in
  let h := literal 1.0 in
  let p := literal 0.5 in
  let '(positions, normals) := buildGrid uSeg vSeg h p in
  let indices := buildIndices uSeg vSeg in
  let normals := accumulateNormalsFromIndices positions normals indices in
  let normals := normalizeNormals normals in
  {| positions := positions; normals := normals; indices := indices |}.

Definition computeProjection : mat :=
  perspective (Math_PI / literal 8) (literal 1) (literal 2) (literal 20).

Definition computeModelView (spaceball : TrackballRotator mat) : mat :=
  let modelView := getViewMatrix spaceball in
  let rotateToPointZero :=
    axisRotation (literal 0.707, literal 0.707, literal 0) (literal 0.7) in
  let translateToPointZero :=
    translation (literal 0) (literal 0) (literal (-10)) in
  let matAccum0 := multiply rotateToPointZero modelView in
  multiply translateToPointZero matAccum0.

Definition deg2rad (angle : num) : num := (angle * Math_PI) / literal 180.

(** A 4 by 4 matrix is the array [m] of its 16 entries, a point the array
    [p] of its coordinates. *)
Definition transformPoint (m p : list num) : list num :=
  let x := get p 0 in
  let y := get p 1 in
  let z := get p 2 in
  [get m 0 * x + get m 4 * y + get m 8 * z + get m 12;
   get m 1 * x + get m 5 * y + get m 9 * z + get m 13;
   get m 2 * x + get m 6 * y + get m 10 * z + get m 14].

(** *** The model object *)

Context {buffer uniform texture : Type}.

(** The fields of a [Model] that its methods read and write. *)
Record Model : Type := {
  vbo : buffer;
  nbo : buffer;
  ibo : buffer;
  indexCount : nat
}.

(** The fields of the global [shProgram] that [Draw] and
    [updateLightUniform] read. *)
Record ShaderProgram : Type := {
  iAttribVertex : Z;
  iAttribNormal : Z;
  iLightPos : uniform
}.

(** [this.BufferData(vertices, normals, indices)]: the object as the method
    leaves it, and the calls it makes. *)
Definition BufferData (this : Model) (vertices normals : list num)
    (indices : list nat) : Model * list (gl_call num buffer uniform texture) :=
  ({| vbo := vbo this; nbo := nbo this; ibo := ibo this;
      indexCount := length indices |},
   [bindBuffer ARRAY_BUFFER (vbo this);
    bufferData ARRAY_BUFFER (Float32Array vertices) STATIC_DRAW;
    bindBuffer ARRAY_BUFFER (nbo this);
    bufferData ARRAY_BUFFER (Float32Array normals) STATIC_DRAW;
    bindBuffer ELEMENT_ARRAY_BUFFER (ibo this);
    bufferData ELEMENT_ARRAY_BUFFER (Uint16Array indices) STATIC_DRAW]).

(** [this.Draw()]: the calls it makes. *)
Definition Draw (this : Model) (shProgram : ShaderProgram)
  : list (gl_call num buffer uniform texture) :=
  [bindBuffer ARRAY_BUFFER (vbo this);
   vertexAttribPointer (iAttribVertex shProgram) 3 FLOAT false 0 0;
   enableVertexAttribArray (iAttribVertex shProgram);
   bindBuffer ARRAY_BUFFER (nbo this);
   vertexAttribPointer (iAttribNormal shProgram) 3 FLOAT false 0 0;
   enableVertexAttribArray (iAttribNormal shProgram);
   bindBuffer ELEMENT_ARRAY_BUFFER (ibo this);
   drawElements TRIANGLES (indexCount this) UNSIGNED_SHORT 0].

(** *** The rotating light *)

(** [updateLightUniform(modelViewMatrix)]: the call it makes.  It reads the
    globals [shProgram] and [currentTime]. *)
Definition updateLightUniform (shProgram : ShaderProgram) (currentTime : num)
    (modelViewMatrix : list num) : list (gl_call num buffer uniform texture) :=
  let lightRadius := literal 5.0 in
  let lightHeight := literal 2.0 in
  let lightSpeed := literal 0.5 in
  let angle := currentTime * lightSpeed in
  let lightPosModel :=
    [lightRadius * Math_cos angle; lightHeight; lightRadius * Math_sin angle] in
  let lightPosEye := transformPoint modelViewMatrix lightPosModel in
  [uniform3fv (iLightPos shProgram) (Float32Array lightPosEye)].

(** [animate(time)]: the value it stores in the global [currentTime],
    before it draws and asks for the next frame. *)
Definition animate (time : num) : num := time * literal 0.001.
End Program.
End Flat.

(** ** Textured variant: src/P2/main.js, second document *)

Module Textured.
Section Program.
Context {num : Type} `{Number num}.
Context {mat : Type} `{M4 num mat}.
Local Open Scope num_scope.

Definition parabolicHummingTopVertex (y beta h p : num) : num * num * num :=
  let rBase := Math_abs y - h in
  let r := (rBase * rBase) / (literal 2 * p) in
  let x := r * Math_cos beta in
  let z := r * Math_sin beta in
  (x, y, z).

(** [arg || 40]: the default replaces every falsy argument, that is an
    omitted one ([None]) and [0]. *)
Definition or_default (arg : option nat) (d : nat) : nat :=
  match arg with
  | Some n => if (n =? 0)%nat then d else n
  | None => d
  end.

(** The first loop of [CreateSurfaceData]; the state is
    [(positions, normals, tangents, texCoords)]. *)
Definition buildVertices (uSeg vSeg : nat) (h p : num)
  : list num * list num * list num * list num :=
  for_loop 0 (vSeg + 1) (fun j st =>
    let v := of_count j / of_count vSeg in
    let y := - h + literal 2.0 * h * v in
    for_loop 0 (uSeg + 1) (fun i '(positions, normals, tangents, texCoords) =>
      let u := of_count i / of_count uSeg in
      let beta := literal 2.0 * Math_PI * u in
      let '(x, yy, z) := parabolicHummingTopVertex y beta h p in
      let positions := positions ++ [x; yy; z] in
      let normals := normals ++ [literal 0.0; literal 0.0; literal 0.0] in
      let rBase := Math_abs y - h in
      let r := (rBase * rBase) / (literal 2 * p) in
      let tx := - r * Math_sin beta in
      let ty := literal 0.0 in
      let tz := r * Math_cos beta in
      let tangents := tangents ++ [tx; ty; tz] in
      let texCoords := texCoords ++ [u; v] in
      (positions, normals, tangents, texCoords))
      st)
    ([], [], [], []).

(** The closure [addFace] of [CreateSurfaceData]: it reads [positions] and
    updates [normals]. *)
Definition addFace (positions normals : list num) (i0 i1 i2 : nat) : list num :=
  let ax := get positions (3 * i0) in
  let ay := get positions (3 * i0 + 1) in
  let az := get positions (3 * i0 + 2) in
  let bx := get positions (3 * i1) in
  let by' := get positions (3 * i1 + 1) in
  let bz := get positions (3 * i1 + 2) in
  let cx := get positions (3 * i2) in
  let cy := get positions (3 * i2 + 1) in
  let cz := get positions (3 * i2 + 2) in
  let ux := bx - ax in
  let uy := by' - ay in
  let uz := bz - az in
  let vx := cx - ax in
  let vy := cy - ay in
  let vz := cz - az in
  let nx := uy * vz - uz * vy in
  let ny := uz * vx - ux * vz in
  let nz := ux * vy - uy * vx in
  let len := Math_hypot nx ny nz in
  let '(nx, ny, nz) :=
    if len >? literal 1e-6 then (nx / len, ny / len, nz / len)
    else (nx, ny, nz) in
  let normals := set normals (3 * i0) (get normals (3 * i0) + nx) in
  let normals := set normals (3 * i0 + 1) (get normals (3 * i0 + 1) + ny) in
  let normals := set normals (3 * i0 + 2) (get normals (3 * i0 + 2) + nz) in
  let normals := set normals (3 * i1) (get normals (3 * i1) + nx) in
  let normals := set normals (3 * i1 + 1) (get normals (3 * i1 + 1) + ny) in
  let normals := set normals (3 * i1 + 2) (get normals (3 * i1 + 2) + nz) in
  let normals := set normals (3 * i2) (get normals (3 * i2) + nx) in
  let normals := set normals (3 * i2 + 1) (get normals (3 * i2 + 1) + ny) in
  set normals (3 * i2 + 2) (get normals (3 * i2 + 2) + nz).

(** The second loop of [CreateSurfaceData]; the state is
    [(indices, normals)]. *)
Definition buildTriangles (uSeg vSeg : nat) (positions normals : list num)
  : list nat * list num :=
  let vertsPerRow := (uSeg + 1)%nat in
  for_loop 0 vSeg (fun j st =>
    for_loop 0 uSeg (fun i '(indices, normals) =>
      let i0 := (j * vertsPerRow + i)%nat in
      let i1 := (i0 + 1)%nat in
      let i2 := (i0 + vertsPerRow)%nat in
      let i3 := (i2 + 1)%nat in
      let indices := indices ++ [i0; i2; i1] in
      let normals := addFace positions normals i0 i2 i1 in
      let indices := indices ++ [i1; i2; i3] in
      let normals := addFace positions normals i1 i2 i3 in
      (indices, normals))
      st)
    ([], normals).

(** The body of the last loop of [CreateSurfaceData] at offset [k]. *)
Definition normalizeAt (k : nat) (normals : list num) : list num :=
  let nx := get normals k in
  let ny := get normals (k + 1) in
  let nz := get normals (k + 2) in
  let len := Math_hypot nx ny nz in
  if len >? literal 1e-6 then
    let normals := set normals k (nx / len) in
    let normals := set normals (k + 1) (ny / len) in
    set normals (k + 2) (nz / len)
  else
    let normals := set normals k (literal 0.0) in
    let normals := set normals (k + 1) (literal 1.0) in
    set normals (k + 2) (literal 0.0).

Record SurfaceData : Type := {
  positions : list num;
  normals : list num;
  tangents : list num;
  texCoords : list num;
  indices : list nat
}.

Definition CreateSurfaceData (uSeg vSeg : option nat) : SurfaceData :=
  let uSeg := or_default uSeg 40 in
  let vSeg := or_default vSeg 40 in
  let h := literal 1.0 in
  let p := literal 0.5 in
  let '(positions, normals, tangents, texCoords) :=
    buildVertices uSeg vSeg h p in
  let '(indices, normals) := buildTriangles uSeg vSeg positions normals in
  let normals :=
    for_step3_while (length normals) (@length num) normalizeAt 0 normals in
  {| positions := positions; normals := normals; tangents := tangents;
     texCoords := texCoords; indices := indices |}.

(** The two matrices that [draw] sends to the shader:
    [(ModelViewMatrix, ProjectionMatrix)]. *)
Definition draw (spaceball : TrackballRotator mat) : mat * mat :=
  let projection :=
    perspective (Math_PI / literal 8) (literal 1) (literal 2) (literal 20) in
  let modelView := getViewMatrix spaceball in
  let rotateToPointZero :=
    axisRotation (literal 0.707, literal 0.707, literal 0) (literal 0.7) in
  let translateToPointZero :=
    translation (literal 0) (literal 0) (literal (-10)) in
  let matAccum0 := multiply rotateToPointZero modelView in
  let matAccum1 := multiply translateToPointZero matAccum0 in
  (matAccum1, projection).

Definition deg2rad (angle : num) : num := (angle * Math_PI) / literal 180.

(** A 4 by 4 matrix is the array [m] of its 16 entries, a point the array
    [p] of its coordinates. *)
Definition transformPoint (m p : list num) : list num :=
  let x := get p 0 in
  let y := get p 1 in
  let z := get p 2 in
  [get m 0 * x + get m 4 * y + get m 8 * z + get m 12;
   get m 1 * x + get m 5 * y + get m 9 * z + get m 13;
   get m 2 * x + get m 6 * y + get m 10 * z + get m 14].

(** *** The model object *)

Context {buffer uniform texture : Type}.

(** The fields of a [Model] that its methods read and write. *)
Record Model : Type := {
  vbo : buffer;
  nbo : buffer;
  tbo : buffer;
  uvbo : buffer;
  ibo : buffer;
  indexCount : nat
}.

(** The fields of the global [shProgram] that [Draw] and [draw] read for
    the attributes and the light. *)
Record ShaderProgram : Type := {
  iAttribVertex : Z;
  iAttribNormal : Z;
  iAttribTexCoord : Z;
  iAttribTangent : Z;
  iLightPos : uniform
}.

(** [this.BufferData(vertices, normals, tangents, texCoords, indices)]: the
    object as the method leaves it, and the calls it makes. *)
Definition BufferData (this : Model)
    (vertices normals tangents texCoords : list num) (indices : list nat)
  : Model * list (gl_call num buffer uniform texture) :=
  ({| vbo := vbo this; nbo := nbo this; tbo := tbo this; uvbo := uvbo this;
      ibo := ibo this; indexCount := length indices |},
   [bindBuffer ARRAY_BUFFER (vbo this);
    bufferData ARRAY_BUFFER (Float32Array vertices) STATIC_DRAW;
    bindBuffer ARRAY_BUFFER (nbo this);
    bufferData ARRAY_BUFFER (Float32Array normals) STATIC_DRAW;
    bindBuffer ARRAY_BUFFER (tbo this);
    bufferData ARRAY_BUFFER (Float32Array tangents) STATIC_DRAW;
    bindBuffer ARRAY_BUFFER (uvbo this);
    bufferData ARRAY_BUFFER (Float32Array texCoords) STATIC_DRAW;
    bindBuffer ELEMENT_ARRAY_BUFFER (ibo this);
    bufferData ELEMENT_ARRAY_BUFFER (Uint16Array indices) STATIC_DRAW]).

(** [this.Draw()]: the calls it makes. *)
Definition Draw (this : Model) (shProgram : ShaderProgram)
  : list (gl_call num buffer uniform texture) :=
  [bindBuffer ARRAY_BUFFER (vbo this);
   vertexAttribPointer (iAttribVertex shProgram) 3 FLOAT false 0 0;
   enableVertexAttribArray (iAttribVertex shProgram);
   bindBuffer ARRAY_BUFFER (nbo this);
   vertexAttribPointer (iAttribNormal shProgram) 3 FLOAT false 0 0;
   enableVertexAttribArray (iAttribNormal shProgram);
   bindBuffer ARRAY_BUFFER (tbo this);
   vertexAttribPointer (iAttribTangent shProgram) 3 FLOAT false 0 0;
   enableVertexAttribArray (iAttribTangent shProgram);
   bindBuffer ARRAY_BUFFER (uvbo this);
   vertexAttribPointer (iAttribTexCoord shProgram) 2 FLOAT false 0 0;
   enableVertexAttribArray (iAttribTexCoord shProgram);
   bindBuffer ELEMENT_ARRAY_BUFFER (ibo this);
   drawElements TRIANGLES (indexCount this) UNSIGNED_SHORT 0].

(** *** The rotating light *)

(** The light of [draw]: the call that sends its position, for the
    model-view matrix [matAccum1] of [draw] as the array of its entries.
    It reads the globals [shProgram] and [currentTime]. *)
Definition draw_light (shProgram : ShaderProgram) (currentTime : num)
    (matAccum1 : list num) : list (gl_call num buffer uniform texture) :=
  let lightRadius := literal 5.0 in
  let lightHeight := literal 2.0 in
  let lightSpeed := literal 0.5 in
  let angle := currentTime * lightSpeed in
  let lightPosModel :=
    [lightRadius * Math_cos angle; lightHeight; lightRadius * Math_sin angle] in
  let lightPosEye := transformPoint matAccum1 lightPosModel in
  [uniform3fv (iLightPos shProgram) (Float32Array lightPosEye)].

(** [animate(time)]: the value it stores in the global [currentTime],
    before it draws and asks for the next frame. *)
Definition animate (time : num) : num := time * literal 0.001.

(** *** Textures *)

(** [ToInt32] on an integer: its value modulo 2^32 in the range of the
    signed 32-bit integers. *)
Definition ToInt32 (x : Z) : Z :=
  let m := (x mod 2 ^ 32)%Z in
  if (2 ^ 31 <=? m)%Z then (m - 2 ^ 32)%Z else m.

(** [a & b] on integers: both operands go through [ToInt32]. *)
Definition bitwise_and (a b : Z) : Z := Z.land (ToInt32 a) (ToInt32 b).

(** [isPowerOf2(value)] for an integer [value]. *)
Definition isPowerOf2 (value : Z) : bool :=
  (bitwise_and value (value - 1) =? 0)%Z.

(** The handler [image.onload] of [loadTexture] for the texture [t] and the
    loaded image: the calls it makes.  Its last statement, a line on the
    console, is not a call of the context. *)
Definition image_onload (t : texture) (image : Image)
  : list (gl_call num buffer uniform texture) :=
  let calls :=
    [bindTexture TEXTURE_2D t;
     pixelStorei UNPACK_FLIP_Y_WEBGL true;
     texImage2D TEXTURE_2D 0 RGBA RGBA UNSIGNED_BYTE image] in
  let pot := isPowerOf2 (width image) && isPowerOf2 (height image) in
  if pot then
    calls ++
    [generateMipmap TEXTURE_2D;
     texParameteri TEXTURE_2D TEXTURE_MIN_FILTER LINEAR_MIPMAP_LINEAR;
     texParameteri TEXTURE_2D TEXTURE_MAG_FILTER LINEAR;
     texParameteri TEXTURE_2D TEXTURE_WRAP_S REPEAT;
     texParameteri TEXTURE_2D TEXTURE_WRAP_T REPEAT]
  else
    calls ++
    [texParameteri TEXTURE_2D TEXTURE_MIN_FILTER LINEAR;
     texParameteri TEXTURE_2D TEXTURE_MAG_FILTER LINEAR;
     texParameteri TEXTURE_2D TEXTURE_WRAP_S CLAMP_TO_EDGE;
     texParameteri TEXTURE_2D TEXTURE_WRAP_T CLAMP_TO_EDGE].
End Program.
End Textured.

(** ** Exact real arithmetic

    An implementation of [Number] in which a number is a real or [NaN] and
    every operation on reals is exact: rounding, overflow and signed zeros
    of IEEE doubles are not represented, and a division by zero, which in
    JavaScript gives an infinity or [NaN], gives [RNaN].  Every operation
    with a [NaN] operand gives [NaN]; every comparison with one is false. *)

Inductive xreal : Type :=
| RNaN : xreal
| Fin : R -> xreal.

Definition xlift1 (f : R -> R) (x : xreal) : xreal :=
  match x with
  | Fin a => Fin (f a)
  | RNaN => RNaN
  end.

Definition xlift2 (f : R -> R -> R) (x y : xreal) : xreal :=
  match x, y with
  | Fin a, Fin b => Fin (f a b)
  | _, _ => RNaN
  end.

Definition xdiv (x y : xreal) : xreal :=
  match x, y with
  | Fin a, Fin b => if Req_dec_T b 0 then RNaN else Fin (a / b)
  | _, _ => RNaN
  end.

Definition xgt (x y : xreal) : bool :=
  match x, y with
  | Fin a, Fin b => if Rlt_dec b a then true else false
  | _, _ => false
  end.

Definition xhypot (x y z : xreal) : xreal :=
  match x, y, z with
  | Fin a, Fin b, Fin c => Fin (sqrt (a * a + b * b + c * c))
  | _, _, _ => RNaN
  end.

#[global] Instance RealNumber : Number xreal := {|
  NaN := RNaN;
  literal q := Fin (Q2R q);
  of_count n := Fin (INR n);
  num_add := xlift2 Rplus;
  num_sub := xlift2 Rminus;
  num_mul := xlift2 Rmult;
  num_div := xdiv;
  num_neg := xlift1 Ropp;
  num_gt := xgt;
  Math_PI := Fin PI;
  Math_abs := xlift1 Rabs;
  Math_cos := xlift1 cos;
  Math_sin := xlift1 sin;
  Math_hypot := xhypot
|}.

(** The real that a number of exact real arithmetic holds. *)
Definition xreal_value (x : xreal) : option R :=
  match x with
  | Fin r => Some r
  | RNaN => None
  end.

(** ** Rounded arithmetic

    What the normalization of a normal needs of an implementation of
    numbers.  [value x] is the real that the number [x] holds, [None] for
    [NaN].  A quotient and [Math.hypot] hold the exact real up to a
    relative error of at most [roundoff], itself at most 1e-5; the
    threshold [1e-6] holds a positive real; a comparison that holds
    compares two reals.  IEEE doubles round to nearest with a relative
    error of 2^-53 where they neither overflow nor underflow; exact real
    arithmetic has [roundoff = 0]. *)
Class Rounded (num : Type) `{Number num} : Type := {
  value : num -> option R;
  roundoff : R;
  roundoff_small : (0 <= roundoff <= 1 / 100000)%R;
  threshold_value : forall e : R,
    value (literal 1e-6) = Some e -> (0 < e)%R;
  gt_value : forall x y : num,
    num_gt x y = true ->
    exists a b, value x = Some a /\ value y = Some b /\ (b < a)%R;
  hypot_value : forall (x y z : num) (l : R),
    value (Math_hypot x y z) = Some l ->
    exists a b c,
      value x = Some a /\ value y = Some b /\ value z = Some c
      /\ (Rabs (l - sqrt (a * a + b * b + c * c))
          <= roundoff * sqrt (a * a + b * b + c * c))%R;
  div_value : forall (x y : num) (a b : R),
    value x = Some a -> value y = Some b -> b <> 0%R ->
    exists q, value (x / y)%num = Some q
              /\ (Rabs (q - a / b) <= roundoff * Rabs (a / b))%R
}.

Arguments Rounded num {_}.

Section RoundedLength.
Context {num : Type} `{Rounded num}.

(** The Euclidean length of a vector of numbers that hold reals. *)
Definition vector_length (n : num * num * num) : option R :=
  let '(x, y, z) := n in
  match value x, value y, value z with
  | Some a, Some b, Some c => Some (sqrt (a * a + b * b + c * c))
  | _, _, _ => None
  end.

(** A vector whose Euclidean length is within [tol] of 1. *)
Definition has_unit_length (tol : R) (n : num * num * num) : Prop :=
  exists l : R, vector_length n = Some l /\ (Rabs (l - 1) <= tol)%R.

(** The fallback normal [(0, 1, 0)], as the source writes it. *)
Definition fallback : num * num * num :=
  (literal 0.0, literal 1.0, literal 0.0).
End RoundedLength.

(** ** Reading the arrays by vertex *)

Section Reading.
Context {num : Type} `{Number num}.
Local Open Scope num_scope.

(** The three consecutive entries of vertex [k] in a flat array. *)
Definition triple_at (a : list num) (k : nat) : num * num * num :=
  (get a (3 * k), get a (3 * k + 1), get a (3 * k + 2)).

(** The sample point of grid column [i] and row [j], as the grid loops of
    the solid variants compute it. *)
Definition grid_v (vSeg j : nat) : num := of_count j / of_count vSeg.
Definition grid_y (vSeg : nat) (h : num) (j : nat) : num :=
  - h + literal 2.0 * h * grid_v vSeg j.
Definition grid_u (uSeg i : nat) : num := of_count i / of_count uSeg.
Definition grid_beta (uSeg i : nat) : num :=
  literal 2.0 * Math_PI * grid_u uSeg i.

(** What the last loop of the geometry pass does to one accumulated
    normal. *)
Definition normalize3 (n : num * num * num) : num * num * num :=
  let '(nx, ny, nz) := n in
  let len := Math_hypot nx ny nz in
  if len >? literal 1e-6 then (nx / len, ny / len, nz / len)
  else (literal 0.0, literal 1.0, literal 0.0).

Definition hypot3 (n : num * num * num) : num :=
  let '(nx, ny, nz) := n in Math_hypot nx ny nz.

Definition add3 (a b : num * num * num) : num * num * num :=
  let '(ax, ay, az) := a in
  let '(bx, by', bz) := b in
  (ax + bx, ay + by', az + bz).
End Reading.

(** ** The triangulation as the specification words it *)

(** Triangle number [t] of an index array: entries [3t], [3t+1], [3t+2]. *)
Definition triangle_at (indices : list nat) (t : nat) : option (nat * nat * nat) :=
  match nth_error indices (3 * t),
        nth_error indices (3 * t + 1),
        nth_error indices (3 * t + 2) with
  | Some a, Some b, Some c => Some (a, b, c)
  | _, _, _ => None
  end.

(** The corners of the quad of column [i] and row [j]:
    [i0 = j * rowWidth + i], [i1 = i0 + 1], [i2 = i0 + rowWidth],
    [i3 = i2 + 1], with [rowWidth = uSegments + 1]. *)
Definition quad_i0 (uSegments i j : nat) : nat := j * (uSegments + 1) + i.
Definition quad_i1 (uSegments i j : nat) : nat := quad_i0 uSegments i j + 1.
Definition quad_i2 (uSegments i j : nat) : nat :=
  quad_i0 uSegments i j + (uSegments + 1).
Definition quad_i3 (uSegments i j : nat) : nat := quad_i2 uSegments i j + 1.

(** The six index entries of a quad: triangles [(i0, i2, i1)] and
    [(i1, i2, i3)]. *)
Definition quad_entries (uSegments j i : nat) : list nat :=
  [quad_i0 uSegments i j; quad_i2 uSegments i j; quad_i1 uSegments i j;
   quad_i1 uSegments i j; quad_i2 uSegments i j; quad_i3 uSegments i j].

(** ** The sampled grid *)

Section Grid.
Context {num : Type} `{Number num}.
Local Open Scope num_scope.

(** The sample point of column [i] and row [j]. *)
Definition grid_vertex (uSeg vSeg : nat) (h p : num) (i j : nat)
  : num * num * num :=
  Flat.parabolicHummingTopVertex (grid_y vSeg h j) (grid_beta uSeg i) h p.

(** The tangent of column [i] and row [j], as the textured variant
    computes it. *)
Definition grid_tangent (uSeg vSeg : nat) (h p : num) (i j : nat)
  : num * num * num :=
  let y := grid_y vSeg h j in
  let beta := grid_beta uSeg i in
  let rBase := Math_abs y - h in
  let r := (rBase * rBase) / (literal 2 * p) in
  (- r * Math_sin beta, literal 0.0, r * Math_cos beta).

Definition entries3 (t : num * num * num) : list num :=
  let '(x, y, z) := t in [x; y; z].

(** Row-major layout: row [j] outside, column [i] inside. *)
Definition grid_layout {A : Type} (uSeg vSeg : nat) (cell : nat -> nat -> list A)
  : list A :=
  flat_map (fun j => flat_map (fun i => cell i j) (seq 0 (uSeg + 1)))
           (seq 0 (vSeg + 1)).
End Grid.

(** ** Adding a face normal to its corners *)

Section Deposit.
Context {num : Type} `{Number num}.
Local Open Scope num_scope.

(** The cross product [(b - a) x (c - a)] of the edges of a triangle with
    corners [a], [b], [c]. *)
Definition edge_cross (a b c : num * num * num) : num * num * num :=
  let '(ax, ay, az) := a in
  let '(bx, by', bz) := b in
  let '(cx, cy, cz) := c in
  let ux := bx - ax in
  let uy := by' - ay in
  let uz := bz - az in
  let vx := cx - ax in
  let vy := cy - ay in
  let vz := cz - az in
  (uy * vz - uz * vy, uz * vx - ux * vz, ux * vy - uy * vx).

(** The position of the corner with index [i] of the index array. *)
Definition corner (positions : list num) (i : option nat) : num * num * num :=
  (coord positions i 0, coord positions i 1, coord positions i 2).

(** The edge cross product of the triangle with corners [i0], [i1], [i2],
    as the accumulation computes it. *)
Definition edgeCross (positions : list num) (i0 i1 i2 : option nat)
  : num * num * num :=
  edge_cross (corner positions i0) (corner positions i1) (corner positions i2).

(** [if (len > 1e-6) { nx /= len; ny /= len; nz /= len; }]: what the
    accumulation adds to the normals of the corners of a triangle. *)
Definition faceNormal (positions : list num) (i0 i1 i2 : option nat)
  : num * num * num :=
  let '(nx, ny, nz) := edgeCross positions i0 i1 i2 in
  let len := Math_hypot nx ny nz in
  if len >? literal 1e-6 then (nx / len, ny / len, nz / len)
  else (nx, ny, nz).

(** [normals[3 * i] += nx; normals[3 * i + 1] += ny;
    normals[3 * i + 2] += nz]. *)
Definition add_vertex (normals : list num) (i : option nat)
    (n : num * num * num) : list num :=
  let '(nx, ny, nz) := n in
  let normals := add_at normals i 0 nx in
  let normals := add_at normals i 1 ny in
  add_at normals i 2 nz.

(** The nine updates that end the body of the accumulation loop. *)
Definition deposit (normals : list num) (i0 i1 i2 : option nat)
    (n : num * num * num) : list num :=
  add_vertex (add_vertex (add_vertex normals i0 n) i1 n) i2 n.
End Deposit.

(** ** The mesh data in closed form *)

Section MeshData.
Context {num : Type} `{Number num}.

(** The position array of both solid variants. *)
Definition mesh_positions (uSeg vSeg : nat) : list num :=
  grid_layout uSeg vSeg
    (fun i j => entries3 (grid_vertex uSeg vSeg (literal 1.0) (literal 0.5) i j)).

(** The normal array before the accumulation. *)
Definition zero_normals (uSeg vSeg : nat) : list num :=
  grid_layout uSeg vSeg (fun _ _ => [literal 0.0; literal 0.0; literal 0.0]).

(** The normal array of the textured variant before its last loop. *)
Definition textured_accumulated (uSeg vSeg : nat) : list num :=
  snd (Textured.buildTriangles uSeg vSeg (mesh_positions uSeg vSeg)
         (zero_normals uSeg vSeg)).

Definition mesh_tangents (uSeg vSeg : nat) : list num :=
  grid_layout uSeg vSeg
    (fun i j => entries3 (grid_tangent uSeg vSeg (literal 1.0) (literal 0.5) i j)).

Definition mesh_texCoords (uSeg vSeg : nat) : list num :=
  grid_layout uSeg vSeg (fun i j => [grid_u uSeg i; grid_v vSeg j]).
End MeshData.

(** ** The specification's own definitions *)

(** The surface as the specification defines it, on real numbers:
    [rBase = |y| - h], [r = rBase^2 / (2p)], [x = r*cos(beta)],
    [z = r*sin(beta)], point [(x, y, z)]. *)
Definition surface_point (y beta h p : R) : R * R * R :=
  let rBase := (Rabs y - h)%R in
  let r := (rBase ^ 2 / (2 * p))%R in
  ((r * cos beta)%R, y, (r * sin beta)%R).

(** A point with real coordinates as a triple of numbers. *)
Definition Fin3 (pt : R * R * R) : xreal * xreal * xreal :=
  let '(x, y, z) := pt in (Fin x, Fin y, Fin z).

(** The fixed reorientation of the specification:
    [translate(0, 0, -10) * (rotate((0.707, 0.707, 0), 0.7) * view)]. *)
Definition reorientation {num mat : Type} `{Number num} `{M4 num mat}
    (view : mat) : mat :=
  multiply (translation (literal 0) (literal 0) (literal (-10)))
    (multiply
       (axisRotation (literal 0.707, literal 0.707, literal 0) (literal 0.7))
       view).

(** An argument that JavaScript treats as false in [arg || 40]. *)
Definition falsy (arg : option nat) : Prop := arg = None \/ arg = Some 0.

(** ** Lengths on exact reals *)

(** The Euclidean length of a vector of numbers, when its components are
    reals. *)
Definition euclidean_length (n : xreal * xreal * xreal) : option R :=
  match n with
  | (Fin a, Fin b, Fin c) => Some (sqrt (a * a + b * b + c * c))
  | _ => None
  end.

(** A vector whose Euclidean length is within [tol] of 1. *)
Definition unit_within (tol : R) (n : xreal * xreal * xreal) : Prop :=
  exists l : R, euclidean_length n = Some l /\ (Rabs (l - 1) <= tol)%R.

Definition zero_vector : xreal * xreal * xreal := (Fin 0, Fin 0, Fin 0).

(** [(nx / len, ny / len, nz / len)]. *)
Definition div3 {num : Type} `{Number num} (n : num * num * num) (len : num)
  : num * num * num :=
  let '(nx, ny, nz) := n in ((nx / len)%num, (ny / len)%num, (nz / len)%num).

(** ** What a face adds to its corners *)

(** The step from [normals] to [normals'] adds [n] to the normal of each of
    the corners [i0], [i1], [i2]. *)
Definition contributes {num : Type} `{Number num} (normals normals' : list num)
    (i0 i1 i2 : nat) (n : num * num * num) : Prop :=
  forall k, k = i0 \/ k = i1 \/ k = i2 ->
    triple_at normals' k = add3 (triple_at normals k) n.

(** Claim C5 as the specification states it, for triangle [t] of an index
    array: a face whose edge cross product is longer than 1e-6 adds that
    product divided by its length, and a face whose edge cross product has
    length 1e-6 or less adds the zero vector. *)
Definition degenerate_faces_add_zero (positions normals : list xreal)
    (indices : list nat) (t : nat) : Prop :=
  forall (i0 i1 i2 : nat) (l : R),
    triangle_at indices t = Some (i0, i1, i2) ->
    let cross := edgeCross positions (Some i0) (Some i1) (Some i2) in
    let normals' := Flat.accumulateFace positions indices (3 * t) normals in
    euclidean_length cross = Some l ->
    ((1 / 1000000 < l)%R ->
       contributes normals normals' i0 i1 i2 (div3 cross (Fin l)))
    /\ ((l <= 1 / 1000000)%R ->
          contributes normals normals' i0 i1 i2 zero_vector).

(** A thin triangle: corners (0,0,0), (0.001,0,0) and (0,0.0001,0). *)
Definition thin_positions : list xreal :=
  map literal [0; 0; 0; 0.001; 0; 0; 0; 0.0001; 0]%Q.

Definition thin_normals : list xreal :=
  map literal [0.0; 0.0; 0.0; 0.0; 0.0; 0.0; 0.0; 0.0; 0.0]%Q.

(** ** Tangents and degenerate faces *)

(** Vertex [k] is a corner of a face that the accumulation takes as
    degenerate: the length of its edge cross product is not above 1e-6. *)
Definition on_degenerate_face (positions : list xreal) (indices : list nat)
    (k : nat) : Prop :=
  exists t i0 i1 i2,
    triangle_at indices t = Some (i0, i1, i2)
    /\ (k = i0 \/ k = i1 \/ k = i2)
    /\ num_gt (hypot3 (edgeCross positions (Some i0) (Some i1) (Some i2)))
              (literal 1e-6) = false.

(** Claim C6 as the specification states it: every tangent of the mesh has
    unit length, those of the corners of degenerate faces apart. *)
Definition tangents_are_unit (uSeg vSeg : nat) : Prop :=
  let mesh := @Textured.CreateSurfaceData xreal _ (Some uSeg) (Some vSeg) in
  forall k, k < (uSeg + 1) * (vSeg + 1) ->
    unit_within (1 / 10000) (triple_at (Textured.tangents mesh) k)
    \/ on_degenerate_face (Textured.positions mesh) (Textured.indices mesh) k.

(** Row [j] and column [i] of the grid on real numbers, for the shape
    [h = 1], [p = 1/2] of the program. *)
Definition row_y (vSeg j : nat) : R := (-1 + 2 * (INR j / INR vSeg))%R.
Definition column_beta (uSeg i : nat) : R := (2 * PI * (INR i / INR uSeg))%R.
Definition row_radius (vSeg j : nat) : R :=
  ((Rabs (row_y vSeg j) - 1) ^ 2 / (2 * (1 / 2)))%R.

(** ** Definitions for the further properties *)

(** What the accumulation leaves at vertex [k], starting from [start]: the
    face normals of the triangles of the index array that have [k] as a
    corner, added one by one in the order of the array. *)
Definition incident_sum {num : Type} `{Number num} (positions : list num)
    (indices : list nat) (k : nat) (start : num * num * num)
  : num * num * num :=
  for_loop 0 (length indices / 3) (fun t acc =>
    match triangle_at indices t with
    | Some (i0, i1, i2) =>
        if (k =? i0) || (k =? i1) || (k =? i2)
        then add3 acc (faceNormal positions (Some i0) (Some i1) (Some i2))
        else acc
    | None => acc
    end) start.

(** The calls that draw. *)
Definition is_draw {num buffer uniform texture : Type}
    (c : gl_call num buffer uniform texture) : bool :=
  match c with
  | drawArrays _ _ _ => true
  | drawElements _ _ _ _ => true
  | _ => false
  end.

(** The call that draws the polyline of an info record. *)
Definition draw_line {num buffer uniform texture : Type}
    (info : @Wireframe.LineInfo num) : gl_call num buffer uniform texture :=
  drawArrays LINE_STRIP (Wireframe.offset info) (Wireframe.count info).

(** The number of vertices that lie before polyline [k] in the
    concatenation of the polylines. *)
Definition vertices_before {num : Type} (lines : list (list num)) (k : nat)
  : nat :=
  length (concat (firstn k lines)) / 3.

(** The part of a vertex array that a call [drawArrays(mode, first, count)]
    reads: [count] vertices from vertex [first] on. *)
Definition vertex_range {num : Type} (vertices : list num) (first count : nat)
  : list num :=
  firstn (3 * count) (skipn (3 * first) vertices).

(** The info record of polyline [k], when [before] vertices precede the
    polylines. *)
Definition line_info (before : nat) (lines : list (list xreal)) (k : nat)
  : @Wireframe.LineInfo xreal :=
  {| Wireframe.offset := Fin (INR (before + vertices_before lines k));
     Wireframe.count := Fin (INR (length (nth k lines []) / 3)) |}.

(** The height of row [j] and the angle of column [i], as the polyline
    loops of the wireframe variant compute them. *)
Definition line_y {num : Type} `{Number num} (h : num) (vSegments j : nat)
  : num :=
  (- h + (literal 2 * h * of_count j) / of_count vSegments)%num.
Definition line_beta {num : Type} `{Number num} (uSegments i : nat) : num :=
  ((literal 2 * Math_PI * of_count i) / of_count uSegments)%num.

(** The point [p + s * (q - p)] of the line through [p] and [q]. *)
Definition blend (s : R) (p q : R * R * R) : R * R * R :=
  let '(px, py, pz) := p in
  let '(qx, qy, qz) := q in
  ((px + s * (qx - px))%R, (py + s * (qy - py))%R, (pz + s * (qz - pz))%R).

(** A side of an image that [isPowerOf2] takes as a power of two: a power
    of two, or zero. *)
Definition power_of_two_or_zero (n : Z) : Prop :=
  n = 0%Z \/ exists k : Z, (0 <= k)%Z /\ n = (2 ^ k)%Z.
(** * Properties

    ** Loops and concatenations of equal chunks *)

Section LoopLemmas.
Context {St : Type}.

Lemma for_loop_empty (lo hi : nat) (body : nat -> St -> St) (s : St) :
  hi <= lo -> for_loop lo hi body s = s.
Proof.
  intros Hle. unfold for_loop.
  replace (hi - lo) with 0 by lia. reflexivity.
Qed.

Lemma for_loop_last (lo hi : nat) (body : nat -> St -> St) (s : St) :
  lo <= hi ->
  for_loop lo (hi + 1) body s = body hi (for_loop lo hi body s).
Proof.
  intros Hle. unfold for_loop.
  replace (hi + 1 - lo) with ((hi - lo) + 1) by lia.
  rewrite seq_app, fold_left_app. simpl.
  replace (lo + (hi - lo)) with hi by lia. reflexivity.
Qed.

(** The invariant rule for a counting loop. *)
Lemma for_loop_invariant (P : nat -> St -> Prop) (lo hi : nat)
    (body : nat -> St -> St) (s : St) :
  lo <= hi ->
  P lo s ->
  (forall j st, lo <= j < hi -> P j st -> P (j + 1) (body j st)) ->
  P hi (for_loop lo hi body s).
Proof.
  intros Hle Hinit Hstep.
  induction hi as [|hi IH].
  - replace lo with 0 in * by lia. exact Hinit.
  - destruct (Nat.eq_dec lo (S hi)) as [->|Hne].
    + rewrite for_loop_empty by lia. exact Hinit.
    + replace (S hi) with (hi + 1) by lia.
      rewrite for_loop_last by lia.
      apply Hstep; [lia|].
      apply IH; [lia|].
      intros j st Hj. apply Hstep. lia.
Qed.
End LoopLemmas.

Lemma for_loop_push {A : Type} (f : nat -> list A) (lo hi : nat) (init : list A) :
  for_loop lo hi (fun j acc => acc ++ f j) init
  = init ++ flat_map f (seq lo (hi - lo)).
Proof.
  unfold for_loop. generalize (seq lo (hi - lo)) as l. intros l. revert init.
  induction l as [|x l IH]; intros init; simpl.
  - now rewrite app_nil_r.
  - rewrite IH. now rewrite <- app_assoc.
Qed.

Lemma for_step3_multiple {St : Type} (n : nat) (body : nat -> St -> St) (s : St) :
  for_step3 (3 * n) body s = for_loop 0 n (fun k => body (3 * k)) s.
Proof.
  unfold for_step3. f_equal.
  replace (3 * n + 2) with (2 + n * 3) by lia.
  rewrite Nat.div_add by lia. reflexivity.
Qed.

Section ChunkLemmas.
Context {B : Type}.

Lemma length_flat_map_seq (f : nat -> list B) (c lo n : nat) :
  (forall x, length (f x) = c) ->
  length (flat_map f (seq lo n)) = c * n.
Proof.
  intros Hc. revert lo. induction n as [|n IH]; intros lo; simpl.
  - lia.
  - rewrite length_app, Hc, IH. lia.
Qed.

Lemma flat_map_seq_last (f : nat -> list B) (n : nat) :
  flat_map f (seq 0 (n + 1)) = flat_map f (seq 0 n) ++ f n.
Proof.
  rewrite seq_app, flat_map_app. simpl. now rewrite app_nil_r.
Qed.

(** Entry [r] of chunk [k] in a concatenation of chunks of equal size. *)
Lemma nth_flat_map_seq (f : nat -> list B) (c n k r : nat) (d : B) :
  (forall x, length (f x) = c) ->
  k < n -> r < c ->
  nth (c * k + r) (flat_map f (seq 0 n)) d = nth r (f k) d.
Proof.
  intros Hc. induction n as [|n IH]; intros Hk Hr; [lia|].
  replace (S n) with (n + 1) by lia.
  rewrite flat_map_seq_last.
  destruct (Nat.eq_dec k n) as [->|Hne].
  - rewrite app_nth2; rewrite (@length_flat_map_seq f c 0 n Hc); [|nia].
    f_equal. lia.
  - rewrite app_nth1; [apply IH; lia|].
    rewrite (@length_flat_map_seq f c 0 n Hc). nia.
Qed.

End ChunkLemmas.

Lemma for_loop_ext {St : Type} (lo hi : nat) (body body' : nat -> St -> St)
    (s : St) :
  (forall j st, lo <= j < hi -> body j st = body' j st) ->
  for_loop lo hi body s = for_loop lo hi body' s.
Proof.
  intros Hext.
  destruct (le_lt_dec lo hi) as [Hle|Hlt].
  - apply (for_loop_invariant
             (fun k st => st = for_loop lo k body' s) body s Hle).
    + now rewrite for_loop_empty.
    + intros j st Hj ->. rewrite for_loop_last by lia. now apply Hext.
  - now rewrite !for_loop_empty by lia.
Qed.

(** A component of the loop state that evolves on its own. *)
Lemma for_loop_project {St T : Type} (proj : St -> T) (lo hi : nat)
    (body : nat -> St -> St) (body' : nat -> T -> T) (s : St) :
  (forall j st, lo <= j < hi -> proj (body j st) = body' j (proj st)) ->
  proj (for_loop lo hi body s) = for_loop lo hi body' (proj s).
Proof.
  intros Hproj.
  destruct (le_lt_dec lo hi) as [Hle|Hlt].
  - apply (for_loop_invariant
             (fun k st => proj st = for_loop lo k body' (proj s)) body s Hle).
    + now rewrite for_loop_empty.
    + intros j st Hj Hst. rewrite for_loop_last by lia.
      now rewrite Hproj, Hst.
  - now rewrite !for_loop_empty by lia.
Qed.

(** ** A loop whose bound is read again at every test *)

Lemma for_loop_first {St : Type} (n : nat) (body : nat -> St -> St) (s : St) :
  for_loop 0 (S n) body s = for_loop 0 n (fun m => body (S m)) (body 0 s).
Proof.
  unfold for_loop. rewrite !Nat.sub_0_r. simpl.
  rewrite <- seq_shift. generalize (seq 0 n) as l. intros l.
  generalize (body 0 s) as s'. induction l as [|x l IH]; intros s'; simpl.
  - reflexivity.
  - apply IH.
Qed.

(** When the body moves the bound at most up to the end of the triple it
    works on, the loop runs over the triples of the initial bound, and any
    fuel of at least the distance to the bound is enough. *)
Lemma for_step3_while_for_loop {St : Type} (bound : St -> nat)
    (body : nat -> St -> St) :
  (forall k s, k < bound s -> bound (body k s) = Nat.max (bound s) (k + 3)) ->
  forall (fuel k : nat) (s : St),
    bound s - k <= fuel ->
    for_step3_while fuel bound body k s
    = for_loop 0 ((bound s - k + 2) / 3) (fun m => body (k + 3 * m)) s.
Proof.
  intros Hbound fuel.
  induction fuel as [|fuel IH]; intros k s Hfuel.
  - replace (bound s - k) with 0 by lia. reflexivity.
  - cbn [for_step3_while].
    destruct (Nat.ltb_spec k (bound s)) as [Hlt|Hge].
    + rewrite IH by (rewrite Hbound by exact Hlt; lia).
      rewrite (Hbound k s Hlt).
      replace ((bound s - k + 2) / 3)
        with (S ((Nat.max (bound s) (k + 3) - (k + 3) + 2) / 3)).
      * rewrite for_loop_first. rewrite Nat.mul_0_r, Nat.add_0_r.
        apply for_loop_ext. intros m st _. f_equal. lia.
      * destruct (Nat.le_gt_cases (k + 3) (bound s)) as [Hbig|Hsmall].
        -- replace (Nat.max (bound s) (k + 3) - (k + 3) + 2)
             with (bound s - (k + 3) + 2) by lia.
           replace (bound s - k + 2)
             with (bound s - (k + 3) + 2 + 1 * 3) by lia.
           rewrite Nat.div_add by lia. lia.
        -- replace (Nat.max (bound s) (k + 3) - (k + 3) + 2) with 2 by lia.
           assert (Hd : bound s - k + 2 = 3 \/ bound s - k + 2 = 4) by lia.
           destruct Hd as [-> | ->]; reflexivity.
    + replace (bound s - k) with 0 by lia. reflexivity.
Qed.

(** ** Nested loops and loops over pairs *)

Section LoopShapes.
Context {St : Type}.

Lemma for_loop_split (lo mid hi : nat) (body : nat -> St -> St) (s : St) :
  lo <= mid -> mid <= hi ->
  for_loop lo hi body s = for_loop mid hi body (for_loop lo mid body s).
Proof.
  intros H1 H2. unfold for_loop.
  replace (hi - lo) with ((mid - lo) + (hi - mid)) by lia.
  rewrite seq_app, fold_left_app.
  now replace (lo + (mid - lo)) with mid by lia.
Qed.

Lemma for_loop_shift (a n : nat) (body : nat -> St -> St) (s : St) :
  for_loop a (a + n) body s = for_loop 0 n (fun i => body (a + i)) s.
Proof.
  induction n as [|n IH].
  - now rewrite !for_loop_empty by lia.
  - replace (a + S n) with (a + n + 1) by lia.
    replace (S n) with (n + 1) by lia.
    rewrite !for_loop_last by lia. now rewrite IH.
Qed.

(** Two nested counting loops are one loop over the cells, row by row. *)
Lemma nested_loop_flatten (u v : nat) (body : nat -> St -> St) (s : St) :
  for_loop 0 v (fun j st => for_loop 0 u (fun i => body (j * u + i)) st) s
  = for_loop 0 (v * u) body s.
Proof.
  induction v as [|v IH].
  - reflexivity.
  - replace (S v) with (v + 1) by lia.
    rewrite for_loop_last by lia. rewrite IH.
    rewrite (@for_loop_split 0 (v * u) ((v + 1) * u)) by nia.
    replace ((v + 1) * u) with (v * u + u) by lia.
    now rewrite for_loop_shift.
Qed.

(** A loop over pairs of consecutive steps. *)
Lemma for_loop_pairs (n : nat) (body : nat -> St -> St) (s : St) :
  for_loop 0 (2 * n) body s
  = for_loop 0 n (fun q st => body (2 * q + 1) (body (2 * q) st)) s.
Proof.
  induction n as [|n IH].
  - reflexivity.
  - replace (2 * S n) with (2 * n + 1 + 1) by lia.
    replace (S n) with (n + 1) by lia.
    rewrite !for_loop_last by lia. now rewrite IH.
Qed.
End LoopShapes.

(** ** Arrays *)

Section ArrayLemmas.
Context {num : Type} `{Number num}.

Lemma length_set (a : list num) (k : nat) (v : num) :
  k < length a -> length (set a k v) = length a.
Proof.
  intros Hk. unfold set.
  destruct (Nat.ltb_spec k (length a)) as [_|Hge]; [|lia].
  rewrite length_app, length_firstn. cbn [length]. rewrite length_skipn. lia.
Qed.

Lemma get_set_same (a : list num) (k : nat) (v : num) :
  k < length a -> get (set a k v) k = v.
Proof.
  intros Hk. unfold get, set.
  destruct (Nat.ltb_spec k (length a)) as [_|Hge]; [|lia].
  rewrite app_nth2; rewrite length_firstn; [|lia].
  replace (k - Nat.min k (length a)) with 0 by lia. reflexivity.
Qed.

Lemma get_set_other (a : list num) (k k' : nat) (v : num) :
  k < length a -> k' <> k -> get (set a k v) k' = get a k'.
Proof.
  intros Hk Hne. unfold get, set.
  destruct (Nat.ltb_spec k (length a)) as [_|Hge]; [|lia].
  rewrite <- (firstn_skipn k a) at 3.
  destruct (Nat.lt_ge_cases k' k) as [Hlt|Hgt].
  - rewrite !app_nth1; rewrite ?length_firstn; try lia. reflexivity.
  - rewrite !app_nth2; rewrite ?length_firstn; try lia.
    replace (k' - Nat.min k (length a)) with (S (k' - S k)) by lia.
    cbn [nth]. rewrite !nth_skipn. f_equal. lia.
Qed.

(** Outside the array an assignment extends it: the new element is the
    last one. *)
Lemma length_set_outside (a : list num) (k : nat) (v : num) :
  length a <= k -> length (set a k v) = k + 1.
Proof.
  intros Hk. unfold set.
  destruct (Nat.ltb_spec k (length a)) as [Hlt|_]; [lia|].
  rewrite !length_app, repeat_length. simpl. lia.
Qed.
End ArrayLemmas.

(** ** The index array *)

Lemma buildIndices_flat_map (uSeg vSeg : nat) :
  Flat.buildIndices uSeg vSeg
  = flat_map (fun j => flat_map (quad_entries uSeg j) (seq 0 uSeg)) (seq 0 vSeg).
Proof.
  unfold Flat.buildIndices.
  rewrite for_loop_ext with
    (body' := fun j acc => acc ++ flat_map (quad_entries uSeg j) (seq 0 uSeg)).
  - rewrite for_loop_push. now rewrite Nat.sub_0_r.
  - intros j st _.
    rewrite for_loop_ext with (body' := fun i acc => acc ++ quad_entries uSeg j i).
    + rewrite for_loop_push. now rewrite Nat.sub_0_r.
    + intros i acc _. now rewrite <- app_assoc.
Qed.

Lemma length_quad_row (uSeg j : nat) :
  length (flat_map (quad_entries uSeg j) (seq 0 uSeg)) = 6 * uSeg.
Proof. now apply length_flat_map_seq. Qed.

Lemma length_buildIndices (uSeg vSeg : nat) :
  length (Flat.buildIndices uSeg vSeg) = 6 * (uSeg * vSeg).
Proof.
  rewrite buildIndices_flat_map.
  rewrite (@length_flat_map_seq _ _ (6 * uSeg)).
  - lia.
  - intros j. apply length_quad_row.
Qed.

(** Entry [r] of the quad of column [i] and row [j]. *)
Lemma nth_buildIndices (uSeg vSeg i j r d : nat) :
  i < uSeg -> j < vSeg -> r < 6 ->
  nth (6 * (j * uSeg + i) + r) (Flat.buildIndices uSeg vSeg) d
  = nth r (quad_entries uSeg j i) d.
Proof.
  intros Hi Hj Hr.
  rewrite buildIndices_flat_map.
  replace (6 * (j * uSeg + i) + r) with (6 * uSeg * j + (6 * i + r)) by lia.
  rewrite (@nth_flat_map_seq _ _ (6 * uSeg)); try lia.
  - now apply nth_flat_map_seq.
  - intros x. apply length_quad_row.
Qed.

Lemma nth_error_buildIndices (uSeg vSeg i j r : nat) :
  i < uSeg -> j < vSeg -> r < 6 ->
  nth_error (Flat.buildIndices uSeg vSeg) (6 * (j * uSeg + i) + r)
  = nth_error (quad_entries uSeg j i) r.
Proof.
  intros Hi Hj Hr.
  rewrite (nth_error_nth' _ 0).
  - rewrite nth_buildIndices by assumption.
    symmetry. now apply nth_error_nth'.
  - rewrite length_buildIndices. nia.
Qed.

Lemma buildIndices_triangles (uSeg vSeg i j : nat) :
  i < uSeg -> j < vSeg ->
  triangle_at (Flat.buildIndices uSeg vSeg) (2 * (j * uSeg + i))
  = Some (quad_i0 uSeg i j, quad_i2 uSeg i j, quad_i1 uSeg i j)
  /\ triangle_at (Flat.buildIndices uSeg vSeg) (2 * (j * uSeg + i) + 1)
     = Some (quad_i1 uSeg i j, quad_i2 uSeg i j, quad_i3 uSeg i j).
Proof.
  intros Hi Hj. unfold triangle_at.
  replace (3 * (2 * (j * uSeg + i))) with (6 * (j * uSeg + i) + 0) by lia.
  replace (3 * (2 * (j * uSeg + i) + 1)) with (6 * (j * uSeg + i) + 3) by lia.
  rewrite <- !Nat.add_assoc.
  rewrite !nth_error_buildIndices by (assumption || (simpl; lia)).
  split; reflexivity.
Qed.

Lemma buildIndices_bound (uSeg vSeg k : nat) :
  In k (Flat.buildIndices uSeg vSeg) -> k < (uSeg + 1) * (vSeg + 1).
Proof.
  rewrite buildIndices_flat_map.
  intros Hin.
  apply in_flat_map in Hin as (j & Hj & Hin).
  apply in_flat_map in Hin as (i & Hi & Hin).
  apply in_seq in Hj, Hi.
  unfold quad_entries, quad_i3, quad_i2, quad_i1, quad_i0 in Hin.
  simpl in Hin.
  decompose [or] Hin; subst; try contradiction; nia.
Qed.

(** ** The vertex arrays *)

Section GridLemmas.
Context {num : Type} `{Number num}.

(** Two nested loops that append one cell per iteration lay the cells out
    row by row. *)
Lemma nested_push {A : Type} (uSeg vSeg : nat) (cell : nat -> nat -> list A) :
  for_loop 0 (vSeg + 1) (fun j acc =>
    for_loop 0 (uSeg + 1) (fun i acc => acc ++ cell i j) acc) []
  = grid_layout uSeg vSeg cell.
Proof.
  unfold grid_layout.
  rewrite for_loop_ext with
    (body' := fun j acc => acc ++ flat_map (fun i => cell i j) (seq 0 (uSeg + 1))).
  - rewrite for_loop_push. now rewrite Nat.sub_0_r.
  - intros j st _. rewrite for_loop_push. now rewrite Nat.sub_0_r.
Qed.

Lemma length_grid_layout {A : Type} (uSeg vSeg c : nat)
    (cell : nat -> nat -> list A) :
  (forall i j, length (cell i j) = c) ->
  length (grid_layout uSeg vSeg cell) = c * ((uSeg + 1) * (vSeg + 1)).
Proof.
  intros Hc. unfold grid_layout.
  rewrite (@length_flat_map_seq _ _ (c * (uSeg + 1))).
  - lia.
  - intros j. now apply length_flat_map_seq.
Qed.

(** Entry [r] of the cell of column [i] and row [j]. *)
Lemma nth_grid_layout {A : Type} (uSeg vSeg c : nat)
    (cell : nat -> nat -> list A) (i j r : nat) (d : A) :
  (forall i j, length (cell i j) = c) ->
  i <= uSeg -> j <= vSeg -> r < c ->
  nth (c * (j * (uSeg + 1) + i) + r) (grid_layout uSeg vSeg cell) d
  = nth r (cell i j) d.
Proof.
  intros Hc Hi Hj Hr. unfold grid_layout.
  replace (c * (j * (uSeg + 1) + i) + r)
    with (c * (uSeg + 1) * j + (c * i + r)) by lia.
  rewrite (@nth_flat_map_seq _ _ (c * (uSeg + 1))); try lia.
  - rewrite (@nth_flat_map_seq _ (fun i => cell i j) c); auto; lia.
  - intros x. now apply length_flat_map_seq.
  - nia.
Qed.

Lemma length_entries3 (t : num * num * num) : length (entries3 t) = 3.
Proof. now destruct t as [[x y] z]. Qed.

Lemma buildGrid_positions (uSeg vSeg : nat) (h p : num) :
  fst (Flat.buildGrid uSeg vSeg h p)
  = grid_layout uSeg vSeg
      (fun i j => entries3 (grid_vertex uSeg vSeg h p i j)).
Proof.
  unfold Flat.buildGrid. rewrite <- nested_push.
  apply (for_loop_project fst).
  intros j [P N] _.
  apply (for_loop_project fst).
  intros i [P' N'] _. reflexivity.
Qed.

Lemma buildGrid_normals (uSeg vSeg : nat) (h p : num) :
  snd (Flat.buildGrid uSeg vSeg h p)
  = grid_layout uSeg vSeg
      (fun _ _ => [literal 0.0; literal 0.0; literal 0.0]).
Proof.
  unfold Flat.buildGrid. rewrite <- nested_push.
  apply (for_loop_project snd).
  intros j [P N] _.
  apply (for_loop_project snd).
  intros i [P' N'] _. reflexivity.
Qed.

Lemma buildVertices_positions (uSeg vSeg : nat) (h p : num) :
  (fun st => fst (fst (fst st))) (Textured.buildVertices uSeg vSeg h p)
  = grid_layout uSeg vSeg
      (fun i j => entries3 (grid_vertex uSeg vSeg h p i j)).
Proof.
  unfold Textured.buildVertices. rewrite <- nested_push.
  apply (for_loop_project (fun st => fst (fst (fst st)))).
  intros j st _.
  apply (for_loop_project (fun st => fst (fst (fst st)))).
  intros i [[[P N] T] X] _. reflexivity.
Qed.

Lemma buildVertices_normals (uSeg vSeg : nat) (h p : num) :
  (fun st => snd (fst (fst st))) (Textured.buildVertices uSeg vSeg h p)
  = grid_layout uSeg vSeg
      (fun _ _ => [literal 0.0; literal 0.0; literal 0.0]).
Proof.
  unfold Textured.buildVertices. rewrite <- nested_push.
  apply (for_loop_project (fun st => snd (fst (fst st)))).
  intros j st _.
  apply (for_loop_project (fun st => snd (fst (fst st)))).
  intros i [[[P N] T] X] _. reflexivity.
Qed.

Lemma buildVertices_tangents (uSeg vSeg : nat) (h p : num) :
  (fun st => snd (fst st)) (Textured.buildVertices uSeg vSeg h p)
  = grid_layout uSeg vSeg
      (fun i j => entries3 (grid_tangent uSeg vSeg h p i j)).
Proof.
  unfold Textured.buildVertices. rewrite <- nested_push.
  apply (for_loop_project (fun st => snd (fst st))).
  intros j st _.
  apply (for_loop_project (fun st => snd (fst st))).
  intros i [[[P N] T] X] _. reflexivity.
Qed.

Lemma buildVertices_texCoords (uSeg vSeg : nat) (h p : num) :
  snd (Textured.buildVertices uSeg vSeg h p)
  = grid_layout uSeg vSeg (fun i j => [grid_u uSeg i; grid_v vSeg j]).
Proof.
  unfold Textured.buildVertices. rewrite <- nested_push.
  apply (for_loop_project snd).
  intros j st _.
  apply (for_loop_project snd).
  intros i [[[P N] T] X] _. reflexivity.
Qed.

(** Reading vertex [j * (uSeg + 1) + i] of a grid of triples. *)
Lemma triple_at_grid_layout (uSeg vSeg : nat)
    (cell : nat -> nat -> num * num * num) (i j : nat) :
  i <= uSeg -> j <= vSeg ->
  triple_at (grid_layout uSeg vSeg (fun i j => entries3 (cell i j)))
            (j * (uSeg + 1) + i)
  = cell i j.
Proof.
  intros Hi Hj. unfold triple_at, get.
  rewrite <- (Nat.add_0_r (3 * (j * (uSeg + 1) + i))) at 1.
  rewrite !(@nth_grid_layout _ uSeg vSeg 3) by 
    (auto using length_entries3 || lia).
  now destruct (cell i j) as [[x y] z].
Qed.
End GridLemmas.

(** ** One step of the accumulation *)

Section DepositLemmas.
Context {num : Type} `{Number num}.

Lemma length_add_at (a : list num) (i : option nat) (c : nat) (v : num) :
  (forall k, i = Some k -> 3 * k + c < length a) ->
  length (add_at a i c v) = length a.
Proof.
  intros Hin. destruct i as [k|]; simpl; [|reflexivity].
  apply length_set. now apply Hin.
Qed.

Lemma get_add_at_same (a : list num) (k c : nat) (v : num) :
  3 * k + c < length a ->
  get (add_at a (Some k) c v) (3 * k + c) = (get a (3 * k + c) + v)%num.
Proof. intros Hin. simpl. now apply get_set_same. Qed.

Lemma get_add_at_other (a : list num) (i : option nat) (c m : nat) (v : num) :
  (forall k, i = Some k -> 3 * k + c < length a /\ m <> 3 * k + c) ->
  get (add_at a i c v) m = get a m.
Proof.
  intros Hin. destruct i as [k|]; simpl; [|reflexivity].
  destruct (Hin k eq_refl). now apply get_set_other.
Qed.

Lemma length_add_vertex (a : list num) (i : option nat) (n : num * num * num) :
  (forall k, i = Some k -> 3 * k + 2 < length a) ->
  length (add_vertex a i n) = length a.
Proof.
  intros Hin. destruct n as [[nx ny] nz]. unfold add_vertex.
  rewrite !length_add_at; try reflexivity;
    intros k Hk; specialize (Hin k Hk);
    rewrite ?length_add_at; try lia;
    intros k' Hk'; rewrite ?length_add_at; try lia;
    try (intros k'' Hk''); replace k' with k in * by congruence; try lia.
  replace k'' with k by congruence. lia.
Qed.

Lemma triple_at_add_vertex_same (a : list num) (k : nat) (n : num * num * num) :
  3 * k + 2 < length a ->
  triple_at (add_vertex a (Some k) n) k = add3 (triple_at a k) n.
Proof.
  intros Hin. destruct n as [[nx ny] nz].
  unfold add_vertex, triple_at, add3.
  assert (L1 : length (add_at a (Some k) 0 nx) = length a)
    by (apply length_add_at; intros ? [= <-]; lia).
  assert (L2 : length (add_at (add_at a (Some k) 0 nx) (Some k) 1 ny)
               = length a)
    by (rewrite length_add_at; [exact L1|]; intros ? [= <-]; lia).
  f_equal; [f_equal|].
  - replace (3 * k) with (3 * k + 0) by lia.
    rewrite 2 get_add_at_other by (intros ? [= <-]; lia).
    now rewrite get_add_at_same by lia.
  - rewrite get_add_at_other by (intros ? [= <-]; lia).
    rewrite get_add_at_same by lia.
    now rewrite get_add_at_other by (intros ? [= <-]; lia).
  - rewrite get_add_at_same by lia.
    now rewrite 2 get_add_at_other by (intros ? [= <-]; lia).
Qed.

Lemma get_add_vertex_other (a : list num) (i : option nat)
    (n : num * num * num) (m : nat) :
  (forall k, i = Some k -> 3 * k + 2 < length a /\ (m < 3 * k \/ 3 * k + 2 < m)) ->
  get (add_vertex a i n) m = get a m.
Proof.
  intros Hin. destruct n as [[nx ny] nz]. unfold add_vertex.
  destruct i as [k|]; [|reflexivity].
  destruct (Hin k eq_refl) as [Hk Hm].
  assert (L1 : length (add_at a (Some k) 0 nx) = length a)
    by (apply length_add_at; intros ? [= <-]; lia).
  assert (L2 : length (add_at (add_at a (Some k) 0 nx) (Some k) 1 ny)
               = length a)
    by (rewrite length_add_at; [exact L1|]; intros ? [= <-]; lia).
  now rewrite 3 get_add_at_other by (intros ? [= <-]; lia).
Qed.

Lemma triple_at_add_vertex_other (a : list num) (i : option nat)
    (n : num * num * num) (k : nat) :
  (forall k', i = Some k' -> 3 * k' + 2 < length a /\ k <> k') ->
  triple_at (add_vertex a i n) k = triple_at a k.
Proof.
  intros Hin. unfold triple_at.
  rewrite !get_add_vertex_other; try reflexivity;
    intros k' Hk'; destruct (Hin k' Hk'); lia.
Qed.

Lemma length_deposit (a : list num) (i0 i1 i2 : option nat)
    (n : num * num * num) :
  (forall k, i0 = Some k \/ i1 = Some k \/ i2 = Some k ->
             3 * k + 2 < length a) ->
  length (deposit a i0 i1 i2 n) = length a.
Proof.
  intros Hin. unfold deposit.
  rewrite !length_add_vertex; auto;
    intros k Hk; rewrite ?length_add_vertex; auto;
    intros k' Hk'; rewrite ?length_add_vertex; auto.
Qed.

(** A triangle with three different corners adds its normal once to each
    of them and leaves every other vertex as it was. *)
Lemma triple_at_deposit (a : list num) (i0 i1 i2 : nat)
    (n : num * num * num) (k : nat) :
  i0 <> i1 -> i0 <> i2 -> i1 <> i2 ->
  3 * i0 + 2 < length a -> 3 * i1 + 2 < length a -> 3 * i2 + 2 < length a ->
  triple_at (deposit a (Some i0) (Some i1) (Some i2) n) k
  = if (k =? i0) || (k =? i1) || (k =? i2)
    then add3 (triple_at a k) n else triple_at a k.
Proof.
  intros H01 H02 H12 L0 L1 L2. unfold deposit.
  assert (La : length (add_vertex a (Some i0) n) = length a)
    by (apply length_add_vertex; intros ? [= <-]; lia).
  assert (Lb : length (add_vertex (add_vertex a (Some i0) n) (Some i1) n)
               = length a)
    by (rewrite length_add_vertex; [exact La|]; intros ? [= <-]; lia).
  destruct (Nat.eqb_spec k i0) as [->|N0]; simpl.
  - rewrite 2 triple_at_add_vertex_other by (intros ? [= <-]; split; lia).
    now apply triple_at_add_vertex_same.
  - destruct (Nat.eqb_spec k i1) as [->|N1]; simpl.
    + rewrite triple_at_add_vertex_other by (intros ? [= <-]; split; lia).
      rewrite triple_at_add_vertex_same by lia.
      now rewrite triple_at_add_vertex_other by (intros ? [= <-]; split; lia).
    + destruct (Nat.eqb_spec k i2) as [->|N2]; simpl.
      * rewrite triple_at_add_vertex_same by lia.
        now rewrite 2 triple_at_add_vertex_other
          by (intros ? [= <-]; split; lia).
      * now rewrite 3 triple_at_add_vertex_other
          by (intros ? [= <-]; split; lia).
Qed.

Lemma accumulateFace_deposit (positions : list num) (indices : list nat)
    (t : nat) (normals : list num) :
  Flat.accumulateFace positions indices t normals
  = deposit normals (nth_error indices t) (nth_error indices (t + 1))
      (nth_error indices (t + 2))
      (faceNormal positions (nth_error indices t)
         (nth_error indices (t + 1)) (nth_error indices (t + 2))).
Proof.
  unfold Flat.accumulateFace, deposit, add_vertex, faceNormal, edgeCross,
    edge_cross, corner.
  now destruct (num_gt _ _).
Qed.

Lemma addFace_deposit (positions normals : list num) (i0 i1 i2 : nat) :
  Textured.addFace positions normals i0 i1 i2
  = deposit normals (Some i0) (Some i1) (Some i2)
      (faceNormal positions (Some i0) (Some i1) (Some i2)).
Proof.
  unfold Textured.addFace, deposit, add_vertex, faceNormal, edgeCross,
    edge_cross, corner, add_at, coord.
  rewrite !Nat.add_0_r.
  now destruct (num_gt _ _).
Qed.
End DepositLemmas.

(** ** Faces and their corners *)

Section FaceLemmas.
Context {num : Type} `{Number num}.

Lemma faceNormal_cases (positions : list num) (i0 i1 i2 : option nat) :
  faceNormal positions i0 i1 i2
  = let cross := edgeCross positions i0 i1 i2 in
    if num_gt (hypot3 cross) (literal 1e-6) then div3 cross (hypot3 cross)
    else cross.
Proof.
  unfold faceNormal.
  destruct (edgeCross positions i0 i1 i2) as [[nx ny] nz].
  reflexivity.
Qed.

Lemma triangle_at_nth_error (indices : list nat) (t i0 i1 i2 : nat) :
  triangle_at indices t = Some (i0, i1, i2) ->
  nth_error indices (3 * t) = Some i0
  /\ nth_error indices (3 * t + 1) = Some i1
  /\ nth_error indices (3 * t + 2) = Some i2.
Proof.
  unfold triangle_at.
  destruct (nth_error indices (3 * t)) as [a|]; [|discriminate].
  destruct (nth_error indices (3 * t + 1)) as [b|]; [|discriminate].
  destruct (nth_error indices (3 * t + 2)) as [c|]; [|discriminate].
  now intros [= -> -> ->].
Qed.

(** The step of the accumulation for a triangle with three different
    corners inside the normal array. *)
Lemma accumulateFace_triple (positions normals : list num)
    (indices : list nat) (t i0 i1 i2 k : nat) :
  triangle_at indices t = Some (i0, i1, i2) ->
  i0 <> i1 -> i0 <> i2 -> i1 <> i2 ->
  3 * i0 + 2 < length normals ->
  3 * i1 + 2 < length normals ->
  3 * i2 + 2 < length normals ->
  triple_at (Flat.accumulateFace positions indices (3 * t) normals) k
  = if (k =? i0) || (k =? i1) || (k =? i2)
    then add3 (triple_at normals k)
           (faceNormal positions (Some i0) (Some i1) (Some i2))
    else triple_at normals k.
Proof.
  intros Htri H01 H02 H12 L0 L1 L2.
  apply triangle_at_nth_error in Htri as (E0 & E1 & E2).
  rewrite accumulateFace_deposit, E0, E1, E2.
  now apply triple_at_deposit.
Qed.

Lemma accumulateFace_addFace (positions normals : list num)
    (indices : list nat) (t i0 i1 i2 : nat) :
  triangle_at indices t = Some (i0, i1, i2) ->
  Textured.addFace positions normals i0 i1 i2
  = Flat.accumulateFace positions indices (3 * t) normals.
Proof.
  intros Htri.
  apply triangle_at_nth_error in Htri as (E0 & E1 & E2).
  now rewrite accumulateFace_deposit, addFace_deposit, E0, E1, E2.
Qed.
End FaceLemmas.

(** Every triangle of the index array has three different corners, all of
    them vertices of the grid. *)
Lemma grid_triangle_corners (uSeg vSeg t : nat) :
  t < 2 * uSeg * vSeg ->
  exists i0 i1 i2,
    triangle_at (Flat.buildIndices uSeg vSeg) t = Some (i0, i1, i2)
    /\ i0 <> i1 /\ i0 <> i2 /\ i1 <> i2
    /\ i0 < (uSeg + 1) * (vSeg + 1)
    /\ i1 < (uSeg + 1) * (vSeg + 1)
    /\ i2 < (uSeg + 1) * (vSeg + 1).
Proof.
  intros Ht.
  assert (Hu : uSeg <> 0) by nia.
  set (q := t / 2).
  assert (Hq : q < uSeg * vSeg)
    by (apply Nat.Div0.div_lt_upper_bound; lia).
  set (i := q mod uSeg). set (j := q / uSeg).
  assert (Hi : i < uSeg) by (apply Nat.mod_upper_bound; exact Hu).
  assert (Hj : j < vSeg)
    by (apply Nat.Div0.div_lt_upper_bound; lia).
  assert (Eq : q = j * uSeg + i)
    by (unfold i, j; rewrite (Nat.div_mod_eq q uSeg) at 1; lia).
  destruct (buildIndices_triangles Hi Hj) as [T0 T1].
  rewrite <- Eq in T0, T1.
  assert (Et : t = 2 * q \/ t = 2 * q + 1).
  { unfold q. pose proof (Nat.div_mod_eq t 2) as E.
    pose proof (Nat.mod_upper_bound t 2). lia. }
  clearbody i j. clearbody q.
  unfold quad_i3, quad_i2, quad_i1, quad_i0 in *.
  destruct Et as [->| ->].
  - eexists _, _, _. split; [exact T0|]. repeat split; nia.
  - eexists _, _, _. split; [exact T1|]. repeat split; nia.
Qed.

Section EdgeCross.
Context {num : Type} `{Number num}.

Lemma edgeCross_triples (positions : list num) (i0 i1 i2 : nat) :
  edgeCross positions (Some i0) (Some i1) (Some i2)
  = edge_cross (triple_at positions i0) (triple_at positions i1)
      (triple_at positions i2).
Proof.
  unfold edgeCross, corner, triple_at, coord.
  now rewrite !Nat.add_0_r.
Qed.
End EdgeCross.

(** ** The accumulation loops keep the size of the normal array *)

Section AccumulateLemmas.
Context {num : Type} `{Number num}.

Lemma length_accumulateFace (positions : list num) (indices : list nat)
    (t : nat) (normals : list num) :
  (forall k, In k indices -> 3 * k + 2 < length normals) ->
  length (Flat.accumulateFace positions indices t normals) = length normals.
Proof.
  intros Hin. rewrite accumulateFace_deposit.
  apply length_deposit.
  intros k [Hk|[Hk|Hk]]; apply Hin; now apply nth_error_In in Hk.
Qed.

Lemma length_accumulateNormalsFromIndices (positions normals : list num)
    (indices : list nat) :
  (forall k, In k indices -> 3 * k + 2 < length normals) ->
  length (Flat.accumulateNormalsFromIndices positions normals indices)
  = length normals.
Proof.
  intros Hin. unfold Flat.accumulateNormalsFromIndices, for_step3.
  apply (for_loop_invariant (fun _ st => length st = length normals));
    [lia|reflexivity|].
  intros j st _ Hst.
  rewrite length_accumulateFace; [exact Hst|].
  intros k Hk. rewrite Hst. now apply Hin.
Qed.

Lemma length_addFace (positions normals : list num) (i0 i1 i2 : nat) :
  3 * i0 + 2 < length normals ->
  3 * i1 + 2 < length normals ->
  3 * i2 + 2 < length normals ->
  length (Textured.addFace positions normals i0 i1 i2) = length normals.
Proof.
  intros L0 L1 L2. rewrite addFace_deposit.
  apply length_deposit.
  intros k [[= <-]|[[= <-]|[= <-]]]; assumption.
Qed.

Lemma buildTriangles_indices (uSeg vSeg : nat) (positions normals : list num) :
  fst (Textured.buildTriangles uSeg vSeg positions normals)
  = Flat.buildIndices uSeg vSeg.
Proof.
  unfold Textured.buildTriangles, Flat.buildIndices.
  apply (for_loop_project fst).
  intros j st _.
  apply (for_loop_project fst).
  intros i [I N] _. reflexivity.
Qed.

Lemma length_buildTriangles_normals (uSeg vSeg : nat)
    (positions normals : list num) :
  length normals = 3 * ((uSeg + 1) * (vSeg + 1)) ->
  length (snd (Textured.buildTriangles uSeg vSeg positions normals))
  = length normals.
Proof.
  intros Hlen. unfold Textured.buildTriangles.
  apply (for_loop_invariant
           (fun _ st => length (snd st) = length normals));
    [lia|reflexivity|].
  intros j st Hj Hst.
  apply (for_loop_invariant
           (fun _ st => length (snd st) = length normals));
    [lia|exact Hst|].
  intros i [I N] Hi HN. simpl in *.
  rewrite !length_addFace; rewrite ?length_addFace; try exact HN;
    rewrite HN, Hlen; nia.
Qed.
End AccumulateLemmas.

(** ** The normalization loop *)

Section NormalizeLemmas.
Context {num : Type} `{Number num}.

Ltac set_len := first [ lia | rewrite length_set; [set_len | set_len] ].

Lemma normalizeAt_same : @Textured.normalizeAt num _ = @Flat.normalizeAt num _.
Proof. reflexivity. Qed.

Lemma length_normalizeAt (a : list num) (k : nat) :
  3 * k + 2 < length a ->
  length (Flat.normalizeAt (3 * k) a) = length a.
Proof.
  intros Hk. unfold Flat.normalizeAt.
  destruct (num_gt _ _); set_len.
Qed.

Lemma get_normalizeAt_other (a : list num) (k m : nat) :
  3 * k + 2 < length a ->
  m < 3 * k \/ 3 * k + 2 < m ->
  get (Flat.normalizeAt (3 * k) a) m = get a m.
Proof.
  intros Hk Hm. unfold Flat.normalizeAt.
  destruct (num_gt _ _); rewrite !get_set_other; try reflexivity; set_len.
Qed.

Lemma triple_at_normalizeAt_same (a : list num) (k : nat) :
  3 * k + 2 < length a ->
  triple_at (Flat.normalizeAt (3 * k) a) k = normalize3 (triple_at a k).
Proof.
  intros Hk. unfold Flat.normalizeAt, triple_at, normalize3.
  destruct (num_gt _ _).
  - f_equal; [f_equal|].
    + rewrite 2 get_set_other by set_len.
      now rewrite get_set_same by lia.
    + rewrite get_set_other by set_len.
      now rewrite get_set_same by set_len.
    + now rewrite get_set_same by set_len.
  - f_equal; [f_equal|].
    + rewrite 2 get_set_other by set_len.
      now rewrite get_set_same by lia.
    + rewrite get_set_other by set_len.
      now rewrite get_set_same by set_len.
    + now rewrite get_set_same by set_len.
Qed.

Lemma triple_at_normalizeAt_other (a : list num) (k k' : nat) :
  3 * k + 2 < length a -> k' <> k ->
  triple_at (Flat.normalizeAt (3 * k) a) k' = triple_at a k'.
Proof.
  intros Hk Hne. unfold triple_at.
  rewrite !get_normalizeAt_other; try reflexivity; lia.
Qed.

Lemma length_set_max (a : list num) (k : nat) (v : num) :
  length (set a k v) = Nat.max (length a) (k + 1).
Proof.
  destruct (Nat.lt_ge_cases k (length a)) as [Hlt|Hge].
  - rewrite length_set by exact Hlt. lia.
  - rewrite length_set_outside by exact Hge. lia.
Qed.

Lemma length_normalizeAt_max (a : list num) (k : nat) :
  k < length a ->
  length (Flat.normalizeAt k a) = Nat.max (length a) (k + 3).
Proof.
  intros Hk. unfold Flat.normalizeAt.
  destruct (num_gt _ _); rewrite !length_set_max; lia.
Qed.

(** The normalization loop runs over the triples of the array it is given;
    its fuel is enough, and more fuel changes nothing. *)
Lemma normalizeNormals_for_step3 (a : list num) :
  Flat.normalizeNormals a = for_step3 (length a) Flat.normalizeAt a
  /\ forall extra,
       for_step3_while (length a + extra) (@length num) Flat.normalizeAt 0 a
       = Flat.normalizeNormals a.
Proof.
  unfold Flat.normalizeNormals, for_step3.
  assert (Hrun : forall fuel, length a - 0 <= fuel ->
            for_step3_while fuel (@length num) Flat.normalizeAt 0 a
            = for_loop 0 ((length a + 2) / 3)
                (fun k => Flat.normalizeAt (3 * k)) a).
  { intros fuel Hfuel.
    rewrite (@for_step3_while_for_loop _ (@length num) Flat.normalizeAt
               (fun k s => @length_normalizeAt_max s k) fuel 0 a Hfuel).
    now rewrite Nat.sub_0_r. }
  split.
  - apply Hrun. lia.
  - intros extra. rewrite !Hrun by lia. reflexivity.
Qed.

(** On an array of [n] triples the loop replaces every triple by its
    normalization and nothing else. *)
Lemma normalizeNormals_triples (a : list num) (n : nat) :
  length a = 3 * n ->
  length (Flat.normalizeNormals a) = 3 * n
  /\ forall k, k < n ->
       triple_at (Flat.normalizeNormals a) k = normalize3 (triple_at a k).
Proof.
  intros Hlen. rewrite (proj1 (normalizeNormals_for_step3 a)).
  rewrite Hlen, for_step3_multiple.
  pose (P := fun (m : nat) (st : list num) =>
       length st = 3 * n
       /\ (forall k, k < m -> triple_at st k = normalize3 (triple_at a k))
       /\ (forall k, m <= k -> triple_at st k = triple_at a k)).
  assert (Inv : P n (for_loop 0 n (fun k => Flat.normalizeAt (3 * k)) a)).
  { apply (for_loop_invariant P); unfold P; [lia| |].
    - split; [exact Hlen|]. split; [lia|reflexivity].
    - intros j st Hj (HL & Hdone & Htodo).
      split; [|split].
      + rewrite length_normalizeAt; lia.
      + intros k Hk. destruct (Nat.eq_dec k j) as [->|Hne].
        * rewrite triple_at_normalizeAt_same by lia.
          now rewrite Htodo by lia.
        * rewrite triple_at_normalizeAt_other by lia.
          apply Hdone. lia.
      + intros k Hk.
        rewrite triple_at_normalizeAt_other by lia.
        apply Htodo. lia. }
  destruct Inv as (HL & Hdone & _). split; [exact HL|exact Hdone].
Qed.
End NormalizeLemmas.

(** ** The mesh data in closed form *)

Section SurfaceDataLemmas.
Context {num : Type} `{Number num}.

Lemma length_mesh_positions (uSeg vSeg : nat) :
  length (mesh_positions uSeg vSeg) = 3 * ((uSeg + 1) * (vSeg + 1)).
Proof.
  apply length_grid_layout. intros i j. apply length_entries3.
Qed.

Lemma length_zero_normals (uSeg vSeg : nat) :
  length (zero_normals uSeg vSeg) = 3 * ((uSeg + 1) * (vSeg + 1)).
Proof. now apply length_grid_layout. Qed.

Lemma indices_in_range (uSeg vSeg k : nat) :
  In k (Flat.buildIndices uSeg vSeg) ->
  3 * k + 2 < length (zero_normals uSeg vSeg).
Proof.
  intros Hin. apply buildIndices_bound in Hin.
  rewrite length_zero_normals. lia.
Qed.

Lemma Flat_CreateSurfaceData_unfold (uSeg vSeg : nat) :
  Flat.CreateSurfaceData (Some uSeg) (Some vSeg)
  = {| Flat.positions := mesh_positions uSeg vSeg;
       Flat.normals :=
         Flat.normalizeNormals
           (Flat.accumulateNormalsFromIndices (mesh_positions uSeg vSeg)
              (zero_normals uSeg vSeg) (Flat.buildIndices uSeg vSeg));
       Flat.indices := Flat.buildIndices uSeg vSeg |}.
Proof.
  unfold Flat.CreateSurfaceData, Flat.default_parameter.
  pose proof (buildGrid_positions uSeg vSeg (literal 1.0) (literal 0.5)) as HP.
  pose proof (buildGrid_normals uSeg vSeg (literal 1.0) (literal 0.5)) as HN.
  destruct (Flat.buildGrid uSeg vSeg (literal 1.0) (literal 0.5)) as [P N].
  cbn [fst snd] in HP, HN. subst P N. reflexivity.
Qed.

Lemma length_Flat_normals (uSeg vSeg : nat) :
  length (Flat.normals (Flat.CreateSurfaceData (Some uSeg) (Some vSeg)))
  = 3 * ((uSeg + 1) * (vSeg + 1)).
Proof.
  rewrite Flat_CreateSurfaceData_unfold. simpl.
  apply normalizeNormals_triples.
  rewrite length_accumulateNormalsFromIndices
    by (intros k; apply indices_in_range).
  apply length_zero_normals.
Qed.

Lemma Textured_CreateSurfaceData_unfold (a b : option nat) :
  let uSeg := Textured.or_default a 40 in
  let vSeg := Textured.or_default b 40 in
  Textured.CreateSurfaceData a b
  = {| Textured.positions := mesh_positions uSeg vSeg;
       Textured.normals :=
         Flat.normalizeNormals (textured_accumulated uSeg vSeg);
       Textured.tangents := mesh_tangents uSeg vSeg;
       Textured.texCoords := mesh_texCoords uSeg vSeg;
       Textured.indices := Flat.buildIndices uSeg vSeg |}.
Proof.
  intros uSeg vSeg.
  unfold Textured.CreateSurfaceData, textured_accumulated.
  fold uSeg vSeg.
  pose proof (buildVertices_positions uSeg vSeg (literal 1.0) (literal 0.5)) as HP.
  pose proof (buildVertices_normals uSeg vSeg (literal 1.0) (literal 0.5)) as HN.
  pose proof (buildVertices_tangents uSeg vSeg (literal 1.0) (literal 0.5)) as HT.
  pose proof (buildVertices_texCoords uSeg vSeg (literal 1.0) (literal 0.5)) as HX.
  destruct (Textured.buildVertices uSeg vSeg (literal 1.0) (literal 0.5))
    as [[[P N] T] X].
  cbn [fst snd] in HP, HN, HT, HX. subst P N T X.
  fold (mesh_positions uSeg vSeg) (zero_normals uSeg vSeg).
  pose proof (buildTriangles_indices uSeg vSeg (mesh_positions uSeg vSeg)
                (zero_normals uSeg vSeg)) as HI.
  destruct (Textured.buildTriangles uSeg vSeg (mesh_positions uSeg vSeg)
              (zero_normals uSeg vSeg)) as [I N'].
  cbn [fst snd] in HI |- *. subst I. reflexivity.
Qed.

Lemma length_textured_accumulated (uSeg vSeg : nat) :
  length (textured_accumulated uSeg vSeg) = 3 * ((uSeg + 1) * (vSeg + 1)).
Proof.
  unfold textured_accumulated.
  rewrite length_buildTriangles_normals; apply length_zero_normals.
Qed.
End SurfaceDataLemmas.

Lemma Textured_normals_unfold {num : Type} `{Number num} (uSeg vSeg : nat) :
  1 <= uSeg -> 1 <= vSeg ->
  Textured.normals (Textured.CreateSurfaceData (Some uSeg) (Some vSeg))
  = Flat.normalizeNormals (textured_accumulated uSeg vSeg).
Proof.
  intros Hu Hv.
  pose proof (@Textured_CreateSurfaceData_unfold num _ (Some uSeg)
                (Some vSeg)) as HT.
  cbv zeta in HT. unfold Textured.or_default in HT.
  destruct (Nat.eqb_spec uSeg 0) as [?|_]; [lia|].
  destruct (Nat.eqb_spec vSeg 0) as [?|_]; [lia|].
  now rewrite HT.
Qed.

Lemma triple_at_zero_normals {num : Type} `{Number num} (uSeg vSeg k : nat) :
  k < (uSeg + 1) * (vSeg + 1) ->
  triple_at (zero_normals uSeg vSeg) k
  = (literal 0.0, literal 0.0, literal 0.0).
Proof.
  intros Hk.
  assert (Ek : k = k / (uSeg + 1) * (uSeg + 1) + k mod (uSeg + 1))
    by (rewrite (Nat.div_mod_eq k (uSeg + 1)) at 1; lia).
  assert (Hi : k mod (uSeg + 1) <= uSeg)
    by (pose proof (Nat.mod_upper_bound k (uSeg + 1)); lia).
  assert (Hj : k / (uSeg + 1) <= vSeg).
  { apply Nat.lt_succ_r. apply Nat.Div0.div_lt_upper_bound. lia. }
  rewrite Ek.
  change (zero_normals uSeg vSeg)
    with (grid_layout uSeg vSeg
            (fun _ _ : nat =>
               entries3 (@literal num _ 0.0, @literal num _ 0.0,
                         @literal num _ 0.0))).
  now rewrite triple_at_grid_layout.
Qed.

(** ** The accumulation of the textured variant is that of the flat one *)

Section SameAccumulation.
Context {num : Type} `{Number num}.

(** The second loop of the textured variant leaves the normals that
    [accumulateNormalsFromIndices] leaves on the index array it builds. *)
Lemma buildTriangles_normals (uSeg vSeg : nat) (positions normals : list num) :
  snd (Textured.buildTriangles uSeg vSeg positions normals)
  = Flat.accumulateNormalsFromIndices positions normals
      (Flat.buildIndices uSeg vSeg).
Proof.
  unfold Flat.accumulateNormalsFromIndices.
  rewrite length_buildIndices.
  replace (6 * (uSeg * vSeg)) with (3 * (2 * (vSeg * uSeg))) by lia.
  rewrite for_step3_multiple, for_loop_pairs.
  rewrite <- (@nested_loop_flatten _ uSeg vSeg
                (fun q st =>
                   Flat.accumulateFace positions (Flat.buildIndices uSeg vSeg)
                     (3 * (2 * q + 1))
                     (Flat.accumulateFace positions
                        (Flat.buildIndices uSeg vSeg) (3 * (2 * q)) st))).
  unfold Textured.buildTriangles.
  rewrite (for_loop_project snd) with
    (body' := fun j st =>
       for_loop 0 uSeg (fun i st =>
         Textured.addFace positions
           (Textured.addFace positions st (quad_i0 uSeg i j)
              (quad_i2 uSeg i j) (quad_i1 uSeg i j))
           (quad_i1 uSeg i j) (quad_i2 uSeg i j) (quad_i3 uSeg i j)) st).
  - apply for_loop_ext. intros j st Hj.
    apply for_loop_ext. intros i st' Hi.
    destruct (@buildIndices_triangles uSeg vSeg i j) as [T0 T1]; try lia.
    now rewrite (@accumulateFace_addFace _ _ positions _ _ _ _ _ _ T0),
      (@accumulateFace_addFace _ _ positions _ _ _ _ _ _ T1).
  - intros j st _.
    apply (for_loop_project snd).
    intros i [I N] _. reflexivity.
Qed.

(** For a resolution of at least 1 by 1 the two solid variants build the
    same positions, normals and indices. *)
Lemma solid_variants_agree (uSeg vSeg : nat) :
  1 <= uSeg -> 1 <= vSeg ->
  let flat := Flat.CreateSurfaceData (Some uSeg) (Some vSeg) in
  let textured := Textured.CreateSurfaceData (Some uSeg) (Some vSeg) in
  Textured.positions textured = Flat.positions flat
  /\ Textured.normals textured = Flat.normals flat
  /\ Textured.indices textured = Flat.indices flat.
Proof.
  intros Hu Hv flat textured. subst flat textured.
  pose proof (@Textured_CreateSurfaceData_unfold num _ (Some uSeg)
                (Some vSeg)) as HT.
  cbv zeta in HT. unfold Textured.or_default in HT.
  destruct (Nat.eqb_spec uSeg 0) as [?|_]; [lia|].
  destruct (Nat.eqb_spec vSeg 0) as [?|_]; [lia|].
  rewrite HT, Flat_CreateSurfaceData_unfold.
  cbn [Textured.positions Textured.normals Textured.indices
       Flat.positions Flat.normals Flat.indices].
  unfold textured_accumulated. rewrite buildTriangles_normals.
  repeat split.
Qed.
End SameAccumulation.

(** ** The polylines of the wireframe variant *)

Section WireframeLemmas.
Context {num : Type} `{Number num}.

Lemma flat_map_singleton {A B : Type} (g : A -> B) (l : list A) :
  flat_map (fun x => [g x]) l = map g l.
Proof. induction l as [|x l IH]; simpl; congruence. Qed.

(** The U-polyline of row [j]. *)
Lemma generateULines_map (h p : num) (vSegments uSegments : nat) :
  Wireframe.generateULines h p vSegments uSegments
  = map (fun j =>
      flat_map (fun i =>
        entries3 (Wireframe.parabolicHummingTopVertex
          (- h + (literal 2 * h * of_count j) / of_count vSegments)%num
          ((literal 2 * Math_PI * of_count i) / of_count uSegments)%num h p))
        (seq 0 (uSegments + 1)))
      (seq 0 (vSegments + 1)).
Proof.
  unfold Wireframe.generateULines.
  rewrite <- flat_map_singleton.
  rewrite <- (Nat.sub_0_r (vSegments + 1)) at 2.
  rewrite <- (app_nil_l (flat_map _ _)), <- for_loop_push.
  apply for_loop_ext. intros j st _. do 2 f_equal.
  rewrite <- (Nat.sub_0_r (uSegments + 1)) at 2.
  rewrite <- (app_nil_l (flat_map _ _)), <- for_loop_push.
  reflexivity.
Qed.

(** The V-polyline of column [i]. *)
Lemma generateVLines_map (h p : num) (vSegments uSegments : nat) :
  Wireframe.generateVLines h p vSegments uSegments
  = map (fun i =>
      flat_map (fun j =>
        entries3 (Wireframe.parabolicHummingTopVertex
          (- h + (literal 2 * h * of_count j) / of_count vSegments)%num
          ((literal 2 * Math_PI * of_count i) / of_count uSegments)%num h p))
        (seq 0 (vSegments + 1)))
      (seq 0 (uSegments + 1)).
Proof.
  unfold Wireframe.generateVLines.
  rewrite <- flat_map_singleton.
  rewrite <- (Nat.sub_0_r (uSegments + 1)) at 2.
  rewrite <- (app_nil_l (flat_map _ _)), <- for_loop_push.
  apply for_loop_ext. intros i st _. do 2 f_equal.
  rewrite <- (Nat.sub_0_r (vSegments + 1)) at 2.
  rewrite <- (app_nil_l (flat_map _ _)), <- for_loop_push.
  reflexivity.
Qed.
End WireframeLemmas.

(** ** Exact real arithmetic *)

Lemma Q2R_0_0 : Q2R 0.0 = 0%R.
Proof. unfold Q2R. simpl. lra. Qed.

Lemma Q2R_1_0 : Q2R 1.0 = 1%R.
Proof. unfold Q2R. simpl. lra. Qed.

Lemma Q2R_2_0 : Q2R 2.0 = 2%R.
Proof. unfold Q2R. simpl. lra. Qed.

Lemma Q2R_0_5 : Q2R 0.5 = (1 / 2)%R.
Proof. unfold Q2R. simpl. lra. Qed.

Lemma Q2R_2 : Q2R 2 = 2%R.
Proof. unfold Q2R. simpl. lra. Qed.

Lemma Q2R_eps : Q2R 1e-6 = (1 / 1000000)%R.
Proof. unfold Q2R. simpl. lra. Qed.

Lemma xdiv_Fin (a b : R) : b <> 0%R -> xdiv (Fin a) (Fin b) = Fin (a / b).
Proof.
  intros Hb. unfold xdiv. now destruct (Req_dec_T b 0).
Qed.

Lemma xgt_true (x y : xreal) :
  xgt x y = true <-> exists a b, x = Fin a /\ y = Fin b /\ (b < a)%R.
Proof.
  split.
  - destruct x as [|a], y as [|b]; simpl; try discriminate.
    destruct (Rlt_dec b a); [|discriminate]. intros _. now exists a, b.
  - intros (a & b & -> & -> & Hlt). simpl. now destruct (Rlt_dec b a).
Qed.

Lemma xgt_false_Fin (a b : R) : xgt (Fin a) (Fin b) = false <-> (a <= b)%R.
Proof.
  simpl. destruct (Rlt_dec b a); split; intros; try lra; discriminate.
Qed.

Lemma sum_squares_nonneg (a b c : R) : (0 <= a * a + b * b + c * c)%R.
Proof. nra. Qed.

Lemma euclidean_length_Some (n : xreal * xreal * xreal) (l : R) :
  euclidean_length n = Some l ->
  exists a b c, n = (Fin a, Fin b, Fin c)
                /\ l = sqrt (a * a + b * b + c * c).
Proof.
  destruct n as [[[|a] [|b]] [|c]]; simpl; try discriminate.
  intros [= <-]. now exists a, b, c.
Qed.

(** Dividing a vector by its positive length gives a vector of length 1. *)
Lemma euclidean_length_div3 (a b c l : R) :
  l = sqrt (a * a + b * b + c * c) -> (0 < l)%R ->
  euclidean_length (div3 (Fin a, Fin b, Fin c) (Fin l)) = Some 1%R.
Proof.
  intros Hl Hpos. unfold div3. cbn [num_div RealNumber].
  rewrite !xdiv_Fin by lra. cbn [euclidean_length]. f_equal.
  assert (Hsq : (l * l = a * a + b * b + c * c)%R).
  { rewrite Hl. apply sqrt_sqrt. apply sum_squares_nonneg. }
  replace (a / l * (a / l) + b / l * (b / l) + c / l * (c / l))%R with 1%R.
  - apply sqrt_1.
  - rewrite <- (Rinv_r (l * l)) by nra. rewrite Hsq at 1. field. lra.
Qed.

(** The surface function on exact reals. *)
Lemma vertex_on_reals (y beta h p : R) :
  p <> 0%R ->
  Flat.parabolicHummingTopVertex (Fin y) (Fin beta) (Fin h) (Fin p)
  = Fin3 (surface_point y beta h p).
Proof.
  intros Hp. unfold Flat.parabolicHummingTopVertex, surface_point, Fin3.
  simpl. rewrite Q2R_2.
  destruct (Req_dec_T (2 * p) 0) as [H0|_]; [lra|].
  simpl. f_equal; [f_equal|]; f_equal; field; exact Hp.
Qed.

(** What a face adds, by the length of its edge cross product. *)
Lemma faceNormal_on_reals (positions : list xreal) (i0 i1 i2 : option nat)
    (l : R) :
  let cross := edgeCross positions i0 i1 i2 in
  euclidean_length cross = Some l ->
  ((1 / 1000000 < l)%R ->
     faceNormal positions i0 i1 i2 = div3 cross (Fin l))
  /\ ((l <= 1 / 1000000)%R -> faceNormal positions i0 i1 i2 = cross).
Proof.
  intros cross Hl. rewrite faceNormal_cases. fold cross.
  apply euclidean_length_Some in Hl as (a & b & c & Hc & Hl).
  cbv zeta. rewrite Hc.
  cbn [hypot3 Math_hypot num_gt literal RealNumber xhypot].
  rewrite <- Hl, Q2R_eps.
  split; intros Hcmp.
  - now rewrite (proj2 (xgt_true (Fin l) (Fin (1 / 1000000))))
      by (exists l, (1 / 1000000)%R; auto).
  - now rewrite (proj2 (xgt_false_Fin l (1 / 1000000))) by exact Hcmp.
Qed.

Lemma orb3_true (k i0 i1 i2 : nat) :
  k = i0 \/ k = i1 \/ k = i2 -> (k =? i0) || (k =? i1) || (k =? i2) = true.
Proof.
  intros [->|[->| ->]]; rewrite Nat.eqb_refl;
    rewrite ?orb_true_r, ?orb_true_l; reflexivity.
Qed.

Lemma orb3_false (k i0 i1 i2 : nat) :
  k <> i0 -> k <> i1 -> k <> i2 -> (k =? i0) || (k =? i1) || (k =? i2) = false.
Proof.
  intros H0 H1 H2.
  now rewrite (proj2 (Nat.eqb_neq k i0)), (proj2 (Nat.eqb_neq k i1)),
    (proj2 (Nat.eqb_neq k i2)).
Qed.

(** ** Normalization in rounded arithmetic *)

Section RealBounds.
Local Open Scope R_scope.

Lemma Rabs_le_bounds (a b : R) : Rabs a <= b -> - b <= a <= b.
Proof. unfold Rabs. destruct (Rcase_abs a); lra. Qed.

(** A rounded quotient against the exact one, in squares. *)
Lemma rounded_square (u q x : R) :
  0 <= u <= 1 / 100000 ->
  Rabs (q - x) <= u * Rabs x ->
  (1 - u) * (1 - u) * (x * x) <= q * q
  /\ q * q <= (1 + u) * (1 + u) * (x * x).
Proof.
  intros Hu Hq. apply Rabs_le_bounds in Hq.
  unfold Rabs in Hq. destruct (Rcase_abs x) as [Hx|Hx].
  - assert (0 <= (q - (1 + u) * x) * - (q + (1 + u) * x))
      by (apply Rmult_le_pos; nra).
    assert (0 <= - (q - (1 - u) * x) * - (q + (1 - u) * x))
      by (apply Rmult_le_pos; nra).
    split; nra.
  - assert (0 <= ((1 + u) * x - q) * (q + (1 + u) * x))
      by (apply Rmult_le_pos; nra).
    assert (0 <= (q - (1 - u) * x) * (q + (1 - u) * x))
      by (apply Rmult_le_pos; nra).
    split; nra.
Qed.

(** Dividing a vector by its rounded length, with rounded divisions, gives
    a vector whose length is within 1e-4 of 1. *)
Lemma rounded_normalization (u a b c l q1 q2 q3 : R) :
  0 <= u <= 1 / 100000 ->
  0 < l ->
  Rabs (l - sqrt (a * a + b * b + c * c)) <= u * sqrt (a * a + b * b + c * c) ->
  Rabs (q1 - a / l) <= u * Rabs (a / l) ->
  Rabs (q2 - b / l) <= u * Rabs (b / l) ->
  Rabs (q3 - c / l) <= u * Rabs (c / l) ->
  Rabs (sqrt (q1 * q1 + q2 * q2 + q3 * q3) - 1) <= 1 / 10000.
Proof.
  intros Hu Hl Hlen H1 H2 H3.
  set (s := sqrt (a * a + b * b + c * c)) in *.
  assert (Hs2 : s * s = a * a + b * b + c * c) by (apply sqrt_sqrt; nra).
  assert (Hs0 : 0 <= s) by apply sqrt_pos.
  assert (Hls : (1 - u) * s <= l <= (1 + u) * s).
  { apply Rabs_le_bounds in Hlen. lra. }
  assert (Hs : 0 < s) by nra.
  set (x1 := a / l) in *. set (x2 := b / l) in *. set (x3 := c / l) in *.
  assert (E1 : x1 * l = a) by (unfold x1; field; lra).
  assert (E2 : x2 * l = b) by (unfold x2; field; lra).
  assert (E3 : x3 * l = c) by (unfold x3; field; lra).
  set (X := x1 * x1 + x2 * x2 + x3 * x3).
  assert (HX : X * (l * l) = s * s).
  { rewrite Hs2, <- E1, <- E2, <- E3. unfold X. ring. }
  assert (HX0 : 0 <= X) by (unfold X; nra).
  assert (HXup : X * ((1 - u) * (1 - u)) <= 1).
  { assert (Hsq : (1 - u) * s * ((1 - u) * s) <= l * l)
      by (apply Rmult_le_compat; nra).
    assert (X * ((1 - u) * (1 - u)) * (s * s) <= 1 * (s * s)) by nra.
    apply (Rmult_le_reg_r (s * s)); nra. }
  assert (HXlo : 1 <= X * ((1 + u) * (1 + u))).
  { assert (Hsq : l * l <= (1 + u) * s * ((1 + u) * s))
      by (apply Rmult_le_compat; nra).
    assert (1 * (s * s) <= X * ((1 + u) * (1 + u)) * (s * s)) by nra.
    apply (Rmult_le_reg_r (s * s)); nra. }
  destruct (@rounded_square u q1 x1 Hu H1) as [L1 U1].
  destruct (@rounded_square u q2 x2 Hu H2) as [L2 U2].
  destruct (@rounded_square u q3 x3 Hu H3) as [L3 U3].
  set (Q := q1 * q1 + q2 * q2 + q3 * q3).
  assert (HQlo : (1 - u) * (1 - u) * X <= Q) by (unfold Q, X; lra).
  assert (HQup : Q <= (1 + u) * (1 + u) * X) by (unfold Q, X; lra).
  assert (HQ0 : 0 <= Q) by (unfold Q; nra).
  set (lo := 1 - 1 / 10000). set (hi := 1 + 1 / 10000).
  assert (Hlo : lo * lo <= Q).
  { assert (lo * lo * ((1 + u) * (1 + u)) <= (1 - u) * (1 - u))
      by (unfold lo; nra).
    assert (lo * lo * ((1 + u) * (1 + u)) <= Q * ((1 + u) * (1 + u))) by nra.
    apply (Rmult_le_reg_r ((1 + u) * (1 + u))); nra. }
  assert (Hhi : Q <= hi * hi).
  { assert ((1 + u) * (1 + u) <= hi * hi * ((1 - u) * (1 - u)))
      by (unfold hi; nra).
    assert (Q * ((1 - u) * (1 - u)) <= hi * hi * ((1 - u) * (1 - u))) by nra.
    apply (Rmult_le_reg_r ((1 - u) * (1 - u))); nra. }
  assert (Slo : lo <= sqrt Q).
  { rewrite <- (sqrt_square lo) by (unfold lo; lra). now apply sqrt_le_1_alt. }
  assert (Shi : sqrt Q <= hi).
  { rewrite <- (sqrt_square hi) by (unfold hi; lra). now apply sqrt_le_1_alt. }
  apply Rabs_le. unfold lo, hi in *. lra.
Qed.
End RealBounds.

Section RoundedNormalize.
Context {num : Type} `{Rounded num}.

(** The last loop of the geometry pass leaves a vector of length within
    1e-4 of 1, or the fallback. *)
Lemma normalize3_rounded (n : num * num * num) :
  has_unit_length (1 / 10000) (normalize3 n) \/ normalize3 n = fallback.
Proof.
  destruct n as [[nx ny] nz]. unfold normalize3.
  destruct (num_gt (Math_hypot nx ny nz) (literal 1e-6)) eqn:Hgt;
    [left|now right].
  apply gt_value in Hgt as (l & e & Hlen & He & Hlt).
  apply threshold_value in He.
  destruct (hypot_value _ _ _ Hlen) as (a & b & c & Ha & Hb & Hc & Hacc).
  assert (Hl : l <> 0%R) by lra.
  destruct (div_value _ _ Ha Hlen Hl) as (q1 & Hq1 & A1).
  destruct (div_value _ _ Hb Hlen Hl) as (q2 & Hq2 & A2).
  destruct (div_value _ _ Hc Hlen Hl) as (q3 & Hq3 & A3).
  exists (sqrt (q1 * q1 + q2 * q2 + q3 * q3)). split.
  - unfold vector_length. now rewrite Hq1, Hq2, Hq3.
  - apply (@rounded_normalization roundoff a b c l q1 q2 q3);
      try assumption; [apply roundoff_small|lra].
Qed.
End RoundedNormalize.

(** ** Exact reals as an instance of rounded arithmetic *)

(** Exact real arithmetic is rounded arithmetic without rounding. *)
Lemma exact_threshold_value (e : R) :
  xreal_value (literal 1e-6) = Some e -> (0 < e)%R.
Proof.
  simpl. intros [= <-]. rewrite Q2R_eps. lra.
Qed.

Lemma exact_hypot_value (x y z : xreal) (l : R) :
  xreal_value (xhypot x y z) = Some l ->
  exists a b c,
    xreal_value x = Some a /\ xreal_value y = Some b /\ xreal_value z = Some c
    /\ (Rabs (l - sqrt (a * a + b * b + c * c))
        <= 0 * sqrt (a * a + b * b + c * c))%R.
Proof.
  destruct x as [|a], y as [|b], z as [|c]; simpl; try discriminate.
  intros [= <-]. exists a, b, c. repeat split.
  replace (sqrt (a * a + b * b + c * c) - sqrt (a * a + b * b + c * c))%R
    with 0%R by ring.
  rewrite Rabs_R0. lra.
Qed.

Lemma exact_gt_value (x y : xreal) :
  xgt x y = true ->
  exists a b, xreal_value x = Some a /\ xreal_value y = Some b /\ (b < a)%R.
Proof.
  intros Hgt. apply xgt_true in Hgt as (a & b & -> & -> & Hlt).
  now exists a, b.
Qed.

Lemma exact_div_value (x y : xreal) (a b : R) :
  xreal_value x = Some a -> xreal_value y = Some b -> b <> 0%R ->
  exists q, xreal_value (xdiv x y) = Some q
            /\ (Rabs (q - a / b) <= 0 * Rabs (a / b))%R.
Proof.
  destruct x as [|a'], y as [|b']; simpl; try discriminate.
  intros [= ->] [= ->] Hb. exists (a / b)%R.
  destruct (Req_dec_T b 0) as [E|_]; [contradiction|]. split; [reflexivity|].
  replace (a / b - a / b)%R with 0%R by ring. rewrite Rabs_R0. lra.
Qed.

Lemma exact_roundoff_small : (0 <= 0 <= 1 / 100000)%R.
Proof. lra. Qed.

#[global] Instance ExactReals : Rounded xreal := {|
  value := xreal_value;
  roundoff := 0%R;
  roundoff_small := exact_roundoff_small;
  threshold_value := exact_threshold_value;
  gt_value := exact_gt_value;
  hypot_value := exact_hypot_value;
  div_value := exact_div_value
|}.

(** ** The grid on exact reals *)

Lemma INR_nonzero (n : nat) : 1 <= n -> INR n <> 0%R.
Proof. intros Hn. apply not_0_INR. lia. Qed.

Lemma grid_y_on_reals (vSeg j : nat) :
  1 <= vSeg -> grid_y vSeg (literal 1.0) j = Fin (row_y vSeg j).
Proof.
  intros Hv. unfold grid_y, grid_v, row_y.
  cbn [num_add num_neg num_mul num_div literal of_count RealNumber].
  rewrite xdiv_Fin by now apply INR_nonzero.
  cbn [xlift1 xlift2]. rewrite Q2R_1_0, Q2R_2_0. f_equal. ring.
Qed.

Lemma grid_beta_on_reals (uSeg i : nat) :
  1 <= uSeg -> grid_beta uSeg i = Fin (column_beta uSeg i).
Proof.
  intros Hu. unfold grid_beta, grid_u, column_beta.
  cbn [num_mul num_div literal of_count Math_PI RealNumber].
  rewrite xdiv_Fin by now apply INR_nonzero.
  cbn [xlift2]. now rewrite Q2R_2_0.
Qed.

Lemma grid_vertex_on_reals (uSeg vSeg i j : nat) :
  1 <= uSeg -> 1 <= vSeg ->
  grid_vertex uSeg vSeg (literal 1.0) (literal 0.5) i j
  = (Fin (row_radius vSeg j * cos (column_beta uSeg i)),
     Fin (row_y vSeg j),
     Fin (row_radius vSeg j * sin (column_beta uSeg i))).
Proof.
  intros Hu Hv. unfold grid_vertex.
  rewrite grid_y_on_reals, grid_beta_on_reals by assumption.
  cbn [literal RealNumber]. rewrite Q2R_1_0, Q2R_0_5.
  rewrite vertex_on_reals by lra. reflexivity.
Qed.

Lemma grid_tangent_on_reals (uSeg vSeg i j : nat) :
  1 <= uSeg -> 1 <= vSeg ->
  grid_tangent uSeg vSeg (literal 1.0) (literal 0.5) i j
  = (Fin (- row_radius vSeg j * sin (column_beta uSeg i)),
     Fin 0,
     Fin (row_radius vSeg j * cos (column_beta uSeg i))).
Proof.
  intros Hu Hv. unfold grid_tangent.
  rewrite grid_y_on_reals, grid_beta_on_reals by assumption.
  cbn [num_add num_sub num_neg num_mul num_div literal Math_abs Math_sin
       Math_cos RealNumber xlift1 xlift2].
  rewrite Q2R_1_0, Q2R_0_5, Q2R_2, Q2R_0_0.
  rewrite xdiv_Fin by lra. cbn [xlift1 xlift2].
  unfold row_radius. f_equal; [f_equal|]; f_equal; field.
Qed.

Lemma row_y_bounds (vSeg j : nat) :
  1 <= vSeg -> j <= vSeg -> (-1 <= row_y vSeg j <= 1)%R.
Proof.
  intros Hv Hj. unfold row_y.
  assert (H0 : (0 < INR vSeg)%R) by (apply lt_0_INR; lia).
  assert (H1 : (0 <= INR j)%R) by apply pos_INR.
  assert (H2 : (INR j <= INR vSeg)%R) by now apply le_INR.
  assert (H3 : (0 <= INR j / INR vSeg <= 1)%R).
  { split.
    - apply Rmult_le_pos; [exact H1|]. left. now apply Rinv_0_lt_compat.
    - apply (Rmult_le_reg_r (INR vSeg)); [exact H0|].
      unfold Rdiv. rewrite Rmult_assoc, Rinv_l by lra. lra. }
  lra.
Qed.

Lemma row_radius_square (vSeg j : nat) :
  row_radius vSeg j = ((1 - Rabs (row_y vSeg j)) ^ 2)%R.
Proof. unfold row_radius. field. Qed.

Lemma row_radius_bounds (vSeg j : nat) :
  1 <= vSeg -> j <= vSeg -> (0 <= row_radius vSeg j <= 1)%R.
Proof.
  intros Hv Hj. rewrite row_radius_square.
  pose proof (row_y_bounds Hv Hj) as Hy.
  assert (Ha : (0 <= Rabs (row_y vSeg j) <= 1)%R).
  { split; [apply Rabs_pos|]. apply Rabs_le. lra. }
  nra.
Qed.

(** The tangent has the length of the radius of its row. *)
Lemma tangent_length_on_reals (r beta : R) :
  (0 <= r)%R ->
  euclidean_length (Fin (- r * sin beta), Fin 0, Fin (r * cos beta)) = Some r.
Proof.
  intros Hr. simpl. f_equal.
  replace (- r * sin beta * (- r * sin beta) + 0 * 0
           + r * cos beta * (r * cos beta))%R
    with (r * r * (Rsqr (sin beta) + Rsqr (cos beta)))%R
    by (unfold Rsqr; ring).
  rewrite sin2_cos2, Rmult_1_r. now apply sqrt_square.
Qed.

Lemma INR_eq_double (j v : nat) : (2 * INR j = INR v)%R <-> 2 * j = v.
Proof.
  replace (2 * INR j)%R with (INR (2 * j)).
  - split; [apply INR_eq|now intros ->].
  - rewrite mult_INR. simpl. ring.
Qed.

Lemma row_radius_one (vSeg j : nat) :
  1 <= vSeg -> j <= vSeg -> row_radius vSeg j = 1%R <-> 2 * j = vSeg.
Proof.
  intros Hv Hj. rewrite row_radius_square.
  pose proof (row_y_bounds Hv Hj) as Hy.
  assert (Hpos : (0 < INR vSeg)%R) by (apply lt_0_INR; lia).
  assert (Hrow : (row_y vSeg j * INR vSeg = 2 * INR j - INR vSeg)%R)
    by (unfold row_y; field; lra).
  rewrite <- INR_eq_double.
  split.
  - intros Hr.
    assert (Ha : (0 <= Rabs (row_y vSeg j) <= 1)%R)
      by (split; [apply Rabs_pos|apply Rabs_le; lra]).
    assert (Hz : Rabs (row_y vSeg j) = 0%R) by nra.
    assert (Hy0 : row_y vSeg j = 0%R).
    { destruct (Req_dec (row_y vSeg j) 0) as [E|E]; [exact E|].
      apply Rabs_no_R0 in E. contradiction. }
    rewrite Hy0 in Hrow. lra.
  - intros Hd.
    assert (Hy0 : row_y vSeg j = 0%R) by nra.
    rewrite Hy0, Rabs_R0. ring.
Qed.

(** The tangent of column [i] and row [j] in the mesh data. *)
Lemma tangent_at_grid (uSeg vSeg i j : nat) :
  1 <= uSeg -> 1 <= vSeg -> i <= uSeg -> j <= vSeg ->
  triple_at
    (Textured.tangents
       (@Textured.CreateSurfaceData xreal _ (Some uSeg) (Some vSeg)))
    (j * (uSeg + 1) + i)
  = (Fin (- row_radius vSeg j * sin (column_beta uSeg i)),
     Fin 0,
     Fin (row_radius vSeg j * cos (column_beta uSeg i))).
Proof.
  intros Hu Hv Hi Hj.
  pose proof (@Textured_CreateSurfaceData_unfold xreal _ (Some uSeg)
                (Some vSeg)) as HT.
  cbv zeta in HT. unfold Textured.or_default in HT.
  destruct (Nat.eqb_spec uSeg 0) as [?|_]; [lia|].
  destruct (Nat.eqb_spec vSeg 0) as [?|_]; [lia|].
  rewrite HT. cbn [Textured.tangents]. unfold mesh_tangents.
  rewrite triple_at_grid_layout by assumption.
  now apply grid_tangent_on_reals.
Qed.

(** The position of column [i] and row [j] in the mesh data. *)
Lemma position_at_grid (uSeg vSeg i j : nat) :
  1 <= uSeg -> 1 <= vSeg -> i <= uSeg -> j <= vSeg ->
  triple_at
    (Textured.positions
       (@Textured.CreateSurfaceData xreal _ (Some uSeg) (Some vSeg)))
    (j * (uSeg + 1) + i)
  = (Fin (row_radius vSeg j * cos (column_beta uSeg i)),
     Fin (row_y vSeg j),
     Fin (row_radius vSeg j * sin (column_beta uSeg i))).
Proof.
  intros Hu Hv Hi Hj.
  pose proof (@Textured_CreateSurfaceData_unfold xreal _ (Some uSeg)
                (Some vSeg)) as HT.
  cbv zeta in HT. unfold Textured.or_default in HT.
  destruct (Nat.eqb_spec uSeg 0) as [?|_]; [lia|].
  destruct (Nat.eqb_spec vSeg 0) as [?|_]; [lia|].
  rewrite HT. cbn [Textured.positions]. unfold mesh_positions.
  rewrite triple_at_grid_layout by assumption.
  now apply grid_vertex_on_reals.
Qed.

(** The position of column [i] and row [j] in the position array of the
    solid variants. *)
Lemma mesh_position_at (uSeg vSeg i j : nat) :
  1 <= uSeg -> 1 <= vSeg -> i <= uSeg -> j <= vSeg ->
  triple_at (@mesh_positions xreal _ uSeg vSeg) (j * (uSeg + 1) + i)
  = (Fin (row_radius vSeg j * cos (column_beta uSeg i)),
     Fin (row_y vSeg j),
     Fin (row_radius vSeg j * sin (column_beta uSeg i))).
Proof.
  intros Hu Hv Hi Hj. unfold mesh_positions.
  rewrite triple_at_grid_layout by assumption.
  now apply grid_vertex_on_reals.
Qed.

(** ** Small evaluations *)

Example buildIndices_1_1 : Flat.buildIndices 1 1 = [0; 2; 1; 1; 2; 3].
Proof. reflexivity. Qed.

Example buildIndices_2_1 :
  Flat.buildIndices 2 1 = [0; 3; 1; 1; 3; 4; 1; 4; 2; 2; 4; 5].
Proof. reflexivity. Qed.

Example buildIndices_0_3 : Flat.buildIndices 0 3 = [].
Proof. reflexivity. Qed.

Example triangle_at_4_2 :
  triangle_at (Flat.buildIndices 4 2) 15 = Some (9, 13, 14)
  /\ triangle_at (Flat.buildIndices 4 2) 16 = None.
Proof. split; reflexivity. Qed.

Example or_default_values :
  Textured.or_default None 40 = 40
  /\ Textured.or_default (Some 0) 40 = 40
  /\ Textured.or_default (Some 7) 40 = 7.
Proof. repeat split. Qed.

Example default_parameter_values :
  Flat.default_parameter None 40 = 40
  /\ Flat.default_parameter (Some 0) 40 = 0
  /\ Flat.default_parameter (Some 7) 40 = 7.
Proof. repeat split. Qed.

(** A write inside the array replaces an element; a write outside extends
    the array over holes. *)
Example set_inside_and_outside :
  set [Fin 1; Fin 2; Fin 3] 1 (Fin 9) = [Fin 1; Fin 9; Fin 3]
  /\ set [Fin 1] 3 (Fin 9) = [Fin 1; RNaN; RNaN; Fin 9]
  /\ get [Fin 1] 3 = RNaN.
Proof. repeat split. Qed.

(** A normal of length 5 is divided by 5; a normal of length 0 and a normal
    that is not a number give the fallback. *)
Example normalize3_values :
  normalize3 (Fin 3, Fin 0, Fin 4) = (Fin (3 / 5), Fin (0 / 5), Fin (4 / 5))
  /\ normalize3 (Fin 0, Fin 0, Fin 0) = fallback
  /\ normalize3 (RNaN, Fin 0, Fin 1) = fallback.
Proof.
  assert (H5 : sqrt (3 * 3 + 0 * 0 + 4 * 4) = 5%R)
    by (apply sqrt_lem_1; lra).
  assert (H0 : sqrt (0 * 0 + 0 * 0 + 0 * 0) = 0%R)
    by (apply sqrt_lem_1; lra).
  unfold normalize3, fallback.
  cbn [num_gt Math_hypot literal num_div RealNumber xhypot].
  rewrite H5, H0, Q2R_eps.
  rewrite (proj2 (xgt_true (Fin 5) (Fin (1 / 1000000))))
    by (exists 5%R, (1 / 1000000)%R; repeat split; lra).
  rewrite (proj2 (xgt_false_Fin 0 (1 / 1000000))) by lra.
  rewrite !xdiv_Fin by lra.
  repeat split.
Qed.

(** ** The mesh of resolution 4 by 3 around vertex 10 *)

Lemma sqrt_above (e s : R) : (0 <= e)%R -> (e * e < s)%R -> (e < sqrt s)%R.
Proof.
  intros He Hs. rewrite <- (sqrt_square e He).
  apply sqrt_lt_1; nra.
Qed.

Lemma row_y_3 :
  row_y 3 1 = (- (1 / 3))%R /\ row_y 3 2 = (1 / 3)%R /\ row_y 3 3 = 1%R.
Proof. unfold row_y. simpl. repeat split; field. Qed.

Lemma row_radius_3 :
  row_radius 3 1 = (4 / 9)%R /\ row_radius 3 2 = (4 / 9)%R
  /\ row_radius 3 3 = 0%R.
Proof.
  destruct row_y_3 as (Y1 & Y2 & Y3).
  unfold row_radius. rewrite Y1, Y2, Y3.
  rewrite Rabs_Ropp, !Rabs_pos_eq by lra.
  repeat split; field.
Qed.

Lemma column_beta_4 :
  column_beta 4 0 = 0%R /\ column_beta 4 1 = (PI / 2)%R.
Proof. unfold column_beta. simpl. split; field. Qed.

(** The five vertices of the faces around vertex 10. *)
Lemma positions_4_3 :
  let positions :=
    Textured.positions (@Textured.CreateSurfaceData xreal _ (Some 4) (Some 3)) in
  triple_at positions 5 = (Fin (4 / 9), Fin (- (1 / 3)), Fin 0)
  /\ triple_at positions 6 = (Fin 0, Fin (- (1 / 3)), Fin (4 / 9))
  /\ triple_at positions 10 = (Fin (4 / 9), Fin (1 / 3), Fin 0)
  /\ triple_at positions 11 = (Fin 0, Fin (1 / 3), Fin (4 / 9))
  /\ triple_at positions 15 = (Fin 0, Fin 1, Fin 0).
Proof.
  destruct row_y_3 as (Y1 & Y2 & Y3).
  destruct row_radius_3 as (R1 & R2 & R3).
  destruct column_beta_4 as (B0 & B1).
  cbv zeta.
  assert (P : forall i j, i <= 4 -> j <= 3 ->
            triple_at
              (Textured.positions
                 (@Textured.CreateSurfaceData xreal _ (Some 4) (Some 3)))
              (j * 5 + i)
            = (Fin (row_radius 3 j * cos (column_beta 4 i)),
               Fin (row_y 3 j),
               Fin (row_radius 3 j * sin (column_beta 4 i))))
    by (intros i j Hi Hj; apply (@position_at_grid 4 3 i j); lia).
  rewrite (P 0 1 ltac:(lia) ltac:(lia) : triple_at _ 5 = _).
  rewrite (P 1 1 ltac:(lia) ltac:(lia) : triple_at _ 6 = _).
  rewrite (P 0 2 ltac:(lia) ltac:(lia) : triple_at _ 10 = _).
  rewrite (P 1 2 ltac:(lia) ltac:(lia) : triple_at _ 11 = _).
  rewrite (P 0 3 ltac:(lia) ltac:(lia) : triple_at _ 15 = _).
  rewrite Y1, Y2, Y3, R1, R2, R3, B0, B1.
  rewrite cos_0, sin_0, cos_PI2, sin_PI2.
  repeat split; (f_equal; [f_equal|]); f_equal; lra.
Qed.

(** The faces with corner 10 in the index array of resolution 4 by 3. *)
Lemma faces_of_vertex_10 (t i0 i1 i2 : nat) :
  triangle_at (Flat.buildIndices 4 3) t = Some (i0, i1, i2) ->
  10 = i0 \/ 10 = i1 \/ 10 = i2 ->
  (i0, i1, i2) = (5, 10, 6) \/ (i0, i1, i2) = (6, 10, 11)
  \/ (i0, i1, i2) = (10, 15, 11).
Proof.
  intros Htri Hk.
  do 24 (destruct t as [|t];
         [vm_compute in Htri; injection Htri as <- <- <-;
          first [ now left | now (right; left) | now (right; right)
                | (exfalso; lia) ] |]).
  exfalso. unfold triangle_at in Htri.
  rewrite (proj2 (nth_error_None _ _)) in Htri; [discriminate|].
  rewrite length_buildIndices. lia.
Qed.

(** None of the three faces with corner 10 is degenerate. *)
Lemma faces_of_vertex_10_not_degenerate :
  let positions :=
    Textured.positions (@Textured.CreateSurfaceData xreal _ (Some 4) (Some 3)) in
  forall i0 i1 i2,
    (i0, i1, i2) = (5, 10, 6) \/ (i0, i1, i2) = (6, 10, 11)
    \/ (i0, i1, i2) = (10, 15, 11) ->
    num_gt (hypot3 (edgeCross positions (Some i0) (Some i1) (Some i2)))
           (literal 1e-6) = true.
Proof.
  intros positions i0 i1 i2 Hface.
  destruct positions_4_3 as (P5 & P6 & P10 & P11 & P15).
  fold positions in P5, P6, P10, P11, P15.
  rewrite edgeCross_triples.
  destruct Hface as [[= -> -> ->]|[[= -> -> ->]|[= -> -> ->]]];
    rewrite ?P5, ?P6, ?P10, ?P11, ?P15;
    cbn [edge_cross hypot3 num_sub num_mul Math_hypot num_gt literal
         RealNumber xlift2 xhypot];
    apply xgt_true; eexists _, _; (split; [reflexivity|]);
    (split; [reflexivity|]); rewrite Q2R_eps;
    apply sqrt_above; lra.
Qed.

(** ** A thin triangle *)

(** The edge cross product of the thin triangle is (0, 0, 1e-7). *)
Lemma thin_cross :
  edgeCross thin_positions (Some 0) (Some 1) (Some 2)
  = (Fin 0, Fin 0, Fin (1 / 10000000)).
Proof.
  unfold edgeCross, thin_positions, coord, get. simpl.
  unfold Q2R. simpl. f_equal; [f_equal|]; f_equal; field.
Qed.

Lemma thin_cross_length :
  euclidean_length (edgeCross thin_positions (Some 0) (Some 1) (Some 2))
  = Some (1 / 10000000)%R.
Proof.
  rewrite thin_cross. simpl. f_equal.
  apply sqrt_lem_1; lra.
Qed.

(** ** A thin face in a mesh: resolution 2 by 300 *)

Lemma row_y_300 : row_y 300 0 = (- 1)%R /\ row_y 300 1 = (- (149 / 150))%R.
Proof.
  unfold row_y. rewrite !INR_IZR_INZ. simpl. split; field.
Qed.

Lemma row_radius_300 :
  row_radius 300 0 = 0%R /\ row_radius 300 1 = (1 / 22500)%R.
Proof.
  destruct row_y_300 as (Y0 & Y1).
  unfold row_radius. rewrite Y0, Y1.
  rewrite !Rabs_left by lra.
  split; field.
Qed.

Lemma column_beta_2 : column_beta 2 0 = 0%R /\ column_beta 2 1 = PI.
Proof. unfold column_beta. simpl. split; field. Qed.

(** The second face of the first quad, next to the lower pole. *)
Lemma mesh_2_300_face : triangle_at (Flat.buildIndices 2 300) 1 = Some (1, 3, 4).
Proof.
  exact (proj2 (@buildIndices_triangles 2 300 0 0 ltac:(lia) ltac:(lia))).
Qed.

Lemma mesh_2_300_cross :
  edgeCross (@mesh_positions xreal _ 2 300) (Some 1) (Some 3) (Some 4)
  = (Fin 0, Fin 0, Fin (1 / 1687500)).
Proof.
  destruct row_y_300 as (Y0 & Y1).
  destruct row_radius_300 as (R0 & R1).
  destruct column_beta_2 as (B0 & B1).
  rewrite edgeCross_triples.
  rewrite (@mesh_position_at 2 300 1 0 ltac:(lia) ltac:(lia) ltac:(lia)
             ltac:(lia) : triple_at _ 1 = _).
  rewrite (@mesh_position_at 2 300 0 1 ltac:(lia) ltac:(lia) ltac:(lia)
             ltac:(lia) : triple_at _ 3 = _).
  rewrite (@mesh_position_at 2 300 1 1 ltac:(lia) ltac:(lia) ltac:(lia)
             ltac:(lia) : triple_at _ 4 = _).
  rewrite Y0, Y1, R0, R1, B0, B1, cos_0, sin_0, cos_PI, sin_PI.
  cbn [edge_cross num_sub num_mul RealNumber xlift2].
  f_equal; [f_equal|]; f_equal; field.
Qed.

Lemma mesh_2_300_cross_length :
  euclidean_length
    (edgeCross (@mesh_positions xreal _ 2 300) (Some 1) (Some 3) (Some 4))
  = Some (1 / 1687500)%R.
Proof.
  rewrite mesh_2_300_cross. simpl. f_equal.
  apply sqrt_lem_1; lra.
Qed.

(** The mesh of resolution 2 by 300 has a face whose edge cross product,
    (0, 0, 1/1687500), is shorter than 1e-6 and not zero: the accumulation
    adds it to the normals of its corners. *)
Lemma mesh_2_300_face_adds_its_cross_product :
  ~ degenerate_faces_add_zero (mesh_positions 2 300) (zero_normals 2 300)
      (Flat.buildIndices 2 300) 1.
Proof.
  intros Hclaim.
  destruct (Hclaim 1 3 4 (1 / 1687500)%R mesh_2_300_face
              mesh_2_300_cross_length) as [_ Hzero].
  specialize (Hzero ltac:(lra) 1 (or_introl eq_refl)).
  rewrite (@accumulateFace_triple _ _ (mesh_positions 2 300)
             (zero_normals 2 300) (Flat.buildIndices 2 300)
             1 1 3 4 1 mesh_2_300_face) in Hzero;
    try (rewrite ?length_zero_normals; lia).
  destruct (faceNormal_on_reals (mesh_positions 2 300) (Some 1) (Some 3)
              (Some 4) mesh_2_300_cross_length) as [_ Hn].
  rewrite Hn in Hzero by lra.
  rewrite mesh_2_300_cross in Hzero.
  rewrite (@triple_at_zero_normals xreal _ 2 300 1) in Hzero by lia.
  unfold zero_vector in Hzero. simpl in Hzero.
  injection Hzero as Hz. lra.
Qed.

(** * The claims *)

(** ** Unit normals *)

(** C1. For every resolution uSegments >= 1, vSegments >= 1, every
    per-vertex normal that the differential geometry pass produces
    (accumulation of face normals, then normalization) has Euclidean length
    within 1e-4 of 1, or is exactly the fallback vector (0, 1, 0).  In both
    solid variants, for every implementation of numbers whose divisions
    and Math.hypot round the real result with a relative error of at most
    1e-5; exact real arithmetic is one. *)
Theorem normals_unit_or_fallback :
  forall (num : Type) (N : Number num) (A : Rounded num)
         (uSegments vSegments : nat),
    1 <= uSegments -> 1 <= vSegments ->
    let vertices := (uSegments + 1) * (vSegments + 1) in
    let flat := Flat.CreateSurfaceData (Some uSegments) (Some vSegments) in
    let textured :=
      Textured.CreateSurfaceData (Some uSegments) (Some vSegments) in
    length (Flat.normals flat) = 3 * vertices
    /\ length (Textured.normals textured) = 3 * vertices
    /\ forall k, k < vertices ->
         (has_unit_length (1 / 10000) (triple_at (Flat.normals flat) k)
          \/ triple_at (Flat.normals flat) k = fallback)
         /\ (has_unit_length (1 / 10000)
               (triple_at (Textured.normals textured) k)
             \/ triple_at (Textured.normals textured) k = fallback).
Proof.
  intros num N A uSegments vSegments Hu Hv vertices flat textured.
  subst flat textured.
  rewrite (Textured_normals_unfold Hu Hv).
  rewrite Flat_CreateSurfaceData_unfold. cbn [Flat.normals].
  set (accF := Flat.accumulateNormalsFromIndices _ _ _).
  assert (LF : length accF = 3 * vertices).
  { unfold accF.
    rewrite length_accumulateNormalsFromIndices
      by (intros k; apply indices_in_range).
    apply length_zero_normals. }
  assert (LT : length (textured_accumulated uSegments vSegments) = 3 * vertices)
    by apply length_textured_accumulated.
  destruct (@normalizeNormals_triples _ _ accF _ LF) as [LF' HF].
  destruct (@normalizeNormals_triples _ _ _ _ LT) as [LT' HT].
  split; [exact LF'|split; [exact LT'|]].
  intros k Hk. rewrite (HF k Hk), (HT k Hk).
  split; apply normalize3_rounded.
Qed.

(** The scenario resolution 4 by 2 on exact reals. *)
Lemma normals_unit_or_fallback_at_4_2 :
  let flat := @Flat.CreateSurfaceData xreal _ (Some 4) (Some 2) in
  let textured := @Textured.CreateSurfaceData xreal _ (Some 4) (Some 2) in
  length (Flat.normals flat) = 3 * 15
  /\ length (Textured.normals textured) = 3 * 15
  /\ forall k, k < 15 ->
       (has_unit_length (1 / 10000) (triple_at (Flat.normals flat) k)
        \/ triple_at (Flat.normals flat) k = fallback)
       /\ (has_unit_length (1 / 10000) (triple_at (Textured.normals textured) k)
           \/ triple_at (Textured.normals textured) k = fallback).
Proof.
  apply (@normals_unit_or_fallback xreal _ ExactReals 4 2); lia.
Defined.

(** ** Vertex and triangle counts *)

(** C2. For every uSegments >= 1 and vSegments >= 1 the solid-mode mesh
    builder produces exactly (uSegments+1)(vSegments+1) vertices and
    exactly 2*uSegments*vSegments triangles: the position array has
    3(uSegments+1)(vSegments+1) entries and the index array
    6*uSegments*vSegments, in the grid and index builders on their own
    and in the mesh data of both solid variants. *)
Theorem solid_mesh_counts :
  forall (num : Type) (N : Number num) (uSegments vSegments : nat),
    1 <= uSegments -> 1 <= vSegments ->
    let vertices := (uSegments + 1) * (vSegments + 1) in
    let triangles := 2 * uSegments * vSegments in
    let flat := Flat.CreateSurfaceData (Some uSegments) (Some vSegments) in
    let textured :=
      Textured.CreateSurfaceData (Some uSegments) (Some vSegments) in
    (forall h p : num,
        length (fst (Flat.buildGrid uSegments vSegments h p)) = 3 * vertices
        /\ length (snd (Flat.buildGrid uSegments vSegments h p)) = 3 * vertices)
    /\ length (Flat.buildIndices uSegments vSegments) = 3 * triangles
    /\ length (Flat.positions flat) = 3 * vertices
    /\ length (Flat.normals flat) = 3 * vertices
    /\ length (Flat.indices flat) = 3 * triangles
    /\ length (Textured.positions textured) = 3 * vertices
    /\ length (Textured.indices textured) = 3 * triangles.
Proof.
  intros num N uSegments vSegments Hu Hv vertices triangles flat textured.
  assert (Hidx : length (Flat.buildIndices uSegments vSegments) = 3 * triangles)
    by (rewrite length_buildIndices; unfold triangles; lia).
  split; [|split; [exact Hidx|]].
  - intros h p. rewrite buildGrid_positions, buildGrid_normals. split.
    + apply length_grid_layout. intros i j. apply length_entries3.
    + now apply length_grid_layout.
  - subst flat textured.
    pose proof (Textured_CreateSurfaceData_unfold (Some uSegments)
                  (Some vSegments)) as HT.
    cbv zeta in HT. unfold Textured.or_default in HT.
    destruct (Nat.eqb_spec uSegments 0) as [?|_]; [lia|].
    destruct (Nat.eqb_spec vSegments 0) as [?|_]; [lia|].
    rewrite HT, length_Flat_normals, Flat_CreateSurfaceData_unfold.
    cbn [Flat.positions Flat.indices Textured.positions Textured.indices].
    rewrite length_mesh_positions. auto.
Qed.

(** The scenario of the specification: uSegments = 4 and vSegments = 2
    give 15 vertices and 16 triangles. *)
Lemma solid_mesh_counts_at_4_2 :
  let flat := @Flat.CreateSurfaceData xreal _ (Some 4) (Some 2) in
  let textured := @Textured.CreateSurfaceData xreal _ (Some 4) (Some 2) in
  (forall h p : xreal,
      length (fst (Flat.buildGrid 4 2 h p)) = 3 * 15
      /\ length (snd (Flat.buildGrid 4 2 h p)) = 3 * 15)
  /\ length (Flat.buildIndices 4 2) = 3 * 16
  /\ length (Flat.positions flat) = 3 * 15
  /\ length (Flat.normals flat) = 3 * 15
  /\ length (Flat.indices flat) = 3 * 16
  /\ length (Textured.positions textured) = 3 * 15
  /\ length (Textured.indices textured) = 3 * 16.
Proof.
  apply (@solid_mesh_counts xreal _ 4 2); lia.
Defined.

(** ** The triangle index list *)

(** C3. For every uSegments >= 1 and vSegments >= 1 the triangle index
    list holds, for each quad (i, j) with i < uSegments and j < vSegments,
    exactly the two triangles (i0, i2, i1) and (i1, i2, i3), in that order,
    where i0 = j*rowWidth + i, i1 = i0 + 1, i2 = i0 + rowWidth,
    i3 = i2 + 1 and rowWidth = uSegments + 1: they are triangles number
    2(j*uSegments + i) and 2(j*uSegments + i) + 1 of the
    2*uSegments*vSegments triangles of the list.  Hence every index is
    below the vertex count (uSegments+1)(vSegments+1).  The textured
    variant builds the same list. *)
Theorem triangle_index_list :
  forall (uSegments vSegments : nat),
    1 <= uSegments -> 1 <= vSegments ->
    let rowWidth := uSegments + 1 in
    let indices := Flat.buildIndices uSegments vSegments in
    length indices = 3 * (2 * (uSegments * vSegments))
    /\ (forall i j, i < uSegments -> j < vSegments ->
          let i0 := j * rowWidth + i in
          let i1 := i0 + 1 in
          let i2 := i0 + rowWidth in
          let i3 := i2 + 1 in
          triangle_at indices (2 * (j * uSegments + i)) = Some (i0, i2, i1)
          /\ triangle_at indices (2 * (j * uSegments + i) + 1)
             = Some (i1, i2, i3))
    /\ (forall k, In k indices -> k < (uSegments + 1) * (vSegments + 1))
    /\ (forall (num : Type) (N : Number num),
          Textured.indices
            (Textured.CreateSurfaceData (Some uSegments) (Some vSegments))
          = indices).
Proof.
  intros uSegments vSegments Hu Hv rowWidth indices. subst rowWidth indices.
  split; [|split; [|split]].
  - rewrite length_buildIndices. lia.
  - intros i j Hi Hj. cbv zeta.
    exact (buildIndices_triangles Hi Hj).
  - intros k. apply buildIndices_bound.
  - intros num N.
    pose proof (Textured_CreateSurfaceData_unfold (Some uSegments)
                  (Some vSegments)) as HT.
    cbv zeta in HT. unfold Textured.or_default in HT.
    destruct (Nat.eqb_spec uSegments 0) as [?|_]; [lia|].
    destruct (Nat.eqb_spec vSegments 0) as [?|_]; [lia|].
    now rewrite HT.
Qed.

(** The scenario of the specification: with uSegments = 4 and
    vSegments = 2 every index is below 15. *)
Lemma triangle_index_list_at_4_2 :
  let indices := Flat.buildIndices 4 2 in
  length indices = 3 * (2 * (4 * 2))
  /\ (forall i j, i < 4 -> j < 2 ->
        let i0 := j * 5 + i in
        let i1 := i0 + 1 in
        let i2 := i0 + 5 in
        let i3 := i2 + 1 in
        triangle_at indices (2 * (j * 4 + i)) = Some (i0, i2, i1)
        /\ triangle_at indices (2 * (j * 4 + i) + 1) = Some (i1, i2, i3))
  /\ (forall k, In k indices -> k < 15)
  /\ (forall (num : Type) (N : Number num),
        Textured.indices (Textured.CreateSurfaceData (Some 4) (Some 2))
        = indices).
Proof.
  apply (@triangle_index_list 4 2); lia.
Defined.

(** ** The surface function *)

(** C4. For every y, beta, h and p <> 0 the parametric surface function
    returns the point (x, y, z) with rBase = |y| - h, r = rBase^2 / (2p),
    x = r*cos(beta), z = r*sin(beta).  It is a function of its four
    arguments alone, and the three variants are the same function, for
    every implementation of numbers. *)
Theorem surface_function :
  forall (y beta h p : R),
    p <> 0%R ->
    Wireframe.parabolicHummingTopVertex (Fin y) (Fin beta) (Fin h) (Fin p)
    = Fin3 (surface_point y beta h p)
    /\ Flat.parabolicHummingTopVertex (Fin y) (Fin beta) (Fin h) (Fin p)
       = Fin3 (surface_point y beta h p)
    /\ Textured.parabolicHummingTopVertex (Fin y) (Fin beta) (Fin h) (Fin p)
       = Fin3 (surface_point y beta h p)
    /\ (forall (num : Type) (N : Number num) (y' beta' h' p' : num),
          Wireframe.parabolicHummingTopVertex y' beta' h' p'
          = Flat.parabolicHummingTopVertex y' beta' h' p'
          /\ Flat.parabolicHummingTopVertex y' beta' h' p'
             = Textured.parabolicHummingTopVertex y' beta' h' p').
Proof.
  intros y beta h p Hp.
  pose proof (vertex_on_reals y beta h Hp) as Hv.
  repeat split; exact Hv.
Qed.

(** The shape of the program, h = 1 and p = 1/2, at y = 0 and beta = 0. *)
Lemma surface_function_at_equator :
  Wireframe.parabolicHummingTopVertex (Fin 0) (Fin 0) (Fin 1) (Fin (1 / 2))
  = Fin3 (surface_point 0 0 1 (1 / 2))
  /\ Flat.parabolicHummingTopVertex (Fin 0) (Fin 0) (Fin 1) (Fin (1 / 2))
     = Fin3 (surface_point 0 0 1 (1 / 2))
  /\ Textured.parabolicHummingTopVertex (Fin 0) (Fin 0) (Fin 1) (Fin (1 / 2))
     = Fin3 (surface_point 0 0 1 (1 / 2))
  /\ (forall (num : Type) (N : Number num) (y' beta' h' p' : num),
        Wireframe.parabolicHummingTopVertex y' beta' h' p'
        = Flat.parabolicHummingTopVertex y' beta' h' p'
        /\ Flat.parabolicHummingTopVertex y' beta' h' p'
           = Textured.parabolicHummingTopVertex y' beta' h' p').
Proof.
  apply (@surface_function 0 0 1 (1 / 2))%R. lra.
Defined.

(** ** What a face adds to the normals *)

(** C5, amended.  The accumulation visits the triangles of the index array
    one by one.  A triangle whose edge cross product is longer than 1e-6
    adds that product divided by its length, a vector of length 1, to the
    normal of each of its three corners; a triangle whose edge cross
    product has length 1e-6 or less adds the cross product itself, as it
    is.  No other normal changes.  The textured variant's addFace is the
    same step, and its loop leaves the same normals. *)
Theorem face_contribution :
  forall (uSegments vSegments : nat),
    1 <= uSegments -> 1 <= vSegments ->
    forall (positions normals : list xreal) (t : nat),
      t < 2 * uSegments * vSegments ->
      length normals = 3 * ((uSegments + 1) * (vSegments + 1)) ->
      let indices := Flat.buildIndices uSegments vSegments in
      let normals' := Flat.accumulateFace positions indices (3 * t) normals in
      Flat.accumulateNormalsFromIndices positions normals indices
      = for_loop 0 (2 * uSegments * vSegments)
          (fun t => Flat.accumulateFace positions indices (3 * t)) normals
      /\ snd (Textured.buildTriangles uSegments vSegments positions normals)
         = Flat.accumulateNormalsFromIndices positions normals indices
      /\ exists i0 i1 i2,
           triangle_at indices t = Some (i0, i1, i2)
           /\ let cross :=
                edgeCross positions (Some i0) (Some i1) (Some i2) in
              (forall l, euclidean_length cross = Some l ->
                 (1 / 1000000 < l)%R ->
                 contributes normals normals' i0 i1 i2 (div3 cross (Fin l))
                 /\ euclidean_length (div3 cross (Fin l)) = Some 1%R)
              /\ (forall l, euclidean_length cross = Some l ->
                    (l <= 1 / 1000000)%R ->
                    contributes normals normals' i0 i1 i2 cross)
              /\ (forall k, k <> i0 -> k <> i1 -> k <> i2 ->
                    triple_at normals' k = triple_at normals k)
              /\ Textured.addFace positions normals i0 i1 i2 = normals'.
Proof.
  intros uSegments vSegments Hu Hv positions normals t Ht Hlen indices normals'.
  split.
  { unfold Flat.accumulateNormalsFromIndices, indices.
    rewrite length_buildIndices.
    replace (6 * (uSegments * vSegments))
      with (3 * (2 * uSegments * vSegments)) by lia.
    apply for_step3_multiple. }
  split; [apply buildTriangles_normals|].
  destruct (@grid_triangle_corners uSegments vSegments t Ht)
    as (i0 & i1 & i2 & Htri & H01 & H02 & H12 & B0 & B1 & B2).
  exists i0, i1, i2. split; [exact Htri|]. cbv zeta.
  assert (Hstep : forall k,
             triple_at normals' k
             = if (k =? i0) || (k =? i1) || (k =? i2)
               then add3 (triple_at normals k)
                      (faceNormal positions (Some i0) (Some i1) (Some i2))
               else triple_at normals k).
  { intros k. unfold normals', indices.
    apply accumulateFace_triple; try assumption; lia. }
  split; [|split; [|split]].
  - intros l Hl Hgt.
    destruct (faceNormal_on_reals positions (Some i0) (Some i1) (Some i2) Hl)
      as [Hn _].
    split.
    + intros k Hk. rewrite Hstep, (orb3_true Hk). now rewrite Hn.
    + apply euclidean_length_Some in Hl as (a & b & c & -> & Hl).
      apply (@euclidean_length_div3 a b c l Hl). lra.
  - intros l Hl Hle.
    destruct (faceNormal_on_reals positions (Some i0) (Some i1) (Some i2) Hl)
      as [_ Hn].
    intros k Hk. rewrite Hstep, (orb3_true Hk). now rewrite Hn.
  - intros k N0 N1 N2. now rewrite Hstep, orb3_false.
  - unfold normals', indices. now apply accumulateFace_addFace.
Qed.

Lemma face_contribution_at_4_2 :
  let positions := @mesh_positions xreal _ 4 2 in
  let normals := @zero_normals xreal _ 4 2 in
  let indices := Flat.buildIndices 4 2 in
  let normals' := Flat.accumulateFace positions indices (3 * 0) normals in
  Flat.accumulateNormalsFromIndices positions normals indices
  = for_loop 0 (2 * 4 * 2)
      (fun t => Flat.accumulateFace positions indices (3 * t)) normals
  /\ snd (Textured.buildTriangles 4 2 positions normals)
     = Flat.accumulateNormalsFromIndices positions normals indices
  /\ exists i0 i1 i2,
       triangle_at indices 0 = Some (i0, i1, i2)
       /\ let cross :=
            edgeCross positions (Some i0) (Some i1) (Some i2) in
          (forall l, euclidean_length cross = Some l ->
             (1 / 1000000 < l)%R ->
             contributes normals normals' i0 i1 i2 (div3 cross (Fin l))
             /\ euclidean_length (div3 cross (Fin l)) = Some 1%R)
          /\ (forall l, euclidean_length cross = Some l ->
                (l <= 1 / 1000000)%R ->
                contributes normals normals' i0 i1 i2 cross)
          /\ (forall k, k <> i0 -> k <> i1 -> k <> i2 ->
                triple_at normals' k = triple_at normals k)
          /\ Textured.addFace positions normals i0 i1 i2 = normals'.
Proof.
  apply (@face_contribution 4 2); try lia. reflexivity.
Defined.

(** C5 as stated fails: the thin triangle has an edge cross product of
    length 1e-7, below the threshold, and the accumulation adds that
    product, (0, 0, 1e-7), to the normals of its corners, not the zero
    vector. *)
Lemma thin_face_adds_its_cross_product :
  ~ degenerate_faces_add_zero thin_positions thin_normals [0; 1; 2] 0.
Proof.
  intros Hclaim.
  destruct (Hclaim 0 1 2 (1 / 10000000)%R eq_refl thin_cross_length)
    as [_ Hzero].
  specialize (Hzero ltac:(lra) 0 (or_introl eq_refl)).
  rewrite (@accumulateFace_triple _ _ thin_positions thin_normals [0; 1; 2]
             0 0 1 2 0 eq_refl) in Hzero; try (simpl; lia).
  destruct (faceNormal_on_reals thin_positions (Some 0) (Some 1) (Some 2)
              thin_cross_length) as [_ Hn].
  rewrite Hn in Hzero by lra.
  rewrite thin_cross in Hzero.
  unfold triple_at, thin_normals, get, zero_vector in Hzero.
  simpl in Hzero.
  injection Hzero as Hz. lra.
Qed.

(** ** The length of the tangents *)

(** C6, amended.  After the geometry pass the tangent of the vertex of
    column i and row j is (-r*sin(beta), 0, r*cos(beta)), where
    y = -1 + 2*j/vSegments, beta = 2*pi*i/uSegments and
    r = (|y| - 1)^2 / (2*(1/2)) is the radius of the row.  It is not
    normalized: its length is r, between 0 and 1, and it is 1 exactly in
    the row y = 0, that is when 2*j = vSegments. *)
Theorem tangent_length :
  forall (uSegments vSegments : nat),
    1 <= uSegments -> 1 <= vSegments ->
    forall (i j : nat),
      i <= uSegments -> j <= vSegments ->
      let mesh :=
        @Textured.CreateSurfaceData xreal _ (Some uSegments) (Some vSegments) in
      let tangent :=
        triple_at (Textured.tangents mesh) (j * (uSegments + 1) + i) in
      let r := row_radius vSegments j in
      let beta := column_beta uSegments i in
      tangent = (Fin (- r * sin beta), Fin 0, Fin (r * cos beta))
      /\ euclidean_length tangent = Some r
      /\ (0 <= r <= 1)%R
      /\ (r = 1%R <-> 2 * j = vSegments).
Proof.
  intros uSegments vSegments Hu Hv i j Hi Hj mesh tangent r beta.
  pose proof (row_radius_bounds Hv Hj) as Hr.
  assert (Ht : tangent = (Fin (- r * sin beta), Fin 0, Fin (r * cos beta)))
    by now apply tangent_at_grid.
  split; [exact Ht|split; [|split; [exact Hr|]]].
  - rewrite Ht. apply tangent_length_on_reals. apply Hr.
  - now apply row_radius_one.
Qed.

Lemma tangent_length_at_4_3 :
  let mesh := @Textured.CreateSurfaceData xreal _ (Some 4) (Some 3) in
  let tangent := triple_at (Textured.tangents mesh) (2 * (4 + 1) + 0) in
  let r := row_radius 3 2 in
  let beta := column_beta 4 0 in
  tangent = (Fin (- r * sin beta), Fin 0, Fin (r * cos beta))
  /\ euclidean_length tangent = Some r
  /\ (0 <= r <= 1)%R
  /\ (r = 1%R <-> 2 * 2 = 3).
Proof.
  apply (@tangent_length 4 3); lia.
Defined.

(** C6 as stated fails at resolution 4 by 3: vertex 10 (column 0, row 2)
    has a tangent of length 4/9, and the three faces it belongs to have
    edge cross products far longer than 1e-6. *)
Lemma tangent_of_vertex_10_is_short : ~ tangents_are_unit 4 3.
Proof.
  intros Hclaim. destruct (Hclaim 10 ltac:(simpl; lia)) as [Hunit|Hdeg].
  - destruct Hunit as (l & Hl & Habs).
    change 10 with (2 * (4 + 1) + 0) in Hl.
    rewrite tangent_at_grid in Hl by lia.
    rewrite tangent_length_on_reals in Hl
      by (apply (@row_radius_bounds 3 2); lia).
    injection Hl as <-.
    destruct row_radius_3 as (_ & R2 & _). rewrite R2 in Habs.
    rewrite Rabs_left in Habs by lra. lra.
  - destruct Hdeg as (t & i0 & i1 & i2 & Htri & Hk & Hdeg).
    assert (Hidx : Textured.indices
                     (@Textured.CreateSurfaceData xreal _ (Some 4) (Some 3))
                   = Flat.buildIndices 4 3)
      by now rewrite Textured_CreateSurfaceData_unfold.
    rewrite Hidx in Htri.
    pose proof (faces_of_vertex_10_not_degenerate
                  (faces_of_vertex_10 _ Htri Hk)) as Hgt.
    cbv zeta in Hgt. rewrite Hgt in Hdeg. discriminate.
Qed.

(** ** The polylines of the wireframe *)

(** C7. For every uSegments >= 1 and vSegments >= 1 the wireframe builder
    produces exactly vSegments + 1 U-polylines, each of uSegments + 1
    vertices (three coordinates per vertex), and exactly uSegments + 1
    V-polylines, each of vSegments + 1 vertices. *)
Theorem wireframe_polyline_counts :
  forall (num : Type) (N : Number num) (h p : num) (uSegments vSegments : nat),
    1 <= uSegments -> 1 <= vSegments ->
    let uLines := Wireframe.generateULines h p vSegments uSegments in
    let vLines := Wireframe.generateVLines h p vSegments uSegments in
    length uLines = vSegments + 1
    /\ (forall line, In line uLines -> length line = 3 * (uSegments + 1))
    /\ length vLines = uSegments + 1
    /\ (forall line, In line vLines -> length line = 3 * (vSegments + 1)).
Proof.
  intros num N h p uSegments vSegments _ _ uLines vLines.
  subst uLines vLines.
  rewrite generateULines_map, generateVLines_map.
  rewrite !length_map, !length_seq.
  repeat split; try reflexivity.
  - intros line Hin. apply in_map_iff in Hin as (j & <- & _).
    apply length_flat_map_seq. intros i. apply length_entries3.
  - intros line Hin. apply in_map_iff in Hin as (i & <- & _).
    apply length_flat_map_seq. intros j. apply length_entries3.
Qed.

Lemma wireframe_polyline_counts_at_64_40 :
  let uLines := Wireframe.uLines (@Wireframe.CreateSurfaceData xreal _) in
  let vLines := Wireframe.vLines (@Wireframe.CreateSurfaceData xreal _) in
  length uLines = 41
  /\ (forall line, In line uLines -> length line = 195)
  /\ length vLines = 65
  /\ (forall line, In line vLines -> length line = 123).
Proof.
  apply (@wireframe_polyline_counts xreal _ (literal 1.0) (literal 0.5) 64 40);
    lia.
Defined.

(** ** The axial coordinate *)

(** C8. For every input y, beta, h, p the y-component of the point that
    parabolicHummingTopVertex returns is the input y itself, whatever the
    implementation of numbers: the function passes it on and computes
    nothing on it.  All three variants. *)
Theorem vertex_keeps_y :
  forall (num : Type) (N : Number num) (y beta h p : num),
    snd (fst (Wireframe.parabolicHummingTopVertex y beta h p)) = y
    /\ snd (fst (Flat.parabolicHummingTopVertex y beta h p)) = y
    /\ snd (fst (Textured.parabolicHummingTopVertex y beta h p)) = y.
Proof.
  intros num N y beta h p. repeat split.
Qed.

(** ** The model-view matrix *)

(** C9. For every view matrix the wireframe variant's computeTransforms,
    the solid variant's computeModelView and the matrix that the textured
    variant's draw sends as model-view matrix are the same matrix,
    translation(0,0,-10) * (axisRotation((0.707,0.707,0), 0.7) * view),
    whatever the matrix library computes. *)
Theorem model_view_reorientation :
  forall (num mat : Type) (N : Number num) (M : M4 num mat) (view : mat),
    let spaceball := {| getViewMatrix := view |} in
    Wireframe.computeTransforms view = reorientation view
    /\ Flat.computeModelView spaceball = reorientation view
    /\ fst (Textured.draw spaceball) = reorientation view
    /\ Wireframe.computeTransforms view = Flat.computeModelView spaceball.
Proof.
  intros num mat N M view spaceball. repeat split.
Qed.

(** ** Default resolutions *)

(** C10. The textured variant replaces a falsy resolution argument by 40:
    CreateSurfaceData(0, 0) is the mesh data of CreateSurfaceData(40, 40),
    and so is the result for any two falsy arguments.  The defaults of the
    flat-shaded variant replace omitted arguments only: without arguments
    it gives the mesh of (40, 40), but with (0, 0) it builds the grid of
    resolution zero, one vertex and no triangle, which is not that mesh. *)
Theorem falsy_resolution_defaults :
  forall (num : Type) (N : Number num),
    Textured.CreateSurfaceData (Some 0) (Some 0)
    = Textured.CreateSurfaceData (Some 40) (Some 40)
    /\ (forall uSeg vSeg : option nat,
          (falsy uSeg \/ uSeg = Some 40) -> (falsy vSeg \/ vSeg = Some 40) ->
          Textured.CreateSurfaceData uSeg vSeg
          = Textured.CreateSurfaceData (Some 40) (Some 40))
    /\ Flat.CreateSurfaceData None None
       = Flat.CreateSurfaceData (Some 40) (Some 40)
    /\ length (Flat.positions (Flat.CreateSurfaceData (Some 0) (Some 0))) = 3
    /\ Flat.indices (Flat.CreateSurfaceData (Some 0) (Some 0)) = []
    /\ Flat.CreateSurfaceData (Some 0) (Some 0)
       <> Flat.CreateSurfaceData (Some 40) (Some 40).
Proof.
  intros num N.
  assert (Hfalsy : forall uSeg vSeg : option nat,
             (falsy uSeg \/ uSeg = Some 40) -> (falsy vSeg \/ vSeg = Some 40) ->
             Textured.CreateSurfaceData uSeg vSeg
             = Textured.CreateSurfaceData (Some 40) (Some 40)).
  { intros uSeg vSeg Hu Hv.
    rewrite (Textured_CreateSurfaceData_unfold uSeg vSeg).
    rewrite (Textured_CreateSurfaceData_unfold (Some 40) (Some 40)).
    assert (Eu : Textured.or_default uSeg 40 = 40)
      by (destruct Hu as [[->| ->]| ->]; reflexivity).
    assert (Ev : Textured.or_default vSeg 40 = 40)
      by (destruct Hv as [[->| ->]| ->]; reflexivity).
    cbv zeta. rewrite Eu, Ev. reflexivity. }
  assert (H0 : length (Flat.positions (Flat.CreateSurfaceData (Some 0) (Some 0)))
               = 3).
  { rewrite Flat_CreateSurfaceData_unfold. cbn [Flat.positions].
    now rewrite length_mesh_positions. }
  split; [|split; [exact Hfalsy|split; [reflexivity|split; [exact H0|split]]]].
  - apply Hfalsy; left; right; reflexivity.
  - now rewrite Flat_CreateSurfaceData_unfold.
  - intros Heq. rewrite Heq in H0.
    rewrite Flat_CreateSurfaceData_unfold in H0. cbn [Flat.positions] in H0.
    rewrite length_mesh_positions in H0. lia.
Qed.

(** * Further properties of the program

    ** The vertices of the grid *)

Lemma Textured_mesh {num : Type} `{Number num} (uSeg vSeg : nat) :
  1 <= uSeg -> 1 <= vSeg ->
  Textured.CreateSurfaceData (Some uSeg) (Some vSeg)
  = {| Textured.positions := mesh_positions uSeg vSeg;
       Textured.normals :=
         Flat.normalizeNormals (textured_accumulated uSeg vSeg);
       Textured.tangents := mesh_tangents uSeg vSeg;
       Textured.texCoords := mesh_texCoords uSeg vSeg;
       Textured.indices := Flat.buildIndices uSeg vSeg |}.
Proof.
  intros Hu Hv.
  pose proof (@Textured_CreateSurfaceData_unfold num _ (Some uSeg)
                (Some vSeg)) as HT.
  cbv zeta in HT. unfold Textured.or_default in HT.
  destruct (Nat.eqb_spec uSeg 0) as [?|_]; [lia|].
  destruct (Nat.eqb_spec vSeg 0) as [?|_]; [lia|].
  exact HT.
Qed.

(** X1. The grid is laid out row by row, whatever the implementation of
    numbers: for all resolutions, every i <= uSeg and j <= vSeg, vertex
    j*(uSeg+1) + i of the arrays that [buildGrid] returns is the surface
    function at the height y = -h + 2*h*(j/vSeg) of row j and the angle
    beta = 2*pi*(i/uSeg) of column i, with the normal (0, 0, 0).  The
    positions of the mesh data of the flat-shaded variant are those
    vertices for h = 1 and p = 0.5; so are, for resolutions of at least 1,
    the positions of the textured variant, whose tangent at that vertex is
    (-r*sin(beta), 0, r*cos(beta)) with r = (|y| - h)^2 / (2*p). *)
Theorem grid_vertices_row_major :
  forall (num : Type) (N : Number num) (h p : num) (uSeg vSeg i j : nat),
    i <= uSeg -> j <= vSeg ->
    let k := j * (uSeg + 1) + i in
    let beta := (literal 2.0 * Math_PI * (of_count i / of_count uSeg))%num in
    let y := (- h + literal 2.0 * h * (of_count j / of_count vSeg))%num in
    let y1 :=
      (- literal 1.0 + literal 2.0 * literal 1.0
                       * (of_count j / of_count vSeg))%num in
    let r1 :=
      (((Math_abs y1 - literal 1.0) * (Math_abs y1 - literal 1.0))
       / (literal 2 * literal 0.5))%num in
    triple_at (fst (Flat.buildGrid uSeg vSeg h p)) k
    = Flat.parabolicHummingTopVertex y beta h p
    /\ triple_at (snd (Flat.buildGrid uSeg vSeg h p)) k
       = (literal 0.0, literal 0.0, literal 0.0)
    /\ triple_at
         (Flat.positions (Flat.CreateSurfaceData (Some uSeg) (Some vSeg))) k
       = Flat.parabolicHummingTopVertex y1 beta (literal 1.0) (literal 0.5)
    /\ (1 <= uSeg -> 1 <= vSeg ->
        let mesh := Textured.CreateSurfaceData (Some uSeg) (Some vSeg) in
        triple_at (Textured.positions mesh) k
        = Textured.parabolicHummingTopVertex y1 beta (literal 1.0)
            (literal 0.5)
        /\ triple_at (Textured.tangents mesh) k
           = ((- r1 * Math_sin beta)%num, literal 0.0,
              (r1 * Math_cos beta)%num)).
Proof.
  intros num N h p uSeg vSeg i j Hi Hj k beta y y1 r1.
  subst k beta y y1 r1.
  split; [|split; [|split]].
  - rewrite buildGrid_positions.
    rewrite triple_at_grid_layout by assumption. reflexivity.
  - rewrite buildGrid_normals.
    apply (@triple_at_grid_layout num N uSeg vSeg
             (fun _ _ => (literal 0.0, literal 0.0, literal 0.0)) i j Hi Hj).
  - rewrite Flat_CreateSurfaceData_unfold. cbn [Flat.positions].
    unfold mesh_positions.
    rewrite triple_at_grid_layout by assumption. reflexivity.
  - intros Hu Hv mesh. subst mesh.
    rewrite (@Textured_mesh num N uSeg vSeg Hu Hv).
    cbn [Textured.positions Textured.tangents].
    unfold mesh_positions, mesh_tangents.
    rewrite !triple_at_grid_layout by assumption.
    split; reflexivity.
Qed.

Lemma grid_vertices_row_major_at_4_2 :
  let h : xreal := literal 1.0 in
  let p : xreal := literal 0.5 in
  let k := 1 * (4 + 1) + 3 in
  let beta : xreal :=
    (literal 2.0 * Math_PI * (of_count 3 / of_count 4))%num in
  let y := (- h + literal 2.0 * h * (of_count 1 / of_count 2))%num in
  let y1 : xreal :=
    (- literal 1.0 + literal 2.0 * literal 1.0
                     * (of_count 1 / of_count 2))%num in
  let r1 :=
    (((Math_abs y1 - literal 1.0) * (Math_abs y1 - literal 1.0))
     / (literal 2 * literal 0.5))%num in
  triple_at (fst (Flat.buildGrid 4 2 h p)) k
  = Flat.parabolicHummingTopVertex y beta h p
  /\ triple_at (snd (Flat.buildGrid 4 2 h p)) k
     = (literal 0.0, literal 0.0, literal 0.0)
  /\ triple_at (Flat.positions (Flat.CreateSurfaceData (Some 4) (Some 2))) k
     = Flat.parabolicHummingTopVertex y1 beta (literal 1.0) (literal 0.5)
  /\ (1 <= 4 -> 1 <= 2 ->
      let mesh := Textured.CreateSurfaceData (Some 4) (Some 2) in
      triple_at (Textured.positions mesh) k
      = Textured.parabolicHummingTopVertex y1 beta (literal 1.0) (literal 0.5)
      /\ triple_at (Textured.tangents mesh) k
         = ((- r1 * Math_sin beta)%num, literal 0.0,
            (r1 * Math_cos beta)%num)).
Proof.
  apply (@grid_vertices_row_major xreal _ (literal 1.0) (literal 0.5) 4 2 3 1);
    lia.
Defined.

(** ** The vertices that the triangles use *)

(** Column and row of a vertex index. *)
Lemma vertex_column_row (uSeg vSeg k : nat) :
  k < (uSeg + 1) * (vSeg + 1) ->
  exists i j, i <= uSeg /\ j <= vSeg /\ k = j * (uSeg + 1) + i.
Proof.
  intros Hk.
  exists (k mod (uSeg + 1)), (k / (uSeg + 1)).
  assert (Hm : k mod (uSeg + 1) < uSeg + 1) by (apply Nat.mod_upper_bound; lia).
  pose proof (Nat.div_mod_eq k (uSeg + 1)) as Hd.
  repeat split; [lia| |lia].
  assert (k / (uSeg + 1) < vSeg + 1); [|lia].
  apply Nat.Div0.div_lt_upper_bound. lia.
Qed.

(** Every vertex of the grid is a corner of a triangle. *)
Lemma vertex_in_indices (uSeg vSeg k : nat) :
  1 <= uSeg -> 1 <= vSeg ->
  k < (uSeg + 1) * (vSeg + 1) ->
  In k (Flat.buildIndices uSeg vSeg).
Proof.
  intros Hu Hv Hk.
  destruct (vertex_column_row uSeg vSeg Hk) as (i & j & Hi & Hj & ->).
  assert (Hq : forall i' j' r, i' < uSeg -> j' < vSeg -> r < 6 ->
             In (nth r (quad_entries uSeg j' i') 0) (Flat.buildIndices uSeg vSeg)).
  { intros i' j' r Hi' Hj' Hr.
    rewrite <- (@nth_buildIndices uSeg vSeg i' j' r 0 Hi' Hj' Hr).
    apply nth_In. rewrite length_buildIndices.
    assert (j' * uSeg + i' < uSeg * vSeg) by nia. lia. }
  destruct (Nat.eq_dec i uSeg) as [Ei|Ei], (Nat.eq_dec j vSeg) as [Ej|Ej].
  - specialize (Hq (uSeg - 1) (vSeg - 1) 5 ltac:(lia) ltac:(lia) ltac:(lia)).
    cbn [nth quad_entries] in Hq.
    unfold quad_i3, quad_i2, quad_i0 in Hq.
    replace (j * (uSeg + 1) + i)
      with ((vSeg - 1) * (uSeg + 1) + (uSeg - 1) + (uSeg + 1) + 1) by nia.
    exact Hq.
  - specialize (Hq (uSeg - 1) j 2 ltac:(lia) ltac:(lia) ltac:(lia)).
    cbn [nth quad_entries] in Hq.
    unfold quad_i1, quad_i0 in Hq.
    replace (j * (uSeg + 1) + i) with (j * (uSeg + 1) + (uSeg - 1) + 1) by lia.
    exact Hq.
  - specialize (Hq i (vSeg - 1) 1 ltac:(lia) ltac:(lia) ltac:(lia)).
    cbn [nth quad_entries] in Hq.
    unfold quad_i2, quad_i0 in Hq.
    replace (j * (uSeg + 1) + i)
      with ((vSeg - 1) * (uSeg + 1) + i + (uSeg + 1)) by nia.
    exact Hq.
  - specialize (Hq i j 0 ltac:(lia) ltac:(lia) ltac:(lia)).
    cbn [nth quad_entries] in Hq.
    exact Hq.
Qed.

(** X2. For every uSegments >= 1 and vSegments >= 1 the index array of the
    solid variants names exactly the vertices of the grid: a number occurs
    in it if and only if it is below (uSegments+1)(vSegments+1).  No vertex
    is left without a triangle, and no index points outside the vertex
    arrays. *)
Theorem indices_use_every_vertex :
  forall (uSegments vSegments : nat),
    1 <= uSegments -> 1 <= vSegments ->
    forall k : nat,
      (In k (Flat.buildIndices uSegments vSegments)
       <-> k < (uSegments + 1) * (vSegments + 1))
      /\ (forall (num : Type) (N : Number num),
            (In k (Flat.indices
                     (Flat.CreateSurfaceData (Some uSegments) (Some vSegments)))
             <-> k < (uSegments + 1) * (vSegments + 1))
            /\ (In k (Textured.indices
                        (Textured.CreateSurfaceData (Some uSegments)
                           (Some vSegments)))
                <-> k < (uSegments + 1) * (vSegments + 1))).
Proof.
  intros uSegments vSegments Hu Hv k.
  assert (E : In k (Flat.buildIndices uSegments vSegments)
              <-> k < (uSegments + 1) * (vSegments + 1)).
  { split; [apply buildIndices_bound|apply vertex_in_indices; assumption]. }
  split; [exact E|].
  intros num N.
  rewrite (@Textured_mesh num N uSegments vSegments Hu Hv).
  rewrite Flat_CreateSurfaceData_unfold.
  cbn [Flat.indices Textured.indices]. split; exact E.
Qed.

Lemma indices_use_every_vertex_at_4_2 :
  (In 14 (Flat.buildIndices 4 2) <-> 14 < (4 + 1) * (2 + 1))
  /\ (forall (num : Type) (N : Number num),
        (In 14 (Flat.indices (Flat.CreateSurfaceData (Some 4) (Some 2)))
         <-> 14 < (4 + 1) * (2 + 1))
        /\ (In 14 (Textured.indices
                     (Textured.CreateSurfaceData (Some 4) (Some 2)))
            <-> 14 < (4 + 1) * (2 + 1))).
Proof.
  apply (@indices_use_every_vertex 4 2); lia.
Defined.

(** ** The normal of a vertex *)

Section IncidentSum.
Context {num : Type} `{Number num}.

Lemma accumulate_as_loop (uSeg vSeg : nat) (positions normals : list num) :
  Flat.accumulateNormalsFromIndices positions normals
    (Flat.buildIndices uSeg vSeg)
  = for_loop 0 (2 * uSeg * vSeg)
      (fun t => Flat.accumulateFace positions (Flat.buildIndices uSeg vSeg)
                  (3 * t)) normals.
Proof.
  unfold Flat.accumulateNormalsFromIndices.
  rewrite length_buildIndices.
  replace (6 * (uSeg * vSeg)) with (3 * (2 * uSeg * vSeg)) by lia.
  apply for_step3_multiple.
Qed.

Lemma accumulate_incident_sum (uSeg vSeg : nat) (positions normals : list num)
    (k : nat) :
  length normals = 3 * ((uSeg + 1) * (vSeg + 1)) ->
  triple_at
    (Flat.accumulateNormalsFromIndices positions normals
       (Flat.buildIndices uSeg vSeg)) k
  = incident_sum positions (Flat.buildIndices uSeg vSeg) k
      (triple_at normals k).
Proof.
  intros Hlen.
  rewrite accumulate_as_loop. unfold incident_sum.
  rewrite length_buildIndices.
  replace (6 * (uSeg * vSeg) / 3) with (2 * uSeg * vSeg)
    by (replace (6 * (uSeg * vSeg)) with ((2 * uSeg * vSeg) * 3) by lia;
        rewrite Nat.div_mul; lia).
  set (indices := Flat.buildIndices uSeg vSeg).
  set (F := fun t acc =>
    match triangle_at indices t with
    | Some (i0, i1, i2) =>
        if (k =? i0) || (k =? i1) || (k =? i2)
        then add3 acc (faceNormal positions (Some i0) (Some i1) (Some i2))
        else acc
    | None => acc
    end).
  pose (P := fun (t : nat) (st : list num) =>
    length st = 3 * ((uSeg + 1) * (vSeg + 1))
    /\ triple_at st k = for_loop 0 t F (triple_at normals k)).
  assert (HP : P (2 * uSeg * vSeg)
                 (for_loop 0 (2 * uSeg * vSeg)
                    (fun t => Flat.accumulateFace positions indices (3 * t))
                    normals)).
  { apply (for_loop_invariant P); [lia| |].
    - split; [exact Hlen|]. rewrite for_loop_empty by lia. reflexivity.
    - intros t st Ht [Hl Hs].
      destruct (@grid_triangle_corners uSeg vSeg t ltac:(lia))
        as (i0 & i1 & i2 & Ht3 & D01 & D02 & D12 & B0 & B1 & B2).
      fold indices in Ht3.
      split.
      + rewrite length_accumulateFace; [exact Hl|].
        intros m Hm. apply buildIndices_bound in Hm. lia.
      + rewrite for_loop_last by lia.
        rewrite (@accumulateFace_triple _ _ positions st indices t i0 i1 i2 k
                   Ht3 D01 D02 D12) by lia.
        unfold F at 1. rewrite Ht3, <- Hs. reflexivity. }
  exact (proj2 HP).
Qed.
End IncidentSum.

(** X3. For every uSegments >= 1 and vSegments >= 1 the accumulation leaves
    at every vertex k the sum of what it found there and of the face
    normals of the triangles that have k as a corner, added in the order
    of the index array, whatever the implementation of numbers.  The
    normal of vertex k in the mesh data of both solid variants is the
    normalization of that sum, started from (0, 0, 0). *)
Theorem vertex_normal_is_incident_sum :
  forall (num : Type) (N : Number num) (uSegments vSegments : nat),
    1 <= uSegments -> 1 <= vSegments ->
    forall k : nat,
      k < (uSegments + 1) * (vSegments + 1) ->
      let indices := Flat.buildIndices uSegments vSegments in
      let flat := Flat.CreateSurfaceData (Some uSegments) (Some vSegments) in
      let textured :=
        Textured.CreateSurfaceData (Some uSegments) (Some vSegments) in
      let zero := (literal 0.0, literal 0.0, literal 0.0) in
      (forall positions normals : list num,
          length normals = 3 * ((uSegments + 1) * (vSegments + 1)) ->
          triple_at
            (Flat.accumulateNormalsFromIndices positions normals indices) k
          = incident_sum positions indices k (triple_at normals k))
      /\ triple_at (Flat.normals flat) k
         = normalize3 (incident_sum (Flat.positions flat) indices k zero)
      /\ triple_at (Textured.normals textured) k
         = normalize3 (incident_sum (Textured.positions textured) indices k
                         zero).
Proof.
  intros num N uSegments vSegments Hu Hv k Hk indices flat textured zero.
  subst indices.
  set (indices := Flat.buildIndices uSegments vSegments) in *.
  assert (Hacc : forall positions normals : list num,
             length normals = 3 * ((uSegments + 1) * (vSegments + 1)) ->
             triple_at
               (Flat.accumulateNormalsFromIndices positions normals indices) k
             = incident_sum positions indices k (triple_at normals k))
    by (intros positions normals Hl; apply accumulate_incident_sum; exact Hl).
  assert (Hflat : triple_at (Flat.normals flat) k
                  = normalize3
                      (incident_sum (Flat.positions flat) indices k zero)).
  { subst flat. rewrite Flat_CreateSurfaceData_unfold.
    cbn [Flat.normals Flat.positions]. fold indices.
    destruct (@normalizeNormals_triples _ _
                (Flat.accumulateNormalsFromIndices
                   (mesh_positions uSegments vSegments)
                   (zero_normals uSegments vSegments) indices)
                ((uSegments + 1) * (vSegments + 1))) as [_ Ht].
    { rewrite length_accumulateNormalsFromIndices.
      - apply length_zero_normals.
      - intros m Hm. apply indices_in_range. exact Hm. }
    rewrite (Ht k Hk), Hacc by apply length_zero_normals.
    rewrite triple_at_zero_normals by exact Hk. reflexivity. }
  split; [exact Hacc|]. split; [exact Hflat|].
  destruct (@solid_variants_agree num N uSegments vSegments Hu Hv)
    as (Ep & En & _).
  fold flat textured in Ep, En. rewrite En, Ep. exact Hflat.
Qed.

Lemma vertex_normal_is_incident_sum_at_4_2 :
  let indices := Flat.buildIndices 4 2 in
  let flat := @Flat.CreateSurfaceData xreal _ (Some 4) (Some 2) in
  let textured := @Textured.CreateSurfaceData xreal _ (Some 4) (Some 2) in
  let zero : xreal * xreal * xreal := (literal 0.0, literal 0.0, literal 0.0) in
  (forall positions normals : list xreal,
      length normals = 3 * ((4 + 1) * (2 + 1)) ->
      triple_at
        (Flat.accumulateNormalsFromIndices positions normals indices) 7
      = incident_sum positions indices 7 (triple_at normals 7))
  /\ triple_at (Flat.normals flat) 7
     = normalize3 (incident_sum (Flat.positions flat) indices 7 zero)
  /\ triple_at (Textured.normals textured) 7
     = normalize3 (incident_sum (Textured.positions textured) indices 7 zero).
Proof.
  apply (@vertex_normal_is_incident_sum xreal _ 4 2); lia.
Defined.

(** ** Normalization of any array *)

Section RaggedArrays.
Context {num : Type} `{Number num}.

(** A read after a write, wherever the write lands. *)
Lemma get_set_same_any (a : list num) (k : nat) (v : num) :
  get (set a k v) k = v.
Proof.
  destruct (Nat.lt_ge_cases k (length a)) as [Hlt|Hge].
  - apply get_set_same. exact Hlt.
  - unfold get, set.
    destruct (Nat.ltb_spec k (length a)) as [?|_]; [lia|].
    rewrite app_nth2 by lia.
    rewrite app_nth2; rewrite repeat_length; [|lia].
    replace (k - length a - (k - length a)) with 0 by lia. reflexivity.
Qed.

Lemma get_set_other_any (a : list num) (k k' : nat) (v : num) :
  k' <> k -> get (set a k v) k' = get a k'.
Proof.
  intros Hne.
  destruct (Nat.lt_ge_cases k (length a)) as [Hlt|Hge].
  - apply get_set_other; assumption.
  - unfold get, set.
    destruct (Nat.ltb_spec k (length a)) as [?|_]; [lia|].
    destruct (Nat.lt_ge_cases k' (length a)) as [Hin|Hout].
    + rewrite app_nth1 by exact Hin. reflexivity.
    + rewrite app_nth2 by exact Hout.
      rewrite (nth_overflow a) by exact Hout.
      destruct (Nat.lt_ge_cases k' k) as [Hl|Hg].
      * rewrite app_nth1 by (rewrite repeat_length; lia).
        apply nth_repeat_lt. lia.
      * rewrite app_nth2 by (rewrite repeat_length; lia).
        rewrite repeat_length.
        apply nth_overflow. cbn [length]. lia.
Qed.

Lemma triple_at_normalizeAt_any (a : list num) (k : nat) :
  triple_at (Flat.normalizeAt (3 * k) a) k = normalize3 (triple_at a k).
Proof.
  unfold Flat.normalizeAt, normalize3, triple_at.
  destruct (num_gt _ _); unfold triple_at;
    repeat first
      [ rewrite get_set_same_any
      | rewrite get_set_other_any by lia ];
    reflexivity.
Qed.

Lemma get_normalizeAt_other_any (a : list num) (k m : nat) :
  m < 3 * k \/ 3 * k + 2 < m ->
  get (Flat.normalizeAt (3 * k) a) m = get a m.
Proof.
  intros Hm. unfold Flat.normalizeAt.
  destruct (num_gt _ _); rewrite !get_set_other_any by lia; reflexivity.
Qed.

(** [normalizeNormals] on any array: the result holds whole triples, one
    for every triple that the array begins, and each is the normalization
    of the entries it found. *)
Lemma normalizeNormals_any (a : list num) :
  length (Flat.normalizeNormals a) = 3 * ((length a + 2) / 3)
  /\ forall k, 3 * k < length a ->
       triple_at (Flat.normalizeNormals a) k = normalize3 (triple_at a k).
Proof.
  rewrite (proj1 (normalizeNormals_for_step3 a)). unfold for_step3.
  set (n := (length a + 2) / 3).
  assert (Hn : length a <= 3 * n < length a + 3).
  { unfold n. pose proof (Nat.div_mod_eq (length a + 2) 3) as Hd.
    pose proof (Nat.mod_upper_bound (length a + 2) 3 ltac:(lia)). lia. }
  pose (P := fun (m : nat) (st : list num) =>
       length st = Nat.max (length a) (3 * m)
       /\ (forall k, k < m -> triple_at st k = normalize3 (triple_at a k))
       /\ (forall i, 3 * m <= i -> get st i = get a i)).
  assert (Inv : P n (for_loop 0 n (fun k => Flat.normalizeAt (3 * k)) a)).
  { apply (for_loop_invariant P); unfold P; [lia| |].
    - split; [lia|]. split; [lia|reflexivity].
    - intros j st Hj (HL & Hdone & Htodo).
      split; [|split].
      + rewrite length_normalizeAt_max by lia. lia.
      + intros k Hk. destruct (Nat.eq_dec k j) as [->|Hne].
        * rewrite triple_at_normalizeAt_any. f_equal.
          unfold triple_at. rewrite !Htodo by lia. reflexivity.
        * unfold triple_at.
          rewrite !get_normalizeAt_other_any by lia.
          apply (Hdone k). lia.
      + intros i Hi. rewrite get_normalizeAt_other_any by lia.
        apply Htodo. lia. }
  destruct Inv as (HL & Hdone & _).
  split; [lia|].
  intros k Hk. apply Hdone. lia.
Qed.

(** Two arrays of [n] triples with the same triples are the same array. *)
Lemma triples_ext (a b : list num) (n : nat) :
  length a = 3 * n -> length b = 3 * n ->
  (forall k, k < n -> triple_at a k = triple_at b k) ->
  a = b.
Proof.
  intros Ha Hb Ht.
  apply (nth_ext a b NaN NaN); [lia|].
  intros i Hi.
  pose proof (Nat.div_mod_eq i 3) as Hd.
  pose proof (Nat.mod_upper_bound i 3 ltac:(lia)) as Hr.
  assert (Hk : i / 3 < n) by lia.
  specialize (Ht (i / 3) Hk). unfold triple_at, get in Ht.
  injection Ht as H0 H1 H2.
  destruct (i mod 3) as [|[|[|r]]] eqn:Er; [| | |lia].
  - replace i with (3 * (i / 3)) by lia. exact H0.
  - replace i with (3 * (i / 3) + 1) by lia. exact H1.
  - replace i with (3 * (i / 3) + 2) by lia. exact H2.
Qed.
End RaggedArrays.



(** X4. [normalizeNormals] accepts any array, whatever the implementation
    of numbers.  The array it leaves holds whole triples, one for every
    triple that the array given begins, so that up to two entries are
    added to an array that ends inside a triple and an empty array stays
    empty.  Each triple is the normalization of the three entries found at
    its place, an entry read beyond the end of the array being
    [undefined].  The last loop of the textured variant does the same. *)
Theorem normalizeNormals_whole_triples :
  forall (num : Type) (N : Number num) (normals : list num),
    length (Flat.normalizeNormals normals) = 3 * ((length normals + 2) / 3)
    /\ (forall k, 3 * k < length normals ->
          triple_at (Flat.normalizeNormals normals) k
          = normalize3 (triple_at normals k))
    /\ Flat.normalizeNormals [] = []
    /\ for_step3_while (length normals) (@length num) Textured.normalizeAt 0
         normals
       = Flat.normalizeNormals normals.
Proof.
  intros num N normals.
  destruct (normalizeNormals_any normals) as [Hl Ht].
  split; [exact Hl|]. split; [exact Ht|]. split; [reflexivity|].
  rewrite normalizeAt_same. reflexivity.
Qed.


(** ** The shape of the mesh on exact reals *)

Lemma flat_position_at (uSeg vSeg i j : nat) :
  1 <= uSeg -> 1 <= vSeg -> i <= uSeg -> j <= vSeg ->
  triple_at
    (Flat.positions (@Flat.CreateSurfaceData xreal _ (Some uSeg) (Some vSeg)))
    (j * (uSeg + 1) + i)
  = (Fin (row_radius vSeg j * cos (column_beta uSeg i)),
     Fin (row_y vSeg j),
     Fin (row_radius vSeg j * sin (column_beta uSeg i))).
Proof.
  intros Hu Hv Hi Hj. rewrite Flat_CreateSurfaceData_unfold.
  cbn [Flat.positions]. apply mesh_position_at; assumption.
Qed.

Section RowsAndColumns.
Local Open Scope R_scope.

Lemma row_y_bottom (vSeg : nat) : row_y vSeg 0 = -1.
Proof. unfold row_y. cbn [INR]. unfold Rdiv. lra. Qed.

Lemma row_y_top (vSeg : nat) : (1 <= vSeg)%nat -> row_y vSeg vSeg = 1.
Proof.
  intros Hv. unfold row_y.
  pose proof (INR_nonzero Hv) as Hn.
  replace (INR vSeg / INR vSeg) with 1 by (field; exact Hn). lra.
Qed.

Lemma row_radius_bottom (vSeg : nat) : row_radius vSeg 0 = 0.
Proof.
  unfold row_radius. rewrite row_y_bottom.
  replace (-1) with (- (1)) by lra. rewrite Rabs_Ropp, Rabs_R1. field.
Qed.

Lemma row_radius_top (vSeg : nat) : (1 <= vSeg)%nat -> row_radius vSeg vSeg = 0.
Proof.
  intros Hv. unfold row_radius. rewrite (row_y_top Hv), Rabs_R1. field.
Qed.





(** A point of the surface lies in the unit ball. *)
Lemma in_unit_ball (vSeg j : nat) (beta : R) :
  (1 <= vSeg)%nat -> (j <= vSeg)%nat ->
  let r := row_radius vSeg j in
  let y := row_y vSeg j in
  (r * cos beta) * (r * cos beta) + y * y + (r * sin beta) * (r * sin beta)
  <= 1.
Proof.
  intros Hv Hj r y.
  pose proof (row_y_bounds Hv Hj) as Hy. fold y in Hy.
  pose proof (row_radius_square vSeg j) as Hr. fold r y in Hr.
  pose proof (sin2_cos2 beta) as Hsc. unfold Rsqr in Hsc.
  assert (Ha : 0 <= Rabs y <= 1).
  { split; [apply Rabs_pos|]. apply Rabs_le. lra. }
  assert (Hy2 : y * y = Rabs y * Rabs y).
  { rewrite <- Rabs_mult. symmetry. apply Rabs_pos_eq. nra. }
  replace (r * cos beta * (r * cos beta) + y * y + r * sin beta * (r * sin beta))
    with (r * r * (sin beta * sin beta + cos beta * cos beta) + y * y) by ring.
  rewrite Hsc, Hy2, Hr.
  set (t := Rabs y) in *.
  assert (H1 : 0 <= 1 - t <= 1) by lra.
  assert (H2 : (1 - t) ^ 2 <= 1 - t) by nra.
  assert (H3 : 0 <= (1 - t) ^ 2) by nra.
  nra.
Qed.
End RowsAndColumns.

(** The texture coordinates of column [i] and row [j]. *)
Lemma texCoords_at {num : Type} `{Number num} (uSeg vSeg i j : nat) :
  i <= uSeg -> j <= vSeg ->
  get (mesh_texCoords uSeg vSeg) (2 * (j * (uSeg + 1) + i)) = grid_u uSeg i
  /\ get (mesh_texCoords uSeg vSeg) (2 * (j * (uSeg + 1) + i) + 1)
     = grid_v vSeg j.
Proof.
  intros Hi Hj. unfold mesh_texCoords, get.
  rewrite <- (Nat.add_0_r (2 * (j * (uSeg + 1) + i))) at 1.
  rewrite !(@nth_grid_layout _ uSeg vSeg 2
              (fun i j => [grid_u uSeg i; grid_v vSeg j]) i j)
    by (try reflexivity; lia).
  split; reflexivity.
Qed.

Lemma length_mesh_texCoords {num : Type} `{Number num} (uSeg vSeg : nat) :
  length (mesh_texCoords uSeg vSeg) = 2 * ((uSeg + 1) * (vSeg + 1)).
Proof.
  unfold mesh_texCoords. apply length_grid_layout. reflexivity.
Qed.

Lemma length_mesh_tangents {num : Type} `{Number num} (uSeg vSeg : nat) :
  length (mesh_tangents uSeg vSeg) = 3 * ((uSeg + 1) * (vSeg + 1)).
Proof.
  unfold mesh_tangents. apply length_grid_layout.
  intros i j. apply length_entries3.
Qed.


Lemma unit_fraction (n k : nat) :
  1 <= n -> k <= n -> (0 <= INR k / INR n <= 1)%R.
Proof.
  intros Hn Hk.
  assert (H0 : (0 < INR n)%R) by (apply lt_0_INR; lia).
  assert (H1 : (0 <= INR k)%R) by apply pos_INR.
  assert (H2 : (INR k <= INR n)%R) by (apply le_INR; exact Hk).
  split.
  - apply Rmult_le_pos; [exact H1|]. left. apply Rinv_0_lt_compat. exact H0.
  - apply (Rmult_le_reg_r (INR n)); [exact H0|].
    unfold Rdiv. rewrite Rmult_assoc, Rinv_l by lra. lra.
Qed.


(** ** The two tips *)

Lemma add3_zero (t : xreal * xreal * xreal) : add3 t zero_vector = t.
Proof.
  destruct t as [[x y] z]. unfold add3, zero_vector.
  assert (E : forall w : xreal, (w + Fin 0)%num = w).
  { intros [|a]; [reflexivity|].
    cbn [num_add RealNumber xlift2]. f_equal. lra. }
  rewrite !E. reflexivity.
Qed.

Lemma faceNormal_zero (positions : list xreal) (i0 i1 i2 : option nat) :
  edgeCross positions i0 i1 i2 = zero_vector ->
  faceNormal positions i0 i1 i2 = zero_vector.
Proof.
  intros Hc.
  assert (Hl : euclidean_length (edgeCross positions i0 i1 i2) = Some 0%R).
  { rewrite Hc. unfold zero_vector. cbn [euclidean_length]. f_equal.
    replace (0 * 0 + 0 * 0 + 0 * 0)%R with 0%R by ring. apply sqrt_0. }
  rewrite (proj2 (@faceNormal_on_reals positions i0 i1 i2 0%R Hl)) by lra.
  exact Hc.
Qed.

(** A face whose edge cross product is the zero vector leaves the array of
    normals as it finds it. *)
Lemma accumulateFace_zero (positions normals : list xreal) (indices : list nat)
    (t i0 i1 i2 n : nat) :
  triangle_at indices t = Some (i0, i1, i2) ->
  i0 <> i1 -> i0 <> i2 -> i1 <> i2 ->
  i0 < n -> i1 < n -> i2 < n ->
  length normals = 3 * n ->
  edgeCross positions (Some i0) (Some i1) (Some i2) = zero_vector ->
  Flat.accumulateFace positions indices (3 * t) normals = normals.
Proof.
  intros Ht D01 D02 D12 B0 B1 B2 Hlen Hc.
  apply (@triples_ext _ _ _ normals n); [|exact Hlen|].
  - rewrite accumulateFace_deposit.
    destruct (triangle_at_nth_error indices t Ht) as (E0 & E1 & E2).
    rewrite E0, E1, E2.
    rewrite length_deposit; [exact Hlen|].
    intros k [E|[E|E]]; injection E as <-; lia.
  - intros k Hk.
    rewrite (@accumulateFace_triple _ _ positions normals indices t i0 i1 i2 k
               Ht D01 D02 D12) by lia.
    rewrite (@faceNormal_zero positions (Some i0) (Some i1) (Some i2) Hc), add3_zero.
    destruct (_ || _); reflexivity.
Qed.

(** The edge cross product of a triangle with two corners at the same
    point. *)
Lemma edge_cross_first_last (a b : R * R * R) :
  edge_cross (Fin3 a) (Fin3 b) (Fin3 a) = zero_vector.
Proof.
  destruct a as [[ax ay] az], b as [[bx by'] bz].
  unfold edge_cross, Fin3, zero_vector.
  cbn [num_sub num_mul RealNumber xlift2].
  f_equal; [f_equal|]; f_equal; ring.
Qed.

Lemma edge_cross_last_two (a b : R * R * R) :
  edge_cross (Fin3 a) (Fin3 b) (Fin3 b) = zero_vector.
Proof.
  destruct a as [[ax ay] az], b as [[bx by'] bz].
  unfold edge_cross, Fin3, zero_vector.
  cbn [num_sub num_mul RealNumber xlift2].
  f_equal; [f_equal|]; f_equal; ring.
Qed.

(** The two tips of the mesh: every vertex of the bottom row is the point
    (0, -1, 0), every vertex of the top row the point (0, 1, 0). *)
Lemma mesh_tips (uSeg vSeg i : nat) :
  1 <= uSeg -> 1 <= vSeg -> i <= uSeg ->
  triple_at (@mesh_positions xreal _ uSeg vSeg) i = Fin3 (0, -1, 0)%R
  /\ triple_at (@mesh_positions xreal _ uSeg vSeg) (vSeg * (uSeg + 1) + i)
     = Fin3 (0, 1, 0)%R.
Proof.
  intros Hu Hv Hi. split.
  - replace i with (0 * (uSeg + 1) + i) at 1 by lia.
    rewrite mesh_position_at by lia.
    rewrite row_radius_bottom, row_y_bottom. unfold Fin3.
    f_equal; [f_equal|]; f_equal; ring.
  - rewrite mesh_position_at by lia.
    rewrite (row_radius_top Hv), (row_y_top Hv). unfold Fin3.
    f_equal; [f_equal|]; f_equal; ring.
Qed.

Lemma mesh_position_real (uSeg vSeg k : nat) :
  1 <= uSeg -> 1 <= vSeg -> k < (uSeg + 1) * (vSeg + 1) ->
  exists pt : R * R * R,
    triple_at (@mesh_positions xreal _ uSeg vSeg) k = Fin3 pt.
Proof.
  intros Hu Hv Hk.
  destruct (vertex_column_row uSeg vSeg Hk) as (i & j & Hi & Hj & ->).
  rewrite mesh_position_at by assumption.
  eexists (_, _, _). reflexivity.
Qed.

Lemma tip_faces (uSeg vSeg i : nat) :
  1 <= uSeg -> 1 <= vSeg -> i < uSeg ->
  let positions := @mesh_positions xreal _ uSeg vSeg in
  let indices := Flat.buildIndices uSeg vSeg in
  triangle_at indices (2 * i) = Some (i, i + (uSeg + 1), i + 1)
  /\ triangle_at indices (2 * ((vSeg - 1) * uSeg + i) + 1)
     = Some ((vSeg - 1) * (uSeg + 1) + i + 1,
             vSeg * (uSeg + 1) + i,
             vSeg * (uSeg + 1) + i + 1)
  /\ edgeCross positions (Some i) (Some (i + (uSeg + 1))) (Some (i + 1))
     = zero_vector
  /\ edgeCross positions (Some ((vSeg - 1) * (uSeg + 1) + i + 1))
       (Some (vSeg * (uSeg + 1) + i)) (Some (vSeg * (uSeg + 1) + i + 1))
     = zero_vector.
Proof.
  intros Hu Hv Hi positions indices.
  destruct (@buildIndices_triangles uSeg vSeg i 0 Hi ltac:(lia)) as [Tb _].
  destruct (@buildIndices_triangles uSeg vSeg i (vSeg - 1) Hi ltac:(lia))
    as [_ Tt].
  unfold quad_i3, quad_i2, quad_i1, quad_i0 in Tb, Tt.
  rewrite !Nat.mul_0_l, !Nat.add_0_l in Tb.
  replace ((vSeg - 1) * (uSeg + 1) + i + (uSeg + 1))
    with (vSeg * (uSeg + 1) + i) in Tt by nia.
  repeat split.
  - exact Tb.
  - exact Tt.
  - rewrite edgeCross_triples. subst positions.
    destruct (@mesh_tips uSeg vSeg i Hu Hv ltac:(lia)) as [-> _].
    destruct (@mesh_tips uSeg vSeg (i + 1) Hu Hv ltac:(lia)) as [-> _].
    destruct (@mesh_position_real uSeg vSeg (i + (uSeg + 1)) Hu Hv ltac:(nia))
      as [b ->].
    apply edge_cross_first_last.
  - rewrite edgeCross_triples. subst positions.
    destruct (@mesh_tips uSeg vSeg i Hu Hv ltac:(lia)) as [_ ->].
    destruct (@mesh_tips uSeg vSeg (i + 1) Hu Hv ltac:(lia)) as [_ E].
    rewrite Nat.add_assoc in E. rewrite E.
    destruct (@mesh_position_real uSeg vSeg ((vSeg - 1) * (uSeg + 1) + i + 1)
                Hu Hv ltac:(nia)) as [a ->].
    apply edge_cross_last_two.
Qed.

(** X6. In exact real arithmetic, for every uSegments >= 1 and
    vSegments >= 1, every vertex of the bottom row of the mesh is the point
    (0, -1, 0) and every vertex of the top row the point (0, 1, 0).  The
    first triangle of a quad of the bottom row and the second triangle of a
    quad of the top row have two corners at a tip: their edge cross product
    is the zero vector, and the accumulation step of such a triangle leaves
    the array of normals as it finds it. *)
Theorem tip_faces_add_nothing :
  forall (uSegments vSegments i : nat) (normals : list xreal),
    1 <= uSegments -> 1 <= vSegments -> i < uSegments ->
    length normals = 3 * ((uSegments + 1) * (vSegments + 1)) ->
    let mesh :=
      @Flat.CreateSurfaceData xreal _ (Some uSegments) (Some vSegments) in
    let positions := Flat.positions mesh in
    let indices := Flat.indices mesh in
    let rowWidth := uSegments + 1 in
    let bottom := 2 * i in
    let top := 2 * ((vSegments - 1) * uSegments + i) + 1 in
    (forall c, c <= uSegments ->
       triple_at positions c = (Fin 0, Fin (-1), Fin 0)
       /\ triple_at positions (vSegments * rowWidth + c)
          = (Fin 0, Fin 1, Fin 0))
    /\ triangle_at indices bottom = Some (i, i + rowWidth, i + 1)
    /\ triangle_at indices top
       = Some ((vSegments - 1) * rowWidth + i + 1,
               vSegments * rowWidth + i,
               vSegments * rowWidth + i + 1)
    /\ edgeCross positions (Some i) (Some (i + rowWidth)) (Some (i + 1))
       = zero_vector
    /\ edgeCross positions (Some ((vSegments - 1) * rowWidth + i + 1))
         (Some (vSegments * rowWidth + i))
         (Some (vSegments * rowWidth + i + 1))
       = zero_vector
    /\ Flat.accumulateFace positions indices (3 * bottom) normals = normals
    /\ Flat.accumulateFace positions indices (3 * top) normals = normals.
Proof.
  intros uSegments vSegments i normals Hu Hv Hi Hlen
         mesh positions indices rowWidth bottom top.
  subst mesh positions indices rowWidth bottom top.
  rewrite Flat_CreateSurfaceData_unfold.
  cbn [Flat.positions Flat.indices].
  destruct (@tip_faces uSegments vSegments i Hu Hv Hi)
    as (Tb & Tt & Cb & Ct).
  split; [|repeat split; try assumption].
  - intros c Hc. apply (@mesh_tips uSegments vSegments c Hu Hv Hc).
  - apply (@accumulateFace_zero _ normals _ _ _ _ _
             ((uSegments + 1) * (vSegments + 1)) Tb); try lia; try nia.
    exact Cb.
  - apply (@accumulateFace_zero _ normals _ _ _ _ _
             ((uSegments + 1) * (vSegments + 1)) Tt); try lia; try nia.
    exact Ct.
Qed.

Lemma tip_faces_add_nothing_at_4_2 :
  let normals := @zero_normals xreal _ 4 2 in
  let mesh := @Flat.CreateSurfaceData xreal _ (Some 4) (Some 2) in
  let positions := Flat.positions mesh in
  let indices := Flat.indices mesh in
  let rowWidth := 4 + 1 in
  let bottom := 2 * 1 in
  let top := 2 * ((2 - 1) * 4 + 1) + 1 in
  (forall c, c <= 4 ->
     triple_at positions c = (Fin 0, Fin (-1), Fin 0)
     /\ triple_at positions (2 * rowWidth + c) = (Fin 0, Fin 1, Fin 0))
  /\ triangle_at indices bottom = Some (1, 1 + rowWidth, 1 + 1)
  /\ triangle_at indices top
     = Some ((2 - 1) * rowWidth + 1 + 1, 2 * rowWidth + 1,
             2 * rowWidth + 1 + 1)
  /\ edgeCross positions (Some 1) (Some (1 + rowWidth)) (Some (1 + 1))
     = zero_vector
  /\ edgeCross positions (Some ((2 - 1) * rowWidth + 1 + 1))
       (Some (2 * rowWidth + 1)) (Some (2 * rowWidth + 1 + 1))
     = zero_vector
  /\ Flat.accumulateFace positions indices (3 * bottom) normals = normals
  /\ Flat.accumulateFace positions indices (3 * top) normals = normals.
Proof.
  apply (@tip_faces_add_nothing 4 2 1 (@zero_normals xreal _ 4 2));
    [lia|lia|lia|apply length_zero_normals].
Defined.

(** ** The seam *)



(** ** Symmetry and extent *)



(** X9. In exact real arithmetic, for every uSegments >= 1 and
    vSegments >= 1, every vertex (x, y, z) of the mesh lies in the unit
    ball around the origin: x^2 + y^2 + z^2 <= 1, with y between -1 and
    1. *)
Theorem mesh_in_unit_ball :
  forall (uSegments vSegments k : nat),
    1 <= uSegments -> 1 <= vSegments ->
    k < (uSegments + 1) * (vSegments + 1) ->
    let positions :=
      Flat.positions
        (@Flat.CreateSurfaceData xreal _ (Some uSegments) (Some vSegments)) in
    exists x y z : R,
      triple_at positions k = (Fin x, Fin y, Fin z)
      /\ (x * x + y * y + z * z <= 1)%R
      /\ (-1 <= y <= 1)%R.
Proof.
  intros uSegments vSegments k Hu Hv Hk positions. subst positions.
  destruct (vertex_column_row uSegments vSegments Hk)
    as (i & j & Hi & Hj & ->).
  rewrite flat_position_at by assumption.
  eexists _, _, _. split; [reflexivity|]. split.
  - apply (@in_unit_ball vSegments j (column_beta uSegments i) Hv Hj).
  - apply row_y_bounds; assumption.
Qed.

Lemma mesh_in_unit_ball_at_4_2 :
  let positions :=
    Flat.positions (@Flat.CreateSurfaceData xreal _ (Some 4) (Some 2)) in
  exists x y z : R,
    triple_at positions 7 = (Fin x, Fin y, Fin z)
    /\ (x * x + y * y + z * z <= 1)%R
    /\ (-1 <= y <= 1)%R.
Proof.
  apply (@mesh_in_unit_ball 4 2 7); lia.
Defined.

(** ** Resolutions zero and one *)

Lemma buildIndices_empty (uSeg vSeg : nat) :
  uSeg = 0 \/ vSeg = 0 -> Flat.buildIndices uSeg vSeg = [].
Proof.
  intros H0. apply length_zero_iff_nil.
  rewrite length_buildIndices. destruct H0 as [-> | ->]; lia.
Qed.

Lemma normalize3_zero :
  @normalize3 xreal _ (literal 0.0, literal 0.0, literal 0.0) = fallback.
Proof.
  unfold normalize3, fallback.
  cbn [literal RealNumber Math_hypot xhypot num_gt].
  rewrite Q2R_0_0, Q2R_eps.
  replace (0 * 0 + 0 * 0 + 0 * 0)%R with 0%R by ring. rewrite sqrt_0.
  replace (xgt (Fin 0) (Fin (1 / 1000000))) with false
    by (symmetry; apply xgt_false_Fin; lra).
  reflexivity.
Qed.

Lemma xmul_NaN_r (x : xreal) : (x * RNaN)%num = RNaN.
Proof. destruct x; reflexivity. Qed.

(** With a resolution of zero the quotient [0 / 0] of the grid loops is
    [NaN], and so are the first and the last coordinate of every vertex. *)
Lemma grid_vertex_zero_resolution (uSeg vSeg i j : nat) :
  uSeg = 0 \/ vSeg = 0 ->
  exists y : xreal,
    @grid_vertex xreal _ uSeg vSeg (literal 1.0) (literal 0.5) i j
    = (RNaN, y, RNaN).
Proof.
  intros H0. unfold grid_vertex, Flat.parabolicHummingTopVertex.
  eexists. f_equal; [f_equal|].
  - destruct H0 as [-> | ->].
    + unfold grid_beta, grid_u.
      cbn [of_count num_div RealNumber INR xdiv].
      destruct (Req_dec_T 0 0) as [_|Hn]; [|contradiction Hn; reflexivity].
      cbn [literal Math_PI num_mul RealNumber xlift2 Math_cos xlift1].
      apply xmul_NaN_r.
    + unfold grid_y, grid_v.
      cbn [of_count num_div RealNumber INR xdiv].
      destruct (Req_dec_T 0 0) as [_|Hn]; [|contradiction Hn; reflexivity].
      reflexivity.
  - destruct H0 as [-> | ->].
    + unfold grid_beta, grid_u.
      cbn [of_count num_div RealNumber INR xdiv].
      destruct (Req_dec_T 0 0) as [_|Hn]; [|contradiction Hn; reflexivity].
      cbn [literal Math_PI num_mul RealNumber xlift2 Math_sin xlift1].
      apply xmul_NaN_r.
    + unfold grid_y, grid_v.
      cbn [of_count num_div RealNumber INR xdiv].
      destruct (Req_dec_T 0 0) as [_|Hn]; [|contradiction Hn; reflexivity].
      reflexivity.
Qed.

(** X10. The flat-shaded variant takes a resolution of zero as it is.  With
    uSeg = 0 or vSeg = 0 its mesh has no triangle; the grid loops divide
    zero by zero, so that the first and the last coordinate of every vertex
    are NaN; and, no face normal being accumulated, every normal is the
    fallback (0, 1, 0).  In exact real arithmetic, where 0 / 0 is NaN as
    in JavaScript. *)
Theorem zero_resolution_flat :
  forall (uSeg vSeg : nat),
    uSeg = 0 \/ vSeg = 0 ->
    let mesh := @Flat.CreateSurfaceData xreal _ (Some uSeg) (Some vSeg) in
    Flat.indices mesh = []
    /\ length (Flat.positions mesh) = 3 * ((uSeg + 1) * (vSeg + 1))
    /\ length (Flat.normals mesh) = 3 * ((uSeg + 1) * (vSeg + 1))
    /\ forall k, k < (uSeg + 1) * (vSeg + 1) ->
         (exists y : xreal, triple_at (Flat.positions mesh) k = (RNaN, y, RNaN))
         /\ triple_at (Flat.normals mesh) k = fallback.
Proof.
  intros uSeg vSeg H0 mesh. subst mesh.
  rewrite Flat_CreateSurfaceData_unfold.
  cbn [Flat.indices Flat.positions Flat.normals].
  rewrite (buildIndices_empty H0).
  assert (Eacc : Flat.accumulateNormalsFromIndices
                   (@mesh_positions xreal _ uSeg vSeg)
                   (zero_normals uSeg vSeg) []
                 = zero_normals uSeg vSeg).
  { unfold Flat.accumulateNormalsFromIndices, for_step3.
    apply for_loop_empty. cbn. lia. }
  rewrite Eacc.
  destruct (@normalizeNormals_triples xreal _ (zero_normals uSeg vSeg)
              ((uSeg + 1) * (vSeg + 1)) (length_zero_normals uSeg vSeg))
    as [Hl Ht].
  split; [reflexivity|]. split; [apply length_mesh_positions|].
  split; [exact Hl|].
  intros k Hk. split.
  - destruct (vertex_column_row uSeg vSeg Hk) as (i & j & Hi & Hj & ->).
    unfold mesh_positions. rewrite triple_at_grid_layout by assumption.
    apply grid_vertex_zero_resolution. exact H0.
  - rewrite (Ht k Hk), triple_at_zero_normals by exact Hk.
    apply normalize3_zero.
Qed.

Lemma zero_resolution_flat_at_0_3 :
  let mesh := @Flat.CreateSurfaceData xreal _ (Some 0) (Some 3) in
  Flat.indices mesh = []
  /\ length (Flat.positions mesh) = 3 * ((0 + 1) * (3 + 1))
  /\ length (Flat.normals mesh) = 3 * ((0 + 1) * (3 + 1))
  /\ forall k, k < (0 + 1) * (3 + 1) ->
       (exists y : xreal, triple_at (Flat.positions mesh) k = (RNaN, y, RNaN))
       /\ triple_at (Flat.normals mesh) k = fallback.
Proof.
  apply (@zero_resolution_flat 0 3). left. reflexivity.
Defined.





(** ** Texture coordinates *)

(** X12. For every uSegments >= 1 and vSegments >= 1 the textured variant
    gives every vertex two texture coordinates and three tangent entries.
    The texture coordinates of the vertex of column i and row j are
    (i / uSegments, j / vSegments); in exact real arithmetic both lie
    between 0 and 1. *)
Theorem texture_coordinates :
  forall (uSegments vSegments i j : nat),
    1 <= uSegments -> 1 <= vSegments -> i <= uSegments -> j <= vSegments ->
    let vertices := (uSegments + 1) * (vSegments + 1) in
    let k := j * (uSegments + 1) + i in
    (forall (num : Type) (N : Number num),
        let mesh :=
          Textured.CreateSurfaceData (Some uSegments) (Some vSegments) in
        length (Textured.texCoords mesh) = 2 * vertices
        /\ length (Textured.tangents mesh) = 3 * vertices
        /\ get (Textured.texCoords mesh) (2 * k)
           = (of_count i / of_count uSegments)%num
        /\ get (Textured.texCoords mesh) (2 * k + 1)
           = (of_count j / of_count vSegments)%num)
    /\ let mesh :=
         @Textured.CreateSurfaceData xreal _ (Some uSegments) (Some vSegments) in
       get (Textured.texCoords mesh) (2 * k) = Fin (INR i / INR uSegments)
       /\ get (Textured.texCoords mesh) (2 * k + 1)
          = Fin (INR j / INR vSegments)
       /\ (0 <= INR i / INR uSegments <= 1)%R
       /\ (0 <= INR j / INR vSegments <= 1)%R.
Proof.
  intros uSegments vSegments i j Hu Hv Hi Hj vertices k. subst vertices k.
  assert (G : forall (num : Type) (N : Number num),
             let mesh :=
               Textured.CreateSurfaceData (Some uSegments) (Some vSegments) in
             length (Textured.texCoords mesh)
             = 2 * ((uSegments + 1) * (vSegments + 1))
             /\ length (Textured.tangents mesh)
                = 3 * ((uSegments + 1) * (vSegments + 1))
             /\ get (Textured.texCoords mesh)
                  (2 * (j * (uSegments + 1) + i))
                = (of_count i / of_count uSegments)%num
             /\ get (Textured.texCoords mesh)
                  (2 * (j * (uSegments + 1) + i) + 1)
                = (of_count j / of_count vSegments)%num).
  { intros num N mesh. subst mesh.
    rewrite (@Textured_mesh num N uSegments vSegments Hu Hv).
    cbn [Textured.texCoords Textured.tangents].
    destruct (@texCoords_at num N uSegments vSegments i j Hi Hj) as [Eu Ev].
    repeat split.
    - apply length_mesh_texCoords.
    - apply length_mesh_tangents.
    - exact Eu.
    - exact Ev. }
  split; [exact G|].
  intros mesh. destruct (G xreal _) as (_ & _ & Eu & Ev). fold mesh in Eu, Ev.
  rewrite Eu, Ev. cbn [of_count num_div RealNumber].
  rewrite !xdiv_Fin by (apply INR_nonzero; assumption).
  repeat split; try apply unit_fraction; assumption.
Qed.

Lemma texture_coordinates_at_4_2 :
  let vertices := (4 + 1) * (2 + 1) in
  let k := 1 * (4 + 1) + 3 in
  (forall (num : Type) (N : Number num),
      let mesh := Textured.CreateSurfaceData (Some 4) (Some 2) in
      length (Textured.texCoords mesh) = 2 * vertices
      /\ length (Textured.tangents mesh) = 3 * vertices
      /\ get (Textured.texCoords mesh) (2 * k) = (of_count 3 / of_count 4)%num
      /\ get (Textured.texCoords mesh) (2 * k + 1)
         = (of_count 1 / of_count 2)%num)
  /\ let mesh := @Textured.CreateSurfaceData xreal _ (Some 4) (Some 2) in
     get (Textured.texCoords mesh) (2 * k) = Fin (INR 3 / INR 4)
     /\ get (Textured.texCoords mesh) (2 * k + 1) = Fin (INR 1 / INR 2)
     /\ (0 <= INR 3 / INR 4 <= 1)%R
     /\ (0 <= INR 1 / INR 2 <= 1)%R.
Proof.
  apply (@texture_coordinates 4 2 3 1); lia.
Defined.

(** ** Tangents *)

Lemma derivative_of_x (r beta : R) :
  derivable_pt_lim (fun b => r * cos b)%R beta (- r * sin beta)%R.
Proof.
  replace (- r * sin beta)%R with (r * - sin beta)%R by ring.
  apply (derivable_pt_lim_scal cos r beta). apply derivable_pt_lim_cos.
Qed.

Lemma derivative_of_z (r beta : R) :
  derivable_pt_lim (fun b => r * sin b)%R beta (r * cos beta)%R.
Proof.
  apply (derivable_pt_lim_scal sin r beta). apply derivable_pt_lim_sin.
Qed.

(** The surface function along a row of the mesh. *)
Lemma vertex_along_row (vSeg j : nat) (b : R) :
  1 <= vSeg ->
  @Textured.parabolicHummingTopVertex xreal _
    (Fin (row_y vSeg j)) (Fin b) (literal 1.0) (literal 0.5)
  = (Fin (row_radius vSeg j * cos b), Fin (row_y vSeg j),
     Fin (row_radius vSeg j * sin b)).
Proof.
  intros Hv. unfold Textured.parabolicHummingTopVertex, row_radius.
  cbn [literal Math_abs Math_cos Math_sin num_sub num_mul num_div
       RealNumber xlift1 xlift2].
  rewrite Q2R_1_0, Q2R_0_5, Q2R_2.
  rewrite xdiv_Fin by lra.
  cbn [xlift2]. f_equal; [f_equal|]; f_equal; field.
Qed.

(** X13. In exact real arithmetic, for every uSegments >= 1 and
    vSegments >= 1, the tangent that the textured variant stores at the
    vertex of column i and row j is the derivative, with respect to the
    angle beta and at the angle of the column, of the surface point of the
    row: along the row the surface function gives (X(b), y, Z(b)), the
    vertex is (X(beta), y, Z(beta)) and the tangent is
    (X'(beta), 0, Z'(beta)).  The tangent is orthogonal to the position
    vector. *)
Theorem tangent_is_derivative :
  forall (uSegments vSegments i j : nat),
    1 <= uSegments -> 1 <= vSegments -> i <= uSegments -> j <= vSegments ->
    let mesh :=
      @Textured.CreateSurfaceData xreal _ (Some uSegments) (Some vSegments) in
    let k := j * (uSegments + 1) + i in
    let y := row_y vSegments j in
    let beta := column_beta uSegments i in
    exists (X Z : R -> R) (tx tz : R),
      (forall b : R,
          Textured.parabolicHummingTopVertex (Fin y) (Fin b) (literal 1.0)
            (literal 0.5)
          = (Fin (X b), Fin y, Fin (Z b)))
      /\ triple_at (Textured.positions mesh) k
         = (Fin (X beta), Fin y, Fin (Z beta))
      /\ triple_at (Textured.tangents mesh) k = (Fin tx, Fin 0, Fin tz)
      /\ derivable_pt_lim X beta tx
      /\ derivable_pt_lim Z beta tz
      /\ (tx * X beta + 0 * y + tz * Z beta = 0)%R.
Proof.
  intros uSegments vSegments i j Hu Hv Hi Hj mesh k y beta.
  subst mesh k y beta.
  set (r := row_radius vSegments j).
  set (beta := column_beta uSegments i).
  exists (fun b => (r * cos b)%R), (fun b => (r * sin b)%R),
         (- r * sin beta)%R, (r * cos beta)%R.
  split; [|split; [|split; [|split; [|split]]]].
  - intros b. apply vertex_along_row. exact Hv.
  - apply position_at_grid; assumption.
  - apply tangent_at_grid; assumption.
  - apply derivative_of_x.
  - apply derivative_of_z.
  - ring.
Qed.

Lemma tangent_is_derivative_at_4_2 :
  let mesh := @Textured.CreateSurfaceData xreal _ (Some 4) (Some 2) in
  let k := 1 * (4 + 1) + 3 in
  let y := row_y 2 1 in
  let beta := column_beta 4 3 in
  exists (X Z : R -> R) (tx tz : R),
    (forall b : R,
        Textured.parabolicHummingTopVertex (Fin y) (Fin b) (literal 1.0)
          (literal 0.5)
        = (Fin (X b), Fin y, Fin (Z b)))
    /\ triple_at (Textured.positions mesh) k
       = (Fin (X beta), Fin y, Fin (Z beta))
    /\ triple_at (Textured.tangents mesh) k = (Fin tx, Fin 0, Fin tz)
    /\ derivable_pt_lim X beta tx
    /\ derivable_pt_lim Z beta tz
    /\ (tx * X beta + 0 * y + tz * Z beta = 0)%R.
Proof.
  apply (@tangent_is_derivative 4 2 3 1); lia.
Defined.

(** ** The polylines of the wireframe and the grid *)

Lemma nth_map_seq {A : Type} (f : nat -> A) (n k : nat) (d : A) :
  k < n -> nth k (map f (seq 0 n)) d = f k.
Proof.
  intros Hk. apply nth_error_nth.
  rewrite nth_error_map, nth_error_seq.
  destruct (Nat.ltb_spec k n) as [_|?]; [reflexivity|lia].
Qed.

Lemma length_concat_uniform {A : Type} (lines : list (list A)) (c : nat) :
  (forall line, In line lines -> length line = c) ->
  length (concat lines) = c * length lines.
Proof.
  induction lines as [|l ls IH]; intros Hc; cbn [concat length]; [lia|].
  rewrite length_app, (Hc l) by (left; reflexivity).
  rewrite IH by (intros line Hl; apply Hc; right; exact Hl). lia.
Qed.

Section PolylineVertices.
Context {num : Type} `{Number num}.

Lemma uLine_row (h p : num) (vSegments uSegments j : nat) :
  j <= vSegments ->
  nth j (Wireframe.generateULines h p vSegments uSegments) []
  = flat_map (fun i =>
      entries3 (Wireframe.parabolicHummingTopVertex
                  (line_y h vSegments j) (line_beta uSegments i) h p))
      (seq 0 (uSegments + 1)).
Proof.
  intros Hj. rewrite generateULines_map.
  rewrite nth_map_seq by lia. reflexivity.
Qed.

Lemma vLine_column (h p : num) (vSegments uSegments i : nat) :
  i <= uSegments ->
  nth i (Wireframe.generateVLines h p vSegments uSegments) []
  = flat_map (fun j =>
      entries3 (Wireframe.parabolicHummingTopVertex
                  (line_y h vSegments j) (line_beta uSegments i) h p))
      (seq 0 (vSegments + 1)).
Proof.
  intros Hi. rewrite generateVLines_map.
  rewrite nth_map_seq by lia. reflexivity.
Qed.

Lemma triple_at_flat_map (cell : nat -> num * num * num) (n k : nat) :
  k < n ->
  triple_at (flat_map (fun i => entries3 (cell i)) (seq 0 n)) k = cell k.
Proof.
  intros Hk. unfold triple_at, get.
  rewrite <- (Nat.add_0_r (3 * k)) at 1.
  rewrite !(@nth_flat_map_seq _ (fun i => entries3 (cell i)) 3 n k)
    by (try (intros; apply length_entries3); lia).
  destruct (cell k) as [[x y] z]. reflexivity.
Qed.

Lemma uLine_vertex (h p : num) (vSegments uSegments i j : nat) :
  i <= uSegments -> j <= vSegments ->
  triple_at (nth j (Wireframe.generateULines h p vSegments uSegments) []) i
  = Wireframe.parabolicHummingTopVertex
      (line_y h vSegments j) (line_beta uSegments i) h p.
Proof.
  intros Hi Hj. rewrite uLine_row by exact Hj.
  apply (triple_at_flat_map
           (fun i => Wireframe.parabolicHummingTopVertex
                       (line_y h vSegments j) (line_beta uSegments i) h p)).
  lia.
Qed.

Lemma vLine_vertex (h p : num) (vSegments uSegments i j : nat) :
  i <= uSegments -> j <= vSegments ->
  triple_at (nth i (Wireframe.generateVLines h p vSegments uSegments) []) j
  = Wireframe.parabolicHummingTopVertex
      (line_y h vSegments j) (line_beta uSegments i) h p.
Proof.
  intros Hi Hj. rewrite vLine_column by exact Hi.
  apply (triple_at_flat_map
           (fun j => Wireframe.parabolicHummingTopVertex
                       (line_y h vSegments j) (line_beta uSegments i) h p)).
  lia.
Qed.

Lemma length_uLines (h p : num) (vSegments uSegments : nat) :
  length (Wireframe.generateULines h p vSegments uSegments) = vSegments + 1
  /\ forall line,
       In line (Wireframe.generateULines h p vSegments uSegments) ->
       length line = 3 * (uSegments + 1).
Proof.
  rewrite generateULines_map, length_map, length_seq.
  split; [reflexivity|].
  intros line Hin. apply in_map_iff in Hin as (j & <- & _).
  apply length_flat_map_seq. intros i. apply length_entries3.
Qed.

Lemma length_vLines (h p : num) (vSegments uSegments : nat) :
  length (Wireframe.generateVLines h p vSegments uSegments) = uSegments + 1
  /\ forall line,
       In line (Wireframe.generateVLines h p vSegments uSegments) ->
       length line = 3 * (vSegments + 1).
Proof.
  rewrite generateVLines_map, length_map, length_seq.
  split; [reflexivity|].
  intros line Hin. apply in_map_iff in Hin as (i & <- & _).
  apply length_flat_map_seq. intros j. apply length_entries3.
Qed.
End PolylineVertices.

(** X14. For all uSegments and vSegments, every i <= uSegments and
    j <= vSegments, vertex i of U-polyline j and vertex j of V-polyline i
    are the same point: the surface function at the height
    y = -h + (2*h*j)/vSegments of the row and the angle
    beta = (2*pi*i)/uSegments of the column.  Whatever the implementation
    of numbers. *)
Theorem polylines_cross_at_vertices :
  forall (num : Type) (N : Number num) (h p : num)
         (uSegments vSegments i j : nat),
    i <= uSegments -> j <= vSegments ->
    let uLines := Wireframe.generateULines h p vSegments uSegments in
    let vLines := Wireframe.generateVLines h p vSegments uSegments in
    let y := (- h + (literal 2 * h * of_count j) / of_count vSegments)%num in
    let beta :=
      ((literal 2 * Math_PI * of_count i) / of_count uSegments)%num in
    triple_at (nth j uLines []) i
    = Wireframe.parabolicHummingTopVertex y beta h p
    /\ triple_at (nth i vLines []) j
       = Wireframe.parabolicHummingTopVertex y beta h p
    /\ triple_at (nth j uLines []) i = triple_at (nth i vLines []) j.
Proof.
  intros num N h p uSegments vSegments i j Hi Hj uLines vLines y beta.
  subst uLines vLines y beta.
  rewrite (@uLine_vertex num N h p vSegments uSegments i j Hi Hj).
  rewrite (@vLine_vertex num N h p vSegments uSegments i j Hi Hj).
  repeat split; reflexivity.
Qed.

Lemma polylines_cross_at_vertices_at_64_40 :
  let uLines := Wireframe.uLines (@Wireframe.CreateSurfaceData xreal _) in
  let vLines := Wireframe.vLines (@Wireframe.CreateSurfaceData xreal _) in
  let h : xreal := literal 1.0 in
  let p : xreal := literal 0.5 in
  let y := (- h + (literal 2 * h * of_count 10) / of_count 40)%num in
  let beta := ((literal 2 * Math_PI * of_count 16) / of_count 64)%num in
  triple_at (nth 10 uLines []) 16
  = Wireframe.parabolicHummingTopVertex y beta h p
  /\ triple_at (nth 16 vLines []) 10
     = Wireframe.parabolicHummingTopVertex y beta h p
  /\ triple_at (nth 10 uLines []) 16 = triple_at (nth 16 vLines []) 10.
Proof.
  apply (@polylines_cross_at_vertices xreal _ (literal 1.0) (literal 0.5)
           64 40 16 10); lia.
Defined.



(** ** The buffer and the draw calls of the wireframe variant *)

Lemma map_nth_seq {A : Type} (l : list A) (d : A) :
  map (fun i => nth i l d) (seq 0 (length l)) = l.
Proof.
  apply (nth_ext _ _ d d).
  - rewrite length_map, length_seq. reflexivity.
  - intros i Hi. rewrite length_map, length_seq in Hi.
    rewrite (nth_indep _ d ((fun i => nth i l d) 0))
      by (rewrite length_map, length_seq; exact Hi).
    rewrite (map_nth (fun i => nth i l d)).
    rewrite seq_nth by exact Hi. reflexivity.
Qed.

(** A loop that appends one element per entry of an array. *)
Lemma for_loop_map {A B : Type} (f : A -> B) (l : list A) (d : A)
    (init : list B) :
  for_loop 0 (length l) (fun i acc => acc ++ [f (nth i l d)]) init
  = init ++ map f l.
Proof.
  rewrite (for_loop_push (fun i => [f (nth i l d)])).
  rewrite Nat.sub_0_r. f_equal.
  rewrite (flat_map_singleton (fun i => f (nth i l d))).
  rewrite <- (map_nth_seq l d) at 2. rewrite map_map. reflexivity.
Qed.

Section WireframeDraw.
Context {num : Type} `{Number num}.
Context {buffer uniform texture : Type}.

Lemma Draw_calls (this : @Wireframe.Model num buffer)
    (shProgram : @Wireframe.ShaderProgram uniform) :
  @Wireframe.Draw num _ buffer uniform texture this shProgram
  = [bindBuffer ARRAY_BUFFER (Wireframe.iVertexBuffer this);
     vertexAttribPointer (Wireframe.iAttribVertex shProgram) 3 FLOAT false 0 0;
     enableVertexAttribArray (Wireframe.iAttribVertex shProgram);
     uniform4fv (Wireframe.iColor shProgram)
       [literal 1.0; literal 0.6; literal 0.0; literal 1.0]]
    ++ map draw_line (Wireframe.uLineInfo this)
    ++ [uniform4fv (Wireframe.iColor shProgram)
          [literal 0.2; literal 0.7; literal 1.0; literal 1.0]]
    ++ map draw_line (Wireframe.vLineInfo this).
Proof.
  assert (E : forall l init,
             for_loop 0 (length l) (fun i calls =>
               calls ++ [drawArrays LINE_STRIP
                           (Wireframe.offset (nth i l Wireframe.no_info))
                           (Wireframe.count (nth i l Wireframe.no_info))])
               init
             = init ++ map (@draw_line num buffer uniform texture) l)
    by (intros l init;
        exact (for_loop_map (@draw_line num buffer uniform texture) l
                 Wireframe.no_info init)).
  unfold Wireframe.Draw. cbv zeta.
  rewrite !E, <- !app_assoc. reflexivity.
Qed.

Lemma filter_draw_lines (infos : list (@Wireframe.LineInfo num)) :
  filter is_draw (map (@draw_line num buffer uniform texture) infos)
  = map draw_line infos.
Proof.
  induction infos as [|info infos IH]; [reflexivity|].
  cbn [map filter draw_line is_draw]. f_equal. exact IH.
Qed.

Lemma Draw_draws (this : @Wireframe.Model num buffer)
    (shProgram : @Wireframe.ShaderProgram uniform) :
  filter is_draw
    (@Wireframe.Draw num _ buffer uniform texture this shProgram)
  = map draw_line (Wireframe.uLineInfo this ++ Wireframe.vLineInfo this).
Proof.
  rewrite Draw_calls, map_app.
  rewrite !filter_app, !filter_draw_lines. reflexivity.
Qed.
End WireframeDraw.

Lemma firstn_succ_nth {A : Type} (l : list A) (i : nat) (d : A) :
  i < length l -> firstn (i + 1) l = firstn i l ++ [nth i l d].
Proof.
  revert i. induction l as [|x l IH]; intros i Hi; cbn [length] in Hi; [lia|].
  destruct i as [|i]; [reflexivity|].
  cbn [Nat.add firstn nth app]. f_equal. apply IH. lia.
Qed.

(** Polylines of whole vertices. *)
Lemma whole_vertices_concat {A : Type} (lines : list (list A)) :
  (forall line, In line lines -> Nat.divide 3 (length line)) ->
  Nat.divide 3 (length (concat lines)).
Proof.
  induction lines as [|l ls IH]; intros Hw; cbn [concat].
  - cbn [length]. apply Nat.divide_0_r.
  - rewrite length_app. apply Nat.divide_add_r.
    + apply Hw. left. reflexivity.
    + apply IH. intros line Hl. apply Hw. right. exact Hl.
Qed.

Lemma divide_3_div (n : nat) : Nat.divide 3 n -> n = 3 * (n / 3).
Proof.
  intros [z ->]. rewrite Nat.div_mul by lia. lia.
Qed.

Lemma whole_vertices_firstn {A : Type} (lines : list (list A)) (k : nat) :
  (forall line, In line lines -> Nat.divide 3 (length line)) ->
  forall line, In line (firstn k lines) -> Nat.divide 3 (length line).
Proof.
  intros Hw line Hin. apply Hw.
  rewrite <- (firstn_skipn k lines). apply in_or_app. left. exact Hin.
Qed.

Lemma vertices_before_succ {A : Type} (lines : list (list A)) (i : nat) :
  (forall line, In line lines -> Nat.divide 3 (length line)) ->
  i < length lines ->
  vertices_before lines (i + 1)
  = vertices_before lines i + length (nth i lines []) / 3.
Proof.
  intros Hw Hi. unfold vertices_before.
  rewrite (@firstn_succ_nth _ lines i [] Hi), concat_app, length_app.
  cbn [concat]. rewrite app_nil_r.
  pose proof (@divide_3_div _
                (@whole_vertices_concat A _ (@whole_vertices_firstn A lines i Hw)))
    as Ha.
  pose proof (@divide_3_div _ (Hw _ (@nth_In _ i lines [] Hi))) as Hb.
  rewrite Ha at 1. rewrite Hb at 1.
  rewrite <- Nat.mul_add_distr_l, Nat.mul_comm, Nat.div_mul by lia.
  reflexivity.
Qed.

Lemma vertices_before_all {A : Type} (lines : list (list A)) :
  vertices_before lines (length lines) = length (concat lines) / 3.
Proof. unfold vertices_before. rewrite firstn_all. reflexivity. Qed.

Lemma Q2R_3 : Q2R 3 = 3%R.
Proof. unfold Q2R; cbn; lra. Qed.

Lemma Q2R_0 : Q2R 0 = 0%R.
Proof. unfold Q2R; cbn; lra. Qed.

(** [line.length / 3] for a polyline of whole vertices. *)
Lemma vertCount_on_reals (n : nat) :
  Nat.divide 3 n ->
  (of_count n / literal 3)%num = Fin (INR (n / 3)).
Proof.
  intros [z ->]. rewrite Nat.div_mul by lia.
  cbn [of_count literal num_div RealNumber]. rewrite Q2R_3.
  rewrite xdiv_Fin by lra. f_equal. rewrite mult_INR. cbn [INR]. field.
Qed.

Section WireframeBuffer.
Context {buffer uniform texture : Type}.

(** One loop of [BufferData] over polylines of whole vertices. *)
Lemma BufferData_loop (lines : list (list xreal))
    (infos : list (@Wireframe.LineInfo xreal)) (vertices : list xreal)
    (before : nat) :
  (forall line, In line lines -> Nat.divide 3 (length line)) ->
  for_loop 0 (length lines)
    (fun i '(lineInfo, vertices, currentOffset) =>
      let line := nth i lines [] in
      let vertCount := (of_count (length line) / literal 3)%num in
      let lineInfo :=
        lineInfo ++ [{| Wireframe.offset := currentOffset;
                        Wireframe.count := vertCount |}] in
      let vertices := vertices ++ line in
      let currentOffset := (currentOffset + vertCount)%num in
      (lineInfo, vertices, currentOffset))
    (infos, vertices, Fin (INR before))
  = (infos ++ map (line_info before lines) (seq 0 (length lines)),
     vertices ++ concat lines,
     Fin (INR (before + length (concat lines) / 3))).
Proof.
  intros Hw.
  rewrite <- (vertices_before_all lines).
  rewrite <- (firstn_all lines) at 4.
  pose (P := fun (i : nat)
                 (st : list (@Wireframe.LineInfo xreal) * list xreal * xreal) =>
    st = (infos ++ map (line_info before lines) (seq 0 i),
          vertices ++ concat (firstn i lines),
          Fin (INR (before + vertices_before lines i)))).
  apply (for_loop_invariant P); unfold P; [lia| |].
  - cbn [seq map firstn concat]. rewrite !app_nil_r.
    unfold vertices_before. cbn [firstn concat length].
    rewrite Nat.add_0_r. reflexivity.
  - intros i st Hi ->. cbv zeta.
    rewrite (@vertCount_on_reals _ (Hw _ (@nth_In _ i lines [] (proj2 Hi)))).
    rewrite (@vertices_before_succ _ lines i Hw (proj2 Hi)).
    rewrite (@firstn_succ_nth _ lines i [] (proj2 Hi)).
    rewrite concat_app. cbn [concat]. rewrite app_nil_r.
    rewrite seq_app, map_app. cbn [seq map Nat.add].
    rewrite <- !app_assoc.
    f_equal.
    cbn [num_add RealNumber xlift2]. f_equal.
    rewrite Nat.add_assoc, (plus_INR (before + vertices_before lines i)).
    reflexivity.
Qed.
End WireframeBuffer.

Section WireframeBufferData.
Context {buffer uniform texture : Type}.

(** [BufferData] on polylines of whole vertices. *)
Lemma BufferData_whole (this : @Wireframe.Model xreal buffer)
    (uLines vLines : list (list xreal)) :
  (forall line, In line (uLines ++ vLines) -> Nat.divide 3 (length line)) ->
  @Wireframe.BufferData xreal _ buffer uniform texture this uLines vLines
  = ({| Wireframe.iVertexBuffer := Wireframe.iVertexBuffer this;
        Wireframe.uLineInfo :=
          map (line_info 0 uLines) (seq 0 (length uLines));
        Wireframe.vLineInfo :=
          map (line_info (length (concat uLines) / 3) vLines)
              (seq 0 (length vLines)) |},
     [bindBuffer ARRAY_BUFFER (Wireframe.iVertexBuffer this);
      bufferData ARRAY_BUFFER (Float32Array (concat (uLines ++ vLines)))
        STATIC_DRAW]).
Proof.
  intros Hw.
  assert (Hu : forall line, In line uLines -> Nat.divide 3 (length line))
    by (intros line Hl; apply Hw, in_or_app; left; exact Hl).
  assert (Hv : forall line, In line vLines -> Nat.divide 3 (length line))
    by (intros line Hl; apply Hw, in_or_app; right; exact Hl).
  unfold Wireframe.BufferData. cbv zeta.
  replace (literal 0 : xreal) with (Fin (INR 0))
    by (cbn [literal RealNumber INR]; rewrite Q2R_0; reflexivity).
  pose proof (@BufferData_loop uLines [] [] 0 Hu) as Eu.
  cbv zeta in Eu. rewrite Eu. clear Eu.
  cbn [Nat.add app].
  pose proof (@BufferData_loop vLines [] (concat uLines)
                (length (concat uLines) / 3) Hv) as Ev.
  cbv zeta in Ev. rewrite Ev. clear Ev.
  cbn [app]. rewrite concat_app. reflexivity.
Qed.
End WireframeBufferData.

Lemma seq_from (a n : nat) : seq a n = map (fun k => a + k) (seq 0 n).
Proof.
  revert a. induction n as [|n IH]; intros a; cbn [seq map]; [reflexivity|].
  f_equal; [lia|].
  rewrite (IH (S a)), <- seq_shift, map_map.
  apply map_ext. intros k. lia.
Qed.

Lemma vertices_before_app_l {A : Type} (uLines vLines : list (list A)) (k : nat) :
  k <= length uLines ->
  vertices_before (uLines ++ vLines) k = vertices_before uLines k.
Proof.
  intros Hk. unfold vertices_before.
  rewrite firstn_app. replace (k - length uLines) with 0 by lia.
  cbn [firstn]. rewrite app_nil_r. reflexivity.
Qed.

Lemma vertices_before_app_r {A : Type} (uLines vLines : list (list A)) (k : nat) :
  (forall line, In line (uLines ++ vLines) -> Nat.divide 3 (length line)) ->
  vertices_before (uLines ++ vLines) (length uLines + k)
  = length (concat uLines) / 3 + vertices_before vLines k.
Proof.
  intros Hw. unfold vertices_before.
  rewrite firstn_app_2, concat_app, length_app.
  assert (Hu : Nat.divide 3 (length (concat uLines))).
  { apply whole_vertices_concat. intros line Hl.
    apply Hw, in_or_app. left. exact Hl. }
  assert (Hv : Nat.divide 3 (length (concat (firstn k vLines)))).
  { apply whole_vertices_concat. intros line Hl.
    apply Hw, in_or_app. right.
    rewrite <- (firstn_skipn k vLines). apply in_or_app. left. exact Hl. }
  rewrite (@divide_3_div _ Hu) at 1. rewrite (@divide_3_div _ Hv) at 1.
  rewrite <- Nat.mul_add_distr_l, Nat.mul_comm, Nat.div_mul by lia.
  reflexivity.
Qed.

(** The info records of the U polylines followed by those of the V
    polylines are the info records of all polylines in a row. *)
Lemma line_info_app (uLines vLines : list (list xreal)) :
  (forall line, In line (uLines ++ vLines) -> Nat.divide 3 (length line)) ->
  map (line_info 0 uLines) (seq 0 (length uLines))
  ++ map (line_info (length (concat uLines) / 3) vLines)
       (seq 0 (length vLines))
  = map (line_info 0 (uLines ++ vLines))
      (seq 0 (length (uLines ++ vLines))).
Proof.
  intros Hw. rewrite length_app, seq_app, map_app. f_equal.
  - apply map_ext_in. intros k Hk. apply in_seq in Hk.
    unfold line_info.
    rewrite vertices_before_app_l by lia.
    rewrite app_nth1 by lia. reflexivity.
  - cbn [Nat.add]. rewrite (seq_from (length uLines)), map_map.
    apply map_ext_in. intros k Hk. apply in_seq in Hk.
    unfold line_info.
    rewrite (@vertices_before_app_r _ uLines vLines k Hw).
    rewrite app_nth2 by lia.
    replace (length uLines + k - length uLines) with k by lia.
    reflexivity.
Qed.

(** The vertices of polyline [k] in the concatenation of the polylines. *)
Lemma vertex_range_line {A : Type} (lines : list (list A)) (k : nat) :
  (forall line, In line lines -> Nat.divide 3 (length line)) ->
  k < length lines ->
  vertex_range (concat lines) (vertices_before lines k)
    (length (nth k lines []) / 3)
  = nth k lines [].
Proof.
  intros Hw Hk. unfold vertex_range, vertices_before.
  rewrite <- (@divide_3_div _ (@whole_vertices_concat A _
                                 (@whole_vertices_firstn A lines k Hw))).
  rewrite <- (@divide_3_div _ (Hw _ (@nth_In _ k lines [] Hk))).
  assert (Hs : skipn k lines = nth k lines [] :: skipn (S k) lines).
  { clear Hw. revert k Hk.
    induction lines as [|l ls IH]; intros k Hk; cbn [length] in Hk; [lia|].
    destruct k as [|k]; [reflexivity|].
    cbn [skipn nth]. apply IH. lia. }
  assert (Hc : concat lines
               = concat (firstn k lines)
                 ++ nth k lines [] ++ concat (skipn (S k) lines)).
  { rewrite <- (firstn_skipn k lines) at 1.
    rewrite Hs, concat_app. reflexivity. }
  rewrite Hc, skipn_app, skipn_all, Nat.sub_diag.
  cbn [app skipn].
  rewrite firstn_app, firstn_all, Nat.sub_diag. cbn [firstn].
  apply app_nil_r.
Qed.

(** Polylines of [c] vertices each. *)
Lemma vertices_before_uniform {A : Type} (lines : list (list A)) (c k : nat) :
  (forall line, In line lines -> length line = 3 * c) ->
  k <= length lines ->
  vertices_before lines k = k * c.
Proof.
  intros Hc Hk. unfold vertices_before.
  rewrite (@length_concat_uniform _ (firstn k lines) (3 * c)).
  - rewrite length_firstn, Nat.min_l by exact Hk.
    replace (3 * c * k) with (k * c * 3) by lia.
    apply Nat.div_mul. lia.
  - intros line Hl. apply Hc.
    rewrite <- (firstn_skipn k lines). apply in_or_app. left. exact Hl.
Qed.

Lemma line_info_uniform (before c : nat) (lines : list (list xreal)) :
  (forall line, In line lines -> length line = 3 * c) ->
  map (line_info before lines) (seq 0 (length lines))
  = map (fun k => {| Wireframe.offset := Fin (INR (before + k * c));
                     Wireframe.count := Fin (INR c) |})
      (seq 0 (length lines)).
Proof.
  intros Hc. apply map_ext_in. intros k Hk. apply in_seq in Hk.
  unfold line_info.
  rewrite (@vertices_before_uniform _ lines c k Hc) by lia.
  rewrite (Hc (nth k lines [])) by (apply nth_In; lia).
  replace (3 * c) with (c * 3) by lia.
  rewrite Nat.div_mul by lia. reflexivity.
Qed.

(** X16. In exact real arithmetic, for polylines of whole vertices (the
    length of every array is a multiple of 3), [BufferData] uploads the
    concatenation of the U polylines and the V polylines, and [Draw] then
    makes one draw call for every polyline, in that order: call number k
    is drawArrays(LINE_STRIP, first, count) with integers first and count,
    and the count vertices from vertex first on of the uploaded array are
    polyline number k. *)
Theorem wireframe_buffer_ranges :
  forall (buffer uniform texture : Type) (this : @Wireframe.Model xreal buffer)
         (shProgram : @Wireframe.ShaderProgram uniform)
         (uLines vLines : list (list xreal)),
    (forall line, In line (uLines ++ vLines) -> Nat.divide 3 (length line)) ->
    let loaded :=
      @Wireframe.BufferData xreal _ buffer uniform texture this uLines vLines in
    let vertices := concat (uLines ++ vLines) in
    let draws := filter is_draw
        (@Wireframe.Draw xreal _ buffer uniform texture (fst loaded) shProgram) in
    snd loaded
    = [bindBuffer ARRAY_BUFFER (Wireframe.iVertexBuffer this);
       bufferData ARRAY_BUFFER (Float32Array vertices) STATIC_DRAW]
    /\ length (Wireframe.uLineInfo (fst loaded)) = length uLines
    /\ length (Wireframe.vLineInfo (fst loaded)) = length vLines
    /\ length draws = length uLines + length vLines
    /\ forall (k : nat) (line : list xreal),
         nth_error (uLines ++ vLines) k = Some line ->
         exists first count : nat,
           nth_error draws k
           = Some (drawArrays LINE_STRIP (Fin (INR first)) (Fin (INR count)))
           /\ vertex_range vertices first count = line.
Proof.
  intros buffer uniform texture this shProgram uLines vLines Hw
         loaded vertices draws.
  subst loaded vertices draws.
  rewrite (@BufferData_whole buffer uniform texture this uLines vLines Hw).
  cbn [fst snd]. rewrite Draw_draws.
  cbn [Wireframe.uLineInfo Wireframe.vLineInfo].
  rewrite (line_info_app uLines vLines Hw).
  rewrite !length_map, !length_seq, length_app.
  repeat split.
  intros k line Hk.
  assert (Hlt : k < length (uLines ++ vLines))
    by (apply nth_error_Some; rewrite Hk; discriminate).
  exists (0 + vertices_before (uLines ++ vLines) k), (length line / 3).
  split.
  - rewrite !nth_error_map, nth_error_seq.
    rewrite length_app in Hlt.
    destruct (Nat.ltb_spec k (length uLines + length vLines)) as [_|?]; [|lia].
    cbn [option_map Nat.add]. unfold draw_line, line_info.
    cbn [Wireframe.offset Wireframe.count].
    rewrite (nth_error_nth _ _ [] Hk). reflexivity.
  - cbn [Nat.add].
    assert (El : nth k (uLines ++ vLines) [] = line)
      by (apply nth_error_nth; exact Hk).
    rewrite <- El. apply vertex_range_line; assumption.
Qed.

Lemma wireframe_buffer_ranges_at_two_lines :
  let this : @Wireframe.Model xreal nat :=
    {| Wireframe.iVertexBuffer := 0; Wireframe.uLineInfo := [];
       Wireframe.vLineInfo := [] |} in
  let shProgram : @Wireframe.ShaderProgram nat :=
    {| Wireframe.iAttribVertex := 0%Z; Wireframe.iColor := 1 |} in
  let uLines := [[Fin 0; Fin 0; Fin 0; Fin 1; Fin 0; Fin 0]] in
  let vLines := [[Fin 0; Fin 1; Fin 0]] in
  let loaded :=
    @Wireframe.BufferData xreal _ nat nat nat this uLines vLines in
  let vertices := concat (uLines ++ vLines) in
  let draws :=
    filter is_draw
      (@Wireframe.Draw xreal _ nat nat nat (fst loaded) shProgram) in
  snd loaded
  = [bindBuffer ARRAY_BUFFER (Wireframe.iVertexBuffer this);
     bufferData ARRAY_BUFFER (Float32Array vertices) STATIC_DRAW]
  /\ length (Wireframe.uLineInfo (fst loaded)) = length uLines
  /\ length (Wireframe.vLineInfo (fst loaded)) = length vLines
  /\ length draws = length uLines + length vLines
  /\ forall (k : nat) (line : list xreal),
       nth_error (uLines ++ vLines) k = Some line ->
       exists first count : nat,
         nth_error draws k
         = Some (drawArrays LINE_STRIP (Fin (INR first)) (Fin (INR count)))
         /\ vertex_range vertices first count = line.
Proof.
  apply (@wireframe_buffer_ranges nat nat nat).
  intros line [<-|[<-|[]]]; cbn [length].
  - exists 2. reflexivity.
  - exists 1. reflexivity.
Defined.

(** X17. In exact real arithmetic, for the polylines that the wireframe
    variant generates at any resolution, [BufferData] uploads
    2*(uSegments+1)*(vSegments+1) vertices, and [Draw] binds the buffer,
    sets the colour (1, 0.6, 0, 1), draws for every row j = 0 .. vSegments
    the line strip of the uSegments+1 vertices from vertex
    j*(uSegments+1) on, sets the colour (0.2, 0.7, 1, 1), and draws for
    every column i = 0 .. uSegments the line strip of the vSegments+1
    vertices from vertex (vSegments+1)*(uSegments+1) + i*(vSegments+1)
    on. *)
Theorem wireframe_draw_calls :
  forall (buffer uniform texture : Type) (this : @Wireframe.Model xreal buffer)
         (shProgram : @Wireframe.ShaderProgram uniform) (h p : xreal)
         (uSegments vSegments : nat),
    let uLines := Wireframe.generateULines h p vSegments uSegments in
    let vLines := Wireframe.generateVLines h p vSegments uSegments in
    let loaded :=
      @Wireframe.BufferData xreal _ buffer uniform texture this uLines vLines in
    let rowWidth := uSegments + 1 in
    let columnHeight := vSegments + 1 in
    snd loaded
    = [bindBuffer ARRAY_BUFFER (Wireframe.iVertexBuffer this);
       bufferData ARRAY_BUFFER (Float32Array (concat (uLines ++ vLines)))
         STATIC_DRAW]
    /\ length (concat (uLines ++ vLines)) = 3 * (2 * (rowWidth * columnHeight))
    /\ @Wireframe.Draw xreal _ buffer uniform texture (fst loaded) shProgram
       = [bindBuffer ARRAY_BUFFER (Wireframe.iVertexBuffer this);
          vertexAttribPointer (Wireframe.iAttribVertex shProgram) 3 FLOAT
            false 0 0;
          enableVertexAttribArray (Wireframe.iAttribVertex shProgram);
          uniform4fv (Wireframe.iColor shProgram)
            [literal 1.0; literal 0.6; literal 0.0; literal 1.0]]
         ++ map (fun j =>
                   drawArrays LINE_STRIP (Fin (INR (j * rowWidth)))
                     (Fin (INR rowWidth)))
              (seq 0 columnHeight)
         ++ [uniform4fv (Wireframe.iColor shProgram)
               [literal 0.2; literal 0.7; literal 1.0; literal 1.0]]
         ++ map (fun i =>
                   drawArrays LINE_STRIP
                     (Fin (INR (columnHeight * rowWidth + i * columnHeight)))
                     (Fin (INR columnHeight)))
              (seq 0 rowWidth).
Proof.
  intros buffer uniform texture this shProgram h p uSegments vSegments
         uLines vLines loaded rowWidth columnHeight.
  destruct (length_uLines h p vSegments uSegments) as [Lu Hu].
  destruct (length_vLines h p vSegments uSegments) as [Lv Hv].
  fold uLines in Lu, Hu. fold vLines in Lv, Hv.
  assert (Hw : forall line, In line (uLines ++ vLines) ->
                 Nat.divide 3 (length line)).
  { intros line Hin. apply in_app_or in Hin as [Hin|Hin].
    - rewrite (Hu line Hin). exists (uSegments + 1). lia.
    - rewrite (Hv line Hin). exists (vSegments + 1). lia. }
  subst loaded.
  rewrite (@BufferData_whole buffer uniform texture this uLines vLines Hw).
  cbn [fst snd]. rewrite Draw_calls.
  cbn [Wireframe.uLineInfo Wireframe.vLineInfo Wireframe.iVertexBuffer].
  assert (Hcu : length (concat uLines) = 3 * (rowWidth * columnHeight)).
  { rewrite (@length_concat_uniform _ uLines (3 * (uSegments + 1)) Hu), Lu.
    subst rowWidth columnHeight. lia. }
  assert (Hcv : length (concat vLines) = 3 * (rowWidth * columnHeight)).
  { rewrite (@length_concat_uniform _ vLines (3 * (vSegments + 1)) Hv), Lv.
    subst rowWidth columnHeight. lia. }
  split; [reflexivity|]. split.
  { rewrite concat_app, length_app, Hcu, Hcv. lia. }
  rewrite (@line_info_uniform 0 (uSegments + 1) uLines Hu).
  rewrite (@line_info_uniform (length (concat uLines) / 3) (vSegments + 1)
             vLines Hv).
  rewrite Lu, Lv, !map_map. fold rowWidth columnHeight.
  do 3 f_equal.
  apply map_ext. intros i. unfold draw_line.
  cbn [Wireframe.offset Wireframe.count].
  rewrite Hcu. replace (3 * (rowWidth * columnHeight))
    with (columnHeight * rowWidth * 3) by lia.
  rewrite Nat.div_mul by lia. reflexivity.
Qed.

(** ** The index buffer of the solid variants *)

Lemma uint16_elements_small (indices : list nat) :
  (forall k, In k indices -> k < 2 ^ 16) ->
  uint16_elements indices = indices.
Proof.
  intros Hs. unfold uint16_elements.
  rewrite <- (map_id indices) at 2.
  apply map_ext_in. intros k Hk. apply Nat.mod_small. auto.
Qed.

Lemma uint16_elements_wrap (indices : list nat) :
  In (2 ^ 16) indices -> uint16_elements indices <> indices.
Proof.
  intros Hin Heq.
  destruct (In_nth_error indices (2 ^ 16) Hin) as (n & Hn).
  assert (H0 : nth_error (uint16_elements indices) n
               = Some ((2 ^ 16) mod 2 ^ 16)).
  { unfold uint16_elements. rewrite nth_error_map, Hn. reflexivity. }
  rewrite Heq, Hn, Nat.Div0.mod_same in H0.
  apply (f_equal (fun o => match o with Some x => x | None => 0 end)) in H0.
  cbv beta iota in H0.
  revert H0. apply Nat.pow_nonzero. discriminate.
Qed.

Lemma uint16_elements_buildIndices (uSeg vSeg : nat) :
  1 <= uSeg -> 1 <= vSeg ->
  uint16_elements (Flat.buildIndices uSeg vSeg) = Flat.buildIndices uSeg vSeg
  <-> (uSeg + 1) * (vSeg + 1) <= 2 ^ 16.
Proof.
  intros Hu Hv. split.
  - intros Heq.
    destruct (le_lt_dec ((uSeg + 1) * (vSeg + 1)) (2 ^ 16)) as [Hle|Hlt];
      [exact Hle|].
    exfalso. revert Heq. apply uint16_elements_wrap.
    apply vertex_in_indices; assumption.
  - intros Hle. apply uint16_elements_small.
    intros k Hk. apply buildIndices_bound in Hk. lia.
Qed.

(** X18. For every uSegments >= 1 and vSegments >= 1, when the mesh data
    are handed to [BufferData], the index array goes into the element
    buffer through [Uint16Array] and [Draw] makes one draw call, for
    6*uSegments*vSegments indices: two triangles a quad.  The conversion
    to unsigned 16-bit integers leaves the index array as it is if and
    only if the mesh has at most 2^16 vertices; then every index in the
    buffer points at a vertex of the mesh.  Both solid variants, whatever
    the implementation of numbers. *)
Theorem index_buffer_16_bit :
  forall (num buffer uniform texture : Type) (N : Number num)
         (uSegments vSegments : nat),
    1 <= uSegments -> 1 <= vSegments ->
    let vertices := (uSegments + 1) * (vSegments + 1) in
    let indices := Flat.buildIndices uSegments vSegments in
    let upload := bufferData ELEMENT_ARRAY_BUFFER (Uint16Array indices)
                    STATIC_DRAW in
    let draw := drawElements TRIANGLES (3 * (2 * uSegments * vSegments))
                  UNSIGNED_SHORT 0 in
    (forall (this : @Flat.Model buffer) (shProgram : @Flat.ShaderProgram uniform),
        let data := Flat.CreateSurfaceData (Some uSegments) (Some vSegments) in
        let loaded :=
          @Flat.BufferData num buffer uniform texture this
            (Flat.positions data) (Flat.normals data) (Flat.indices data) in
        In upload (snd loaded)
        /\ filter is_draw
             (@Flat.Draw num buffer uniform texture (fst loaded) shProgram)
           = [draw])
    /\ (forall (this : @Textured.Model buffer)
               (shProgram : @Textured.ShaderProgram uniform),
          let data :=
            Textured.CreateSurfaceData (Some uSegments) (Some vSegments) in
          let loaded :=
            @Textured.BufferData num buffer uniform texture this
              (Textured.positions data) (Textured.normals data)
              (Textured.tangents data) (Textured.texCoords data)
              (Textured.indices data) in
          In upload (snd loaded)
          /\ filter is_draw
               (@Textured.Draw num buffer uniform texture (fst loaded)
                  shProgram)
             = [draw])
    /\ (uint16_elements indices = indices <-> vertices <= 2 ^ 16)
    /\ (vertices <= 2 ^ 16 ->
        forall k, In k (uint16_elements indices) -> k < vertices).
Proof.
  intros num buffer uniform texture N uSegments vSegments Hu Hv
         vertices indices upload draw.
  subst vertices upload draw.
  assert (Hlen : length indices = 3 * (2 * uSegments * vSegments))
    by (subst indices; rewrite length_buildIndices; lia).
  pose proof (@uint16_elements_buildIndices uSegments vSegments Hu Hv) as H16.
  fold indices in H16.
  split; [|split; [|split]].
  - intros this shProgram data loaded. subst data loaded.
    rewrite Flat_CreateSurfaceData_unfold.
    cbn [Flat.positions Flat.normals Flat.indices]. fold indices.
    unfold Flat.BufferData. cbn [fst snd]. split.
    + do 5 right. left. reflexivity.
    + unfold Flat.Draw. cbn [Flat.indexCount Flat.vbo Flat.nbo Flat.ibo].
      rewrite Hlen. reflexivity.
  - intros this shProgram data loaded. subst data loaded.
    rewrite (@Textured_mesh num N uSegments vSegments Hu Hv).
    cbn [Textured.positions Textured.normals Textured.tangents
         Textured.texCoords Textured.indices]. fold indices.
    unfold Textured.BufferData. cbn [fst snd]. split.
    + do 9 right. left. reflexivity.
    + unfold Textured.Draw.
      cbn [Textured.indexCount Textured.vbo Textured.nbo Textured.tbo
           Textured.uvbo Textured.ibo].
      rewrite Hlen. reflexivity.
  - exact H16.
  - intros Hle k Hk. rewrite (proj2 H16 Hle) in Hk.
    apply buildIndices_bound. exact Hk.
Qed.

Lemma index_buffer_16_bit_at_4_2 :
  let vertices := (4 + 1) * (2 + 1) in
  let indices := Flat.buildIndices 4 2 in
  let upload : gl_call xreal nat nat nat :=
    bufferData ELEMENT_ARRAY_BUFFER (Uint16Array indices) STATIC_DRAW in
  let draw : gl_call xreal nat nat nat :=
    drawElements TRIANGLES (3 * (2 * 4 * 2)) UNSIGNED_SHORT 0 in
  (forall (this : @Flat.Model nat) (shProgram : @Flat.ShaderProgram nat),
      let data := Flat.CreateSurfaceData (Some 4) (Some 2) in
      let loaded :=
        @Flat.BufferData xreal nat nat nat this
          (Flat.positions data) (Flat.normals data) (Flat.indices data) in
      In upload (snd loaded)
      /\ filter is_draw
           (@Flat.Draw xreal nat nat nat (fst loaded) shProgram)
         = [draw])
  /\ (forall (this : @Textured.Model nat)
             (shProgram : @Textured.ShaderProgram nat),
        let data := Textured.CreateSurfaceData (Some 4) (Some 2) in
        let loaded :=
          @Textured.BufferData xreal nat nat nat this
            (Textured.positions data) (Textured.normals data)
            (Textured.tangents data) (Textured.texCoords data)
            (Textured.indices data) in
        In upload (snd loaded)
        /\ filter is_draw
             (@Textured.Draw xreal nat nat nat (fst loaded) shProgram)
           = [draw])
  /\ (uint16_elements indices = indices <-> vertices <= 2 ^ 16)
  /\ (vertices <= 2 ^ 16 ->
      forall k, In k (uint16_elements indices) -> k < vertices).
Proof.
  apply (@index_buffer_16_bit xreal nat nat nat _ 4 2); lia.
Defined.

(** ** Points under a matrix *)

(** X19. [transformPoint] returns three coordinates and takes no account
    of the fourth row of the matrix (entries 3, 7, 11 and 15) nor of any
    entry beyond, whatever the implementation of numbers; both solid
    variants have the same function.  In exact real arithmetic, for a
    matrix of 16 reals, it is an affine map of the point: it sends the
    origin to the entries 12, 13 and 14 of the matrix, and the point
    p + s*(q - p) of a line to the same point of the line through the
    images of p and q. *)
Theorem transformPoint_affine :
  forall (m : list R),
    length m = 16 ->
    (forall (num : Type) (N : Number num) (a p : list num),
        length (Flat.transformPoint a p) = 3
        /\ Textured.transformPoint a p = Flat.transformPoint a p
        /\ forall (r : nat) (v : num),
             r = 3 \/ r = 7 \/ r = 11 \/ 15 <= r ->
             Flat.transformPoint (set a r v) p = Flat.transformPoint a p)
    /\ exists f : R * R * R -> R * R * R,
         (forall pt : R * R * R,
             Flat.transformPoint (map Fin m) (entries3 (Fin3 pt))
             = entries3 (Fin3 (f pt)))
         /\ f (0, 0, 0)%R = (nth 12 m 0, nth 13 m 0, nth 14 m 0)%R
         /\ forall (s : R) (p q : R * R * R),
              f (blend s p q) = blend s (f p) (f q).
Proof.
  intros m Hm. split.
  - intros num N a p. split; [reflexivity|]. split; [reflexivity|].
    intros r v Hr. unfold Flat.transformPoint.
    rewrite !get_set_other_any by lia. reflexivity.
  - destruct m as [|m0 [|m1 [|m2 [|m3 [|m4 [|m5 [|m6 [|m7 [|m8 [|m9 [|m10
      [|m11 [|m12 [|m13 [|m14 [|m15 [|? ?]]]]]]]]]]]]]]]]];
      try discriminate Hm. clear Hm.
    exists (fun pt => let '(x, y, z) := pt in
              (m0 * x + m4 * y + m8 * z + m12,
               m1 * x + m5 * y + m9 * z + m13,
               m2 * x + m6 * y + m10 * z + m14)%R).
    split; [|split].
    + intros [[x y] z]. reflexivity.
    + cbn [nth]. f_equal; [f_equal|]; ring.
    + intros s [[px py] pz] [[qx qy] qz]. unfold blend.
      f_equal; [f_equal|]; ring.
Qed.

Lemma transformPoint_affine_at_translation :
  let m := [1; 0; 0; 0; 0; 1; 0; 0; 0; 0; 1; 0; 0; 0; -10; 1]%R in
  (forall (num : Type) (N : Number num) (a p : list num),
      length (Flat.transformPoint a p) = 3
      /\ Textured.transformPoint a p = Flat.transformPoint a p
      /\ forall (r : nat) (v : num),
           r = 3 \/ r = 7 \/ r = 11 \/ 15 <= r ->
           Flat.transformPoint (set a r v) p = Flat.transformPoint a p)
  /\ exists f : R * R * R -> R * R * R,
       (forall pt : R * R * R,
           Flat.transformPoint (map Fin m) (entries3 (Fin3 pt))
           = entries3 (Fin3 (f pt)))
       /\ f (0, 0, 0)%R = (nth 12 m 0, nth 13 m 0, nth 14 m 0)%R
       /\ forall (s : R) (p q : R * R * R),
            f (blend s p q) = blend s (f p) (f q).
Proof.
  apply (@transformPoint_affine
           [1; 0; 0; 0; 0; 1; 0; 0; 0; 0; 1; 0; 0; 0; -10; 1]%R).
  reflexivity.
Defined.

(** ** The rotating light *)

Lemma Q2R_5_0 : Q2R 5.0 = 5%R.
Proof. unfold Q2R; cbn; lra. Qed.

Lemma Q2R_0_001 : Q2R 0.001 = (1 / 1000)%R.
Proof. unfold Q2R; cbn; lra. Qed.

Lemma light_angle (time : R) :
  (@Flat.animate xreal _ (Fin time) * literal 0.5)%num = Fin (time / 2000).
Proof.
  unfold Flat.animate. cbn [literal num_mul RealNumber xlift2].
  rewrite Q2R_0_001, Q2R_0_5. f_equal. field.
Qed.

(** X20. In exact real arithmetic, at every time (in milliseconds) that
    [animate] is called with, the light that is sent to the shader is the
    image under the model-view matrix of a point at height 2 on the circle
    of radius 5 around the y axis, at the angle time/2000; the textured
    variant sends the same point.  The light is back at the same place
    after 4000*pi milliseconds. *)
Theorem light_orbit :
  forall (buffer uniform texture : Type)
         (flatProgram : @Flat.ShaderProgram uniform)
         (texturedProgram : @Textured.ShaderProgram uniform)
         (modelView : list xreal) (time : R),
    let x := (5 * cos (time / 2000))%R in
    let z := (5 * sin (time / 2000))%R in
    @Flat.updateLightUniform xreal _ buffer uniform texture flatProgram
      (Flat.animate (Fin time)) modelView
    = [uniform3fv (Flat.iLightPos flatProgram)
         (Float32Array (Flat.transformPoint modelView [Fin x; Fin 2; Fin z]))]
    /\ @Textured.draw_light xreal _ buffer uniform texture texturedProgram
         (Textured.animate (Fin time)) modelView
       = [uniform3fv (Textured.iLightPos texturedProgram)
            (Float32Array
               (Textured.transformPoint modelView [Fin x; Fin 2; Fin z]))]
    /\ (x * x + z * z = 25)%R
    /\ @Flat.updateLightUniform xreal _ buffer uniform texture flatProgram
         (Flat.animate (Fin (time + 4000 * PI))) modelView
       = @Flat.updateLightUniform xreal _ buffer uniform texture flatProgram
           (Flat.animate (Fin time)) modelView.
Proof.
  intros buffer uniform texture flatProgram texturedProgram modelView time
         x z.
  assert (Hpos : forall t : R,
             @Flat.updateLightUniform xreal _ buffer uniform texture
               flatProgram (Flat.animate (Fin t)) modelView
             = [uniform3fv (Flat.iLightPos flatProgram)
                  (Float32Array
                     (Flat.transformPoint modelView
                        [Fin (5 * cos (t / 2000)); Fin 2;
                         Fin (5 * sin (t / 2000))]))]).
  { intros t. unfold Flat.updateLightUniform. cbv zeta.
    rewrite light_angle.
    cbn [literal Math_cos Math_sin num_mul RealNumber xlift1 xlift2].
    rewrite Q2R_5_0, Q2R_2_0. reflexivity. }
  split; [apply Hpos|]. split; [|split].
  - unfold Textured.draw_light, Textured.animate. cbv zeta.
    pose proof (light_angle time) as Ha. unfold Flat.animate in Ha.
    rewrite Ha.
    cbn [literal Math_cos Math_sin num_mul RealNumber xlift1 xlift2].
    rewrite Q2R_5_0, Q2R_2_0. reflexivity.
  - subst x z. pose proof (sin2_cos2 (time / 2000)) as Hsc.
    unfold Rsqr in Hsc. nra.
  - rewrite !Hpos.
    replace ((time + 4000 * PI) / 2000)%R
      with (time / 2000 + 2 * INR 1 * PI)%R by (cbn [INR]; field).
    rewrite cos_period, sin_period. reflexivity.
Qed.

(** ** Textures *)

Section PowersOfTwo.
Local Open Scope Z_scope.

Lemma ToInt32_small (x : Z) : 0 <= x < 2 ^ 31 -> Textured.ToInt32 x = x.
Proof.
  intros Hx. unfold Textured.ToInt32.
  rewrite Z.mod_small by lia.
  destruct (Z.leb_spec (2 ^ 31) x); [lia|reflexivity].
Qed.

Lemma ToInt32_large (x : Z) :
  2 ^ 31 <= x < 2 ^ 32 -> Textured.ToInt32 x = x - 2 ^ 32.
Proof.
  intros Hx. unfold Textured.ToInt32.
  rewrite Z.mod_small by lia.
  destruct (Z.leb_spec (2 ^ 31) x); [reflexivity|lia].
Qed.

(** [v & (v - 1)] clears the lowest set bit of [v]: nothing is left exactly
    when [v] has one bit. *)
Lemma land_pred_power (v : Z) :
  0 < v -> Z.land v (v - 1) = 0 <-> exists k, 0 <= k /\ v = 2 ^ k.
Proof.
  intros Hv. split.
  - intros Hl.
    pose proof (Z.log2_spec v Hv) as [Hlo Hhi].
    pose proof (Z.log2_nonneg v) as Hk.
    exists (Z.log2 v). split; [exact Hk|].
    destruct (Z.eq_dec v (2 ^ Z.log2 v)) as [E|E]; [exact E|exfalso].
    assert (Hp : Z.log2 (v - 1) = Z.log2 v).
    { apply Z.log2_unique; [exact Hk|]. lia. }
    assert (Hb : Z.testbit (Z.land v (v - 1)) (Z.log2 v) = true).
    { rewrite Z.land_spec, Z.bit_log2 by exact Hv.
      rewrite <- Hp. rewrite Z.bit_log2; [reflexivity|].
      assert (0 < 2 ^ Z.log2 v) by (apply Z.pow_pos_nonneg; lia). lia. }
    rewrite Hl, Z.bits_0 in Hb. discriminate.
  - intros (k & Hk & ->).
    replace (2 ^ k - 1) with (Z.ones k) by (rewrite Z.ones_equiv; lia).
    rewrite Z.land_ones by exact Hk.
    apply Z.mod_same. apply Z.pow_nonzero; lia.
Qed.

Lemma power_below_2_32 (v k : Z) :
  0 <= k -> v = 2 ^ k -> 2 ^ 31 < v -> v < 2 ^ 32 -> False.
Proof.
  intros Hk -> Hlo Hhi.
  destruct (Z.le_gt_cases k 31) as [H|H].
  - pose proof (Z.pow_le_mono_r 2 k 31 ltac:(lia) H). lia.
  - pose proof (Z.pow_le_mono_r 2 32 k ltac:(lia) ltac:(lia)). lia.
Qed.

Lemma isPowerOf2_spec (v : Z) :
  0 <= v < 2 ^ 32 ->
  Textured.isPowerOf2 v = true <-> v = 0 \/ exists k, 0 <= k /\ v = 2 ^ k.
Proof.
  intros Hv. unfold Textured.isPowerOf2, Textured.bitwise_and.
  rewrite Z.eqb_eq.
  destruct (Z.eq_dec v 0) as [->|Hz].
  { split; [intros _; left; reflexivity|intros _; reflexivity]. }
  destruct (Z.lt_ge_cases v (2 ^ 31)) as [Hs|Hs].
  { rewrite !ToInt32_small by lia.
    rewrite land_pred_power by lia.
    split; [intros H; right; exact H|intros [H|H]; [lia|exact H]]. }
  destruct (Z.eq_dec v (2 ^ 31)) as [->|Hn].
  { split; [intros _; right; exists 31; split; [lia|reflexivity]
           |intros _; reflexivity]. }
  rewrite !ToInt32_large by lia.
  split.
  - intros Hl. exfalso.
    assert (Hneg : Z.land (v - 2 ^ 32) (v - 1 - 2 ^ 32) < 0)
      by (apply Z.land_neg; lia).
    lia.
  - intros [H|(k & Hk & H)]; [lia|].
    exfalso. apply (power_below_2_32 Hk H); lia.
Qed.
End PowersOfTwo.

(** X21. For an integer value from 0 to 2^32 - 1, the range of the sides
    of an image, [isPowerOf2(value)] is true if and only if value is a
    power of two or zero. *)
Theorem isPowerOf2_characterization :
  forall value : Z,
    (0 <= value < 2 ^ 32)%Z ->
    Textured.isPowerOf2 value = true <-> power_of_two_or_zero value.
Proof.
  intros value Hv. unfold power_of_two_or_zero.
  apply isPowerOf2_spec. exact Hv.
Qed.

Lemma isPowerOf2_characterization_at_64 :
  Textured.isPowerOf2 64 = true <-> power_of_two_or_zero 64.
Proof.
  apply (@isPowerOf2_characterization 64). split; [discriminate|reflexivity].
Defined.

(** X22. When an image has loaded, with sides from 0 to 2^32 - 1, the
    handler uploads it and then sets the parameters of the texture by its
    size.  If both sides are powers of two (or zero) it generates the
    mipmaps and sets the minification filter LINEAR_MIPMAP_LINEAR and the
    wrap mode REPEAT on both axes.  Otherwise it makes no call of
    generateMipmap and sets the minification filter LINEAR and the wrap
    mode CLAMP_TO_EDGE on both axes.  The magnification filter is LINEAR
    in both cases. *)
Theorem texture_parameters_by_size :
  forall (num buffer uniform texture : Type) (t : texture) (image : Image),
    (0 <= width image < 2 ^ 32)%Z ->
    (0 <= height image < 2 ^ 32)%Z ->
    let calls := @Textured.image_onload num buffer uniform texture t image in
    let upload :=
      [bindTexture TEXTURE_2D t;
       pixelStorei UNPACK_FLIP_Y_WEBGL true;
       texImage2D TEXTURE_2D 0 RGBA RGBA UNSIGNED_BYTE image] in
    (power_of_two_or_zero (width image)
     /\ power_of_two_or_zero (height image) ->
     calls
     = upload
       ++ [generateMipmap TEXTURE_2D;
           texParameteri TEXTURE_2D TEXTURE_MIN_FILTER LINEAR_MIPMAP_LINEAR;
           texParameteri TEXTURE_2D TEXTURE_MAG_FILTER LINEAR;
           texParameteri TEXTURE_2D TEXTURE_WRAP_S REPEAT;
           texParameteri TEXTURE_2D TEXTURE_WRAP_T REPEAT])
    /\ (~ (power_of_two_or_zero (width image)
           /\ power_of_two_or_zero (height image)) ->
        calls
        = upload
          ++ [texParameteri TEXTURE_2D TEXTURE_MIN_FILTER LINEAR;
              texParameteri TEXTURE_2D TEXTURE_MAG_FILTER LINEAR;
              texParameteri TEXTURE_2D TEXTURE_WRAP_S CLAMP_TO_EDGE;
              texParameteri TEXTURE_2D TEXTURE_WRAP_T CLAMP_TO_EDGE]
        /\ ~ In (generateMipmap TEXTURE_2D) calls).
Proof.
  intros num buffer uniform texture t image Hw Hh calls upload.
  subst calls upload. unfold Textured.image_onload. cbv zeta.
  pose proof (isPowerOf2_spec Hw) as Pw.
  pose proof (isPowerOf2_spec Hh) as Ph.
  fold (power_of_two_or_zero (width image)) in Pw.
  fold (power_of_two_or_zero (height image)) in Ph.
  destruct (Textured.isPowerOf2 (width image)) eqn:Ew;
    destruct (Textured.isPowerOf2 (height image)) eqn:Eh;
    cbn [andb]; split.
  - intros _. reflexivity.
  - intros Hn. exfalso. apply Hn. split.
    + apply Pw. reflexivity.
    + apply Ph. reflexivity.
  - intros [_ H]. apply Ph in H. discriminate H.
  - intros _. split; [reflexivity|].
    intros Hin. repeat (destruct Hin as [Hin|Hin]; [discriminate Hin|]).
    exact Hin.
  - intros [H _]. apply Pw in H. discriminate H.
  - intros _. split; [reflexivity|].
    intros Hin. repeat (destruct Hin as [Hin|Hin]; [discriminate Hin|]).
    exact Hin.
  - intros [H _]. apply Pw in H. discriminate H.
  - intros _. split; [reflexivity|].
    intros Hin. repeat (destruct Hin as [Hin|Hin]; [discriminate Hin|]).
    exact Hin.
Qed.

Lemma texture_parameters_by_size_at_640_by_480 :
  let t := 0 in
  let image := {| width := 640; height := 480 |} in
  let calls := @Textured.image_onload xreal nat nat nat t image in
  let upload :=
    [bindTexture TEXTURE_2D t;
     pixelStorei UNPACK_FLIP_Y_WEBGL true;
     texImage2D TEXTURE_2D 0 RGBA RGBA UNSIGNED_BYTE image] in
  (power_of_two_or_zero (width image)
   /\ power_of_two_or_zero (height image) ->
   calls
   = upload
     ++ [generateMipmap TEXTURE_2D;
         texParameteri TEXTURE_2D TEXTURE_MIN_FILTER LINEAR_MIPMAP_LINEAR;
         texParameteri TEXTURE_2D TEXTURE_MAG_FILTER LINEAR;
         texParameteri TEXTURE_2D TEXTURE_WRAP_S REPEAT;
         texParameteri TEXTURE_2D TEXTURE_WRAP_T REPEAT])
  /\ (~ (power_of_two_or_zero (width image)
         /\ power_of_two_or_zero (height image)) ->
      calls
      = upload
        ++ [texParameteri TEXTURE_2D TEXTURE_MIN_FILTER LINEAR;
            texParameteri TEXTURE_2D TEXTURE_MAG_FILTER LINEAR;
            texParameteri TEXTURE_2D TEXTURE_WRAP_S CLAMP_TO_EDGE;
            texParameteri TEXTURE_2D TEXTURE_WRAP_T CLAMP_TO_EDGE]
      /\ ~ In (generateMipmap TEXTURE_2D) calls).
Proof.
  apply (@texture_parameters_by_size xreal nat nat nat 0
           {| width := 640; height := 480 |});
    cbn [width height]; split; first [discriminate|reflexivity].
Defined.

(** ** Degrees *)

